(** * Octo-Bloom: the Bloom filter and its registry

    A shallow embedding of [src/bloom_filter.cpp], [src/shared_memory.cpp]
    and [src/octo_bloom.cpp], followed by the properties of the
    specification that the code satisfies and the inputs on which it
    departs from them.

    Conventions.
    - [uint64_t], [size_t] and [Datum] are 64-bit: a value is a [Z] and every
      operation that can wrap is followed by [wrap64].  [uint32_t] likewise
      with [wrap32].  A byte is a [Z] in [0, 256).
    - A [double] is held as its IEEE-754 binary64 bit pattern, the way
      [serialize] reads it.
    - Undefined behaviour of the C++ (division by zero, an access outside an
      allocation, a float-to-integer conversion out of range) is [None].
    - Pointers into buffers are lists; a null [data] pointer is [None]. *)

From Stdlib Require Import ZArith List Lia Bool Reals Lra.
From stdpp Require Import base option list gmap strings.

Local Open Scope Z_scope.

(** ** Machine integers *)

Definition wrap64 (z : Z) : Z := z mod 2 ^ 64.
Definition wrap32 (z : Z) : Z := z mod 2 ^ 32.

Definition double := Z.

(** ** The filter object ([bloom_filter.hpp], private members) *)

Record OctoBloomFilter : Type := mkFilter {
  bits_ : list Z;
  num_hashes_ : Z;
  expected_count_ : Z;
  false_positive_rate_ : double;
  bit_array_size_ : Z;
  byte_array_size_ : Z
}.

Definition set_bits (f : OctoBloomFilter) (bits : list Z) : OctoBloomFilter :=
  mkFilter bits (num_hashes_ f) (expected_count_ f) (false_positive_rate_ f)
           (bit_array_size_ f) (byte_array_size_ f).

Definition getBitArraySize (f : OctoBloomFilter) : Z := bit_array_size_ f.
Definition getNumHashes (f : OctoBloomFilter) : Z := num_hashes_ f.
Definition getExpectedCount (f : OctoBloomFilter) : Z := expected_count_ f.
Definition getFalsePositiveRate (f : OctoBloomFilter) : double := false_positive_rate_ f.

(** ** Hashing ([bloom_filter.cpp], lines 86-129) *)

(** [simple_hash]: [hash = ((hash << 5) + hash) + bytes[i]] from 5381. *)
Definition simple_hash (bytes : list Z) : Z :=
  fold_left (fun hash b => wrap64 (wrap64 (wrap64 (Z.shiftl hash 5) + hash) + b))
            bytes 5381.

Definition FNV_PRIME : Z := 0x100000001b3.
Definition HASH2_SEED : Z := 0x9e3779b97f4a7c15.

(** [hash2]: xor the byte in, multiply by the prime, fold the high half. *)
Definition hash2_step (hash b : Z) : Z :=
  let hash := Z.lxor hash b in
  let hash := wrap64 (hash * FNV_PRIME) in
  Z.lxor hash (Z.shiftr hash 32).

Definition hash2 (data : option (list Z)) : Z :=
  match data with
  | None => 1
  | Some bytes =>
      if (length bytes =? 0)%nat then 1
      else fold_left hash2_step bytes HASH2_SEED
  end.

(** What the extension takes from the PostgreSQL server: [hash_any], a
    function of the bytes alone, and the catalog lookup [get_attnum]. *)
Class Postgres : Type := {
  hash_any : list Z -> Z;
  get_attnum : Z -> string -> Z
}.

Definition hash1 `{Postgres} (data : option (list Z)) : Z :=
  match data with
  | None => 0
  | Some bytes =>
      if (length bytes =? 0)%nat then 0
      else
        let hash_datum := wrap64 (hash_any bytes) in
        if hash_datum =? 0 then simple_hash bytes else hash_datum
  end.

Definition doubleHash `{Postgres} (data : option (list Z)) : Z * Z :=
  (hash1 data, hash2 data).

(** ** Bit positions, [add] and [mightContain] (lines 39-68) *)

(** [uint64_t hash = h1 + i * h2; size_t index = hash % bit_array_size_]. *)
Definition bit_index (m h1 h2 i : Z) : Z :=
  wrap64 (h1 + wrap64 (i * h2)) mod m.

Definition bit_mask (index : Z) : Z := Z.shiftl 1 (index mod 8).

(** [bits_[byte_index] |= bit_mask]. *)
Definition set_bit (bits : list Z) (index : Z) : option (list Z) :=
  let byte_index := Z.to_nat (index / 8) in
  match bits !! byte_index with
  | Some b => Some (<[byte_index := Z.lor b (bit_mask index)]> bits)
  | None => None
  end.

(** [bits_[byte_index] & bit_mask], as a truth value. *)
Definition test_bit (bits : list Z) (index : Z) : option bool :=
  let byte_index := Z.to_nat (index / 8) in
  match bits !! byte_index with
  | Some b => Some (negb (Z.land b (bit_mask index) =? 0))
  | None => None
  end.

(** The body of the [for] loop of [add], over the values [i] still to run. *)
Fixpoint add_loop (bits : list Z) (m h1 h2 : Z) (js : list Z) : option (list Z) :=
  match js with
  | [] => Some bits
  | i :: rest =>
      if m =? 0 then None
      else match set_bit bits (bit_index m h1 h2 i) with
           | Some bits' => add_loop bits' m h1 h2 rest
           | None => None
           end
  end.

Definition add `{Postgres} (f : OctoBloomFilter) (data : option (list Z)) : option OctoBloomFilter :=
  let '(h1, h2) := doubleHash data in
  match add_loop (bits_ f) (bit_array_size_ f) h1 h2 (seqZ 0 (num_hashes_ f)) with
  | Some bits' => Some (set_bits f bits')
  | None => None
  end.

(** The loop of [mightContain]: it leaves with [false] at the first clear bit. *)
Fixpoint mightContain_loop (bits : list Z) (m h1 h2 : Z) (js : list Z) : option bool :=
  match js with
  | [] => Some true
  | i :: rest =>
      if m =? 0 then None
      else match test_bit bits (bit_index m h1 h2 i) with
           | Some true => mightContain_loop bits m h1 h2 rest
           | Some false => Some false
           | None => None
           end
  end.

Definition mightContain `{Postgres} (f : OctoBloomFilter) (data : option (list Z)) : option bool :=
  let '(h1, h2) := doubleHash data in
  mightContain_loop (bits_ f) (bit_array_size_ f) h1 h2 (seqZ 0 (num_hashes_ f)).

(** [remove] only reports a warning; the object is untouched. *)
Definition remove (f : OctoBloomFilter) (data : option (list Z)) : OctoBloomFilter * string :=
  (f, "Remove operation not supported for regular Bloom filter"%string).

(** [clear]: [memset(bits_, 0, byte_array_size_)]. *)
Definition clear (f : OctoBloomFilter) : option OctoBloomFilter :=
  let n := Z.to_nat (byte_array_size_ f) in
  if (n <=? length (bits_ f))%nat
  then Some (set_bits f (replicate n 0 ++ drop n (bits_ f)))
  else None.

Definition getMemoryUsage (f : OctoBloomFilter) : Z :=
  wrap64 (bit_array_size_ f + 7) / 8.

(** ** Floating point

    The constructor computes in [double] through the C++ library.  The
    arithmetic and [<cmath>] are an interface; the two conversions to
    integers are spelled out on the bit pattern. *)

Class Libm (F : Type) : Type := {
  fp_of_Z : Z -> F;
  fp_neg : F -> F;
  fp_mul : F -> F -> F;
  fp_div : F -> F -> F;
  std_log : F -> F;
  std_pow : F -> F -> F;
  std_round : F -> F
}.

Class FpCast (F : Type) : Type := {
  to_size_t : F -> option Z;
  to_uint32_t : F -> option Z
}.

(** *** binary64 by its bit pattern *)

Definition double_sign (d : double) : bool := Z.testbit d 63.
Definition double_exponent (d : double) : Z := (d / 2 ^ 52) mod 2 ^ 11.
Definition double_fraction (d : double) : Z := d mod 2 ^ 52.

(** The value rounded toward zero; [None] for an infinity or a NaN. *)
Definition double_trunc (d : double) : option Z :=
  let e := double_exponent d in
  if e =? 2047 then None
  else
    let magnitude :=
      if e =? 0 then 0
      else
        let significand := 2 ^ 52 + double_fraction d in
        if 1075 <=? e then significand * 2 ^ (e - 1075)
        else significand / 2 ^ (1075 - e) in
    Some (if double_sign d then - magnitude else magnitude).

(** [static_cast<T>(d)] for an unsigned [T] of [w] bits: defined when the
    truncated value fits. *)
Definition double_to_unsigned (w : Z) (d : double) : option Z :=
  match double_trunc d with
  | Some z => if (0 <=? z) && (z <? 2 ^ w) then Some z else None
  | None => None
  end.

#[export] Instance double_cast : FpCast double := {
  to_size_t := double_to_unsigned 64;
  to_uint32_t := double_to_unsigned 32
}.

(** ** The constructor ([bloom_filter.cpp], lines 13-37) *)

Section Parameters.
Context {F : Type} `{Libm F} `{FpCast F}.

(** Lines 20-22. *)
Definition optimal_bit_array_size (expected_count : Z) (false_positive_rate : F) : option Z :=
  to_size_t
    (fp_div (fp_neg (fp_mul (fp_of_Z expected_count) (std_log false_positive_rate)))
            (std_pow (std_log (fp_of_Z 2)) (fp_of_Z 2))).

(** Lines 24-26. *)
Definition optimal_num_hashes (bit_array_size expected_count : Z) : option Z :=
  to_uint32_t
    (std_round (fp_mul (fp_div (fp_of_Z bit_array_size) (fp_of_Z expected_count))
                       (std_log (fp_of_Z 2)))).

(** Lines 20-31: the two formulas, then the clamps. *)
Definition derive_parameters (expected_count : Z) (false_positive_rate : F) : option (Z * Z) :=
  match optimal_bit_array_size expected_count false_positive_rate with
  | None => None
  | Some bit_array_size =>
      match optimal_num_hashes bit_array_size expected_count with
      | None => None
      | Some num_hashes =>
          let bit_array_size := Z.max bit_array_size 64 in
          let num_hashes := Z.max num_hashes 1 in
          let num_hashes := Z.min num_hashes 50 in
          Some (bit_array_size, num_hashes)
      end
  end.

End Parameters.

(** The object the constructor leaves when [palloc] returns. *)
Definition OctoBloomFilter_new `{Libm double}
    (expected_count : Z) (false_positive_rate : double) : option OctoBloomFilter :=
  match derive_parameters expected_count false_positive_rate with
  | None => None
  | Some (bit_array_size, num_hashes) =>
      let byte_array_size := wrap64 (bit_array_size + 7) / 8 in
      Some (mkFilter (replicate (Z.to_nat byte_array_size) 0) num_hashes
                     expected_count false_positive_rate bit_array_size byte_array_size)
  end.

(** ** Serialization (lines 131-174)

    Fields are laid out by [reinterpret_cast] in host byte order, little
    endian on the supported platforms. *)

Fixpoint le_bytes (n : nat) (v : Z) : list Z :=
  match n with
  | O => []
  | S k => v mod 256 :: le_bytes k (v / 256)
  end.

Fixpoint le_value (bs : list Z) : Z :=
  match bs with
  | [] => 0
  | b :: rest => b + 256 * le_value rest
  end.

(** A store of [src] at offset [off] of an allocation, and a load of [n]
    bytes from it; outside the allocation the access is undefined. *)
Definition write_at (off : nat) (src buf : list Z) : option (list Z) :=
  if (off + length src <=? length buf)%nat
  then Some (take off buf ++ src ++ drop (off + length src) buf)
  else None.

Definition read_at (off n : nat) (buf : list Z) : option (list Z) :=
  if (off + n <=? length buf)%nat then Some (take n (drop off buf)) else None.

(** [sizeof(uint64_t) * 3 + sizeof(uint32_t)]. *)
Definition HEADER_SIZE : Z := 8 * 3 + 4.

Definition getSerializedSize (f : OctoBloomFilter) : Z :=
  wrap64 (HEADER_SIZE + wrap64 (bit_array_size_ f + 7) / 8).

Definition serialize (f : OctoBloomFilter) (buffer : list Z) : option (list Z) :=
  b1 ← write_at 0 (le_bytes 8 (expected_count_ f)) buffer;
  b2 ← write_at 8 (le_bytes 8 (bit_array_size_ f)) b1;
  b3 ← write_at 16 (le_bytes 8 (false_positive_rate_ f)) b2;
  b4 ← write_at 24 (le_bytes 4 (num_hashes_ f)) b3;
  src ← read_at 0 (Z.to_nat (byte_array_size_ f)) (bits_ f);
  write_at 28 src b4.

(** [deserialize] assigns the members as it goes: the object it returns
    with [false] from the second check already carries the header's values. *)
Definition deserialize (f : OctoBloomFilter) (buffer : list Z) (size : Z)
    : option (bool * OctoBloomFilter) :=
  if size <? HEADER_SIZE then Some (false, f)
  else
    ec ← read_at 0 8 buffer;
    bas ← read_at 8 8 buffer;
    fpr ← read_at 16 8 buffer;
    nh ← read_at 24 4 buffer;
    let f1 := mkFilter (bits_ f) (le_value nh) (le_value ec) (le_value fpr)
                       (le_value bas) (byte_array_size_ f) in
    let expected_size := wrap64 (HEADER_SIZE + wrap64 (bit_array_size_ f1 + 7) / 8) in
    if size <? expected_size then Some (false, f1)
    else
      let byte_array_size := wrap64 (bit_array_size_ f1 + 7) / 8 in
      bits ← read_at 28 (Z.to_nat byte_array_size) buffer;
      Some (true, mkFilter bits (num_hashes_ f1) (expected_count_ f1)
                           (false_positive_rate_ f1) (bit_array_size_ f1) byte_array_size).

(** ** The registry ([shared_memory.hpp], [shared_memory.cpp])

    One backend process.  [palloc] and [hash_search(HASH_ENTER)] either
    return or leave through [ereport(ERROR)]; which of the coming requests
    are granted is part of the state.  The [lock] members are never
    assigned (every lock call is commented out) and are left out, as are
    the byte counts of [BloomSharedState]. *)

Definition loc := positive.

(** An [OctoBloomFilter*]: null, the address of an allocation, or the
    indeterminate value of a member not yet assigned. *)
Inductive pointer : Type :=
  | Null
  | Loc (l : loc)
  | Indeterminate.

Record BloomRegistryEntry : Type := mkEntry {
  table_oid : Z;
  attnum : Z;
  filter : pointer;
  expected_count : Z;
  false_positive_rate : double;
  current_count : Z;
  is_valid : bool
}.

Record BloomSharedState : Type := mkShared {
  bloom_registry : gmap (Z * Z) BloomRegistryEntry;
  max_filters : Z
}.

(** [heap]: the live [palloc] allocations that hold a filter object;
    [None] is an allocation whose constructor has not completed. *)
Record backend : Type := mkBackend {
  bloom_shared_state : option BloomSharedState;
  heap : gmap loc (option OctoBloomFilter);
  grants : list bool
}.

Inductive errcode : Type :=
  | ERRCODE_UNDEFINED_COLUMN
  | ERRCODE_OUT_OF_MEMORY.

Inductive outcome (A : Type) : Type :=
  | Returns (a : A)
  | Raises (e : errcode)
  | Undefined.
Arguments Returns {A} a.
Arguments Raises {A} e.
Arguments Undefined {A}.

Definition M (A : Type) : Type := backend -> outcome A * backend.

Definition ret {A : Type} (a : A) : M A := fun s => (Returns a, s).

Definition bind {A B : Type} (m : M A) (k : A -> M B) : M B :=
  fun s =>
    match m s with
    | (Returns a, s') => k a s'
    | (Raises e, s') => (Raises e, s')
    | (Undefined, s') => (Undefined, s')
    end.

Definition ereport {A : Type} (e : errcode) : M A := fun s => (Raises e, s).
Definition undefined {A : Type} : M A := fun s => (Undefined, s).
Definition get_state : M backend := fun s => (Returns s, s).
Definition put_state (s : backend) : M unit := fun _ => (Returns tt, s).

#[export] Instance M_ret : MRet M := @ret.
#[export] Instance M_bind : MBind M := fun A B k m => bind m k.

(** The next request for memory: granted unless the state says otherwise. *)
Definition next_grant (gs : list bool) : bool * list bool :=
  match gs with
  | [] => (true, [])
  | g :: rest => (g, rest)
  end.

Definition request : M bool :=
  fun s =>
    let '(granted, rest) := next_grant (grants s) in
    (Returns granted, mkBackend (bloom_shared_state s) (heap s) rest).

(** [palloc(sizeof(OctoBloomFilter))]. *)
Definition palloc_object : M loc :=
  granted ← request;
  if granted : bool then
    s ← get_state;
    let l := fresh (dom (heap s)) in
    put_state (mkBackend (bloom_shared_state s) (<[l := None]> (heap s)) (grants s));;
    ret l
  else ereport ERRCODE_OUT_OF_MEMORY.

(** [p->~OctoBloomFilter(); pfree(p)]: the destructor is the default one. *)
Definition destroy_filter (l : loc) : M unit :=
  s ← get_state;
  match heap s !! l with
  | Some _ => put_state (mkBackend (bloom_shared_state s) (delete l (heap s)) (grants s))
  | None => undefined
  end.

(** [new (p) OctoBloomFilter(expected_count, false_positive_rate)]: the
    parameters are derived, then the bit buffer is requested. *)
Definition construct_at `{Libm double} (l : loc)
    (expected_count : Z) (false_positive_rate : double) : M unit :=
  match OctoBloomFilter_new expected_count false_positive_rate with
  | None => undefined
  | Some f =>
      granted ← request;
      if granted : bool then
        s ← get_state;
        put_state (mkBackend (bloom_shared_state s) (<[l := Some f]> (heap s)) (grants s))
      else ereport ERRCODE_OUT_OF_MEMORY
  end.

Definition registry_of (s : backend) : gmap (Z * Z) BloomRegistryEntry :=
  match bloom_shared_state s with
  | Some sh => bloom_registry sh
  | None => ∅
  end.

(** A store to members of the entry found under [key]. *)
Definition update_entry (key : Z * Z) (g : BloomRegistryEntry -> BloomRegistryEntry) : M unit :=
  fun s =>
    match bloom_shared_state s with
    | Some sh =>
        (Returns tt,
         mkBackend (Some (mkShared (alter g key (bloom_registry sh)) (max_filters sh)))
                   (heap s) (grants s))
    | None => (Undefined, s)
    end.

Definition set_filter (p : pointer) (e : BloomRegistryEntry) : BloomRegistryEntry :=
  mkEntry (table_oid e) (attnum e) p (expected_count e) (false_positive_rate e)
          (current_count e) (is_valid e).

Definition set_metadata (n : Z) (fpr : double) (e : BloomRegistryEntry) : BloomRegistryEntry :=
  mkEntry (table_oid e) (attnum e) (filter e) n fpr 0 true.

(** [init_shared_memory]: the state and an empty table of 10 filters.  With
    one backend the segment is never found already initialised. *)
Definition init_shared_memory : M unit :=
  fun s =>
    (Returns tt, mkBackend (Some (mkShared ∅ 10)) (heap s) (grants s)).

(** [hash_search(..., HASH_FIND, NULL)]. *)
Definition hash_find (key : Z * Z) : M (option BloomRegistryEntry) :=
  fun s => (Returns (registry_of s !! key), s).

(** [hash_search(..., HASH_ENTER, &found)]: an entry that is not found is
    made, its key copied in and nothing else assigned. *)
Definition hash_enter (key : Z * Z) : M bool :=
  s ← get_state;
  match bloom_shared_state s with
  | None => undefined
  | Some sh =>
      match bloom_registry sh !! key with
      | Some _ => ret true
      | None =>
          granted ← request;
          if granted : bool then
            s ← get_state;
            let fresh_entry := mkEntry (fst key) (snd key) Indeterminate 0 0 0 false in
            put_state (mkBackend
                         (Some (mkShared (<[key := fresh_entry]> (bloom_registry sh))
                                         (max_filters sh)))
                         (heap s) (grants s));;
            ret false
          else ereport ERRCODE_OUT_OF_MEMORY
      end
  end.

Definition get_bloom_filter (table_oid attnum : Z) : M pointer :=
  s ← get_state;
  match bloom_shared_state s with
  | None => ret Null
  | Some _ =>
      entry ← hash_find (table_oid, attnum);
      match entry with
      | Some e => if is_valid e then ret (filter e) else ret Null
      | None => ret Null
      end
  end.

Definition register_bloom_filter `{Libm double} (table_oid attnum : Z)
    (expected_count : Z) (false_positive_rate : double) : M bool :=
  s ← get_state;
  (match bloom_shared_state s with
   | None => init_shared_memory
   | Some _ => ret tt
   end);;
  s ← get_state;
  match bloom_shared_state s with
  | None => ret false
  | Some _ =>
      let key := (table_oid, attnum) in
      found ← hash_enter key;
      entry ← hash_find key;
      match entry with
      | None => undefined
      | Some e =>
          if found : bool then
            (match filter e with
             | Null => ret tt
             | Loc old => destroy_filter old
             | Indeterminate => undefined
             end);;
            l ← palloc_object;
            update_entry key (set_filter (Loc l));;
            construct_at l expected_count false_positive_rate;;
            update_entry key (set_metadata expected_count false_positive_rate);;
            ret true
          else
            update_entry key (fun e => mkEntry table_oid attnum (filter e)
                                               expected_count false_positive_rate 0 true);;
            l ← palloc_object;
            update_entry key (set_filter (Loc l));;
            construct_at l expected_count false_positive_rate;;
            ret true
      end
  end.

Definition unregister_bloom_filter (table_oid attnum : Z) : M unit :=
  s ← get_state;
  match bloom_shared_state s with
  | None => ret tt
  | Some sh =>
      let key := (table_oid, attnum) in
      match bloom_registry sh !! key with
      | None => ret tt
      | Some e =>
          put_state (mkBackend (Some (mkShared (delete key (bloom_registry sh)) (max_filters sh)))
                               (heap s) (grants s));;
          match filter e with
          | Null => ret tt
          | Loc l => destroy_filter l
          | Indeterminate => undefined
          end
      end
  end.

(** ** The SQL function ([octo_bloom.cpp], lines 68-102) *)

Definition InvalidAttrNumber : Z := 0.

(** [value_text] is what [DatumGetTextP] returns: the payload of the text,
    [None] for a null pointer. *)
Definition octo_bloom_might_contain `{Postgres} (table_oid : Z) (column_name : string)
    (value_text : option (list Z)) : M bool :=
  let attnum := get_attnum table_oid column_name in
  if attnum =? InvalidAttrNumber then ereport ERRCODE_UNDEFINED_COLUMN
  else
    filter ← get_bloom_filter table_oid attnum;
    match filter with
    | Null => ret true
    | Indeterminate => undefined
    | Loc l =>
        s ← get_state;
        match heap s !! l with
        | Some (Some f) =>
            if getBitArraySize f =? 0 then ret true
            else
              match value_text with
              | None => ret true
              | Some bytes =>
                  match mightContain f (Some bytes) with
                  | Some might_contain => ret might_contain
                  | None => undefined
                  end
              end
        | _ => undefined
        end
    end.

(** The header [serialize] writes. *)
Definition header_of (f : OctoBloomFilter) : list Z :=
  le_bytes 8 (expected_count_ f) ++ le_bytes 8 (bit_array_size_ f) ++
  le_bytes 8 (false_positive_rate_ f) ++ le_bytes 4 (num_hashes_ f).

(** ** The data model of the specification *)

(** The object is coherent: its integer members are in the range of their
    types, [byte_array_size_] is what the code derives from
    [bit_array_size_], and [bits_] is an allocation of that many bytes. *)
Record coherent (f : OctoBloomFilter) : Prop := mkCoherent {
  coherent_count : 0 <= expected_count_ f < 2 ^ 64;
  coherent_rate : 0 <= false_positive_rate_ f < 2 ^ 64;
  coherent_size : 0 <= bit_array_size_ f < 2 ^ 64;
  coherent_hashes : 0 <= num_hashes_ f < 2 ^ 32;
  coherent_bytes : byte_array_size_ f = wrap64 (bit_array_size_ f + 7) / 8;
  coherent_bits : Z.of_nat (length (bits_ f)) = byte_array_size_ f
}.

(** A BloomFilter of section 3 of the specification: at least 64 bits, 1 to
    50 hashes, and a buffer of [ceil(bitArraySizeBits / 8)] bytes. *)
Record valid_filter (f : OctoBloomFilter) : Prop := mkValid {
  valid_coherent : coherent f;
  valid_size : 64 <= bit_array_size_ f <= 2 ^ 64 - 8;
  valid_hashes : 1 <= num_hashes_ f <= 50
}.

(** [n] is the ceiling of [m / 8]. *)
Definition is_ceil_div8 (m n : Z) : Prop := 8 * (n - 1) < m <= 8 * n.

(** A round trip: [f] is serialized into a buffer of [getSerializedSize]
    bytes, which [deserialize] then reads into the object [target]. *)
Definition round_trip (f target f' : OctoBloomFilter) : Prop :=
  exists buffer image : list Z,
    Z.of_nat (length buffer) = getSerializedSize f /\
    serialize f buffer = Some image /\
    deserialize target image (getSerializedSize f) = Some (true, f').

(** The states a filter goes through once built. *)
Inductive reachable `{Postgres} `{Libm double} : OctoBloomFilter -> Prop :=
  | reachable_new n p f :
      0 <= n < 2 ^ 64 -> 0 <= p < 2 ^ 64 ->
      OctoBloomFilter_new n p = Some f -> reachable f
  | reachable_add f data f' :
      reachable f -> add f data = Some f' -> reachable f'
  | reachable_remove f data :
      reachable f -> reachable (fst (remove f data))
  | reachable_clear f f' :
      reachable f -> clear f = Some f' -> reachable f'
  | reachable_round_trip f target f' :
      reachable f -> round_trip f target f' -> reachable f'.

(** What may follow an [add] in the no-false-negative law: further [add]s,
    calls of [remove] and round trips. *)
Inductive evolves `{Postgres} : OctoBloomFilter -> OctoBloomFilter -> Prop :=
  | evolves_here f : evolves f f
  | evolves_add f data f' f'' :
      add f data = Some f' -> evolves f' f'' -> evolves f f''
  | evolves_remove f data f'' :
      evolves (fst (remove f data)) f'' -> evolves f f''
  | evolves_round_trip f target f' f'' :
      round_trip f target f' -> evolves f' f'' -> evolves f f''.

(** The heap once the filter behind [p] is destroyed. *)
Definition released (p : pointer) (h : gmap loc (option OctoBloomFilter))
    : gmap loc (option OctoBloomFilter) :=
  match p with
  | Loc old => delete old h
  | _ => h
  end.

(** [p] is null or the address of a live allocation. *)
Definition releasable (p : pointer) (h : gmap loc (option OctoBloomFilter)) : Prop :=
  match p with
  | Null => True
  | Loc old => is_Some (h !! old)
  | Indeterminate => False
  end.

(** Every position of [data] is set in [f]. *)
Definition covered `{Postgres} (f : OctoBloomFilter) (data : option (list Z)) : Prop :=
  Forall (fun i => test_bit (bits_ f)
                     (bit_index (bit_array_size_ f) (hash1 data) (hash2 data) i) = Some true)
         (seqZ 0 (num_hashes_ f)).

(** The formula of section 4.1 for the bit count as the specification writes
    it: the quotient, and its ceiling. *)
Definition spec_bit_estimate (expected_count : Z) (false_positive_rate : R) : R :=
  (- (IZR expected_count * ln false_positive_rate) / (ln 2) ^ 2)%R.

Definition spec_bit_array_size (expected_count : Z) (false_positive_rate : R) : Z :=
  - Int_part (- spec_bit_estimate expected_count false_positive_rate).

(** ** Sample values

    The results an x86-64 glibc returns along the computation for
    [expected_count = 4], [false_positive_rate = 0.1]; every other argument
    is mapped to [+0.0]. *)

Definition d_0_1 : double := 0x3fb999999999999a.
Definition d_2 : double := 0x4000000000000000.
Definition d_4 : double := 0x4010000000000000.
Definition d_19 : double := 0x4033000000000000.
Definition d_log_0_1 : double := 0xc0026bb1bbb55515.
Definition d_log_2 : double := 0x3fe62e42fefa39ef.

Definition sample_of_Z (z : Z) : double :=
  if z =? 2 then d_2 else if z =? 4 then d_4 else if z =? 19 then d_19 else 0.

Definition sample_log (d : double) : double :=
  if d =? d_0_1 then d_log_0_1 else if d =? d_2 then d_log_2 else 0.

Definition sample_mul (a b : double) : double :=
  if (a =? d_4) && (b =? d_log_0_1) then 0xc0226bb1bbb55515
  else if (a =? 0x4013000000000000) && (b =? d_log_2) then 0x400a56ef8ec924cc
  else 0.

Definition sample_div (a b : double) : double :=
  if (a =? 0x40226bb1bbb55515) && (b =? 0x3fdebfbdff82c58e) then 0x40332b8cc58a1684
  else if (a =? d_19) && (b =? d_4) then 0x4013000000000000
  else 0.

Definition sample_pow (a b : double) : double :=
  if (a =? d_log_2) && (b =? d_2) then 0x3fdebfbdff82c58e else 0.

Definition sample_round (d : double) : double :=
  if d =? 0x400a56ef8ec924cc then 0x4008000000000000 else 0.

Definition sample_libm : Libm double := {|
  fp_of_Z := sample_of_Z;
  fp_neg := fun d => Z.lxor d (2 ^ 63);
  fp_mul := sample_mul;
  fp_div := sample_div;
  std_log := sample_log;
  std_pow := sample_pow;
  std_round := sample_round
|}.

(** A server whose [hash_any] returns 0, which sends [hash1] to the
    fallback, and whose tables have one column. *)
Definition sample_postgres : Postgres := {|
  hash_any := fun _ => 0;
  get_attnum := fun _ _ => 1
|}.

Definition sample_filter : OctoBloomFilter :=
  mkFilter (replicate 8 0) 3 4 d_0_1 64 8.

(** The image of a filter of 128 bits and 2 hashes for 8 elements. *)
Definition other_filter : OctoBloomFilter :=
  mkFilter (replicate 16 255) 2 8 d_0_1 128 16.

Definition other_image : list Z :=
  le_bytes 8 8 ++ le_bytes 8 128 ++ le_bytes 8 d_0_1 ++ le_bytes 4 2 ++ replicate 16 255.

(** A header alone, declaring [2^64 - 1] bits. *)
Definition overflow_image : list Z :=
  le_bytes 8 1 ++ le_bytes 8 (2 ^ 64 - 1) ++ le_bytes 8 0 ++ le_bytes 4 1.

(** A backend with one registered filter, at address 2. *)
Definition sample_entry : BloomRegistryEntry :=
  mkEntry 16384 1 (Loc 2%positive) 4 d_0_1 0 true.

Definition sample_backend (gs : list bool) : backend :=
  mkBackend (Some (mkShared {[ (16384, 1) := sample_entry ]} 10))
            {[ 2%positive := Some sample_filter ]} gs.

(** ASCII "a@b". *)
Definition sample_key : list Z := [97; 64; 98].

(** ** The other SQL functions and the triggers *)

(** ** Comparisons of [double]

    [a <= b] of C++ on binary64: false when either side is a NaN, and the
    order of the values otherwise.  [double_scaled] is the value times
    [2^1074], an integer for every finite pattern; an infinity is given
    [2^2098], beyond every finite value. *)

Definition double_is_nan (d : double) : bool :=
  (double_exponent d =? 2047) && negb (double_fraction d =? 0).

Definition double_scaled (d : double) : Z :=
  let e := double_exponent d in
  let magnitude :=
    if e =? 0 then double_fraction d
    else (2 ^ 52 + double_fraction d) * 2 ^ (e - 1) in
  if double_sign d then - magnitude else magnitude.

Definition double_le (a b : double) : bool :=
  negb (double_is_nan a) && negb (double_is_nan b) && (double_scaled a <=? double_scaled b).

(** The literals [0] and [1] converted to [double]. *)
Definition DOUBLE_ZERO : double := 0.
Definition DOUBLE_ONE : double := 0x3ff0000000000000.

(** ** [octo_bloom_init] ([octo_bloom.cpp], lines 29-66) *)

(** What a SQL-callable function reports: the codes it raises itself and
    those that reach it from the registry. *)
Inductive sqlstate : Type :=
  | ERRCODE_INVALID_PARAMETER_VALUE
  | ERRCODE_INTERNAL_ERROR
  | Reported (e : errcode).

Inductive sql_outcome (A : Type) : Type :=
  | Sql_returns (a : A)
  | Sql_error (code : sqlstate)
  | Sql_undefined.
Arguments Sql_returns {A} a.
Arguments Sql_error {A} code.
Arguments Sql_undefined {A}.

(** [expected_count_arg] is the [bigint] argument, which
    [uint64_t expected_count = PG_GETARG_INT64(2)] converts. *)
Definition octo_bloom_init `{Postgres} `{Libm double} (table_oid : Z) (column_name : string)
    (expected_count_arg : Z) (false_positive_rate : double)
    : backend -> sql_outcome unit * backend :=
  fun s =>
    let expected_count := wrap64 expected_count_arg in
    if expected_count =? 0 then (Sql_error ERRCODE_INVALID_PARAMETER_VALUE, s)
    else if double_le false_positive_rate DOUBLE_ZERO || double_le DOUBLE_ONE false_positive_rate
    then (Sql_error ERRCODE_INVALID_PARAMETER_VALUE, s)
    else
      let attnum := get_attnum table_oid column_name in
      if attnum =? InvalidAttrNumber then (Sql_error (Reported ERRCODE_UNDEFINED_COLUMN), s)
      else
        match register_bloom_filter table_oid attnum expected_count false_positive_rate s with
        | (Returns true, s') => (Sql_returns tt, s')
        | (Returns false, s') => (Sql_error (Reported ERRCODE_OUT_OF_MEMORY), s')
        | (Raises e, s') => (Sql_error (Reported e), s')
        | (Undefined, s') => (Sql_undefined, s')
        end.

(** ** The row triggers ([trigger_manager.cpp]) *)

(** The [TRIGGER_FIRED_*] macros of [commands/trigger.h], each a test on
    the bits of [tg_event]. *)
Class TriggerEvent : Type := {
  TRIGGER_FIRED_FOR_ROW : Z -> bool;
  TRIGGER_FIRED_AFTER : Z -> bool;
  TRIGGER_FIRED_BY_INSERT : Z -> bool;
  TRIGGER_FIRED_BY_UPDATE : Z -> bool
}.

Module Tuple.

(** The two members of [FormData_pg_attribute] the triggers read. *)
Record Form_pg_attribute : Type := mkAttribute {
  attnum : Z;
  attisdropped : bool
}.

End Tuple.

(** A heap tuple, seen through [heap_getattr] and [DatumGetTextP]: for an
    attribute number, the payload of its text value, [None] when
    [heap_getattr] sets [isnull]. *)
Definition HeapTuple : Type := Z -> option (list Z).

Record RelationData : Type := mkRelation {
  rd_id : Z;
  rd_att : list Tuple.Form_pg_attribute
}.

(** [tg_trigtuple] and [tg_newtuple] are pointers: [None] is null. *)
Record TriggerData : Type := mkTriggerData {
  tg_event : Z;
  tg_relation : RelationData;
  tg_trigtuple : option HeapTuple;
  tg_newtuple : option HeapTuple
}.

(** What a trigger hands back: [PG_RETURN_NULL()] or
    [PG_RETURN_POINTER(tuple)]. *)
Inductive Datum : Type :=
  | DatumNull
  | DatumPointer (tuple : option HeapTuple).

(** [heap_getattr] reads through the tuple pointer. *)
Definition heap_getattr (tuple : option HeapTuple) (attnum : Z) : M (option (list Z)) :=
  match tuple with
  | None => undefined
  | Some t => ret (t attnum)
  end.

(** [filter->add(VARDATA(value_text), VARSIZE(value_text) - VARHDRSZ)] on
    the object at [l]. *)
Definition filter_add `{Postgres} (l : loc) (bytes : list Z) : M unit :=
  s ← get_state;
  match heap s !! l with
  | Some (Some f) =>
      match add f (Some bytes) with
      | Some f' =>
          put_state (mkBackend (bloom_shared_state s) (<[l := Some f']> (heap s)) (grants s))
      | None => undefined
      end
  | _ => undefined
  end.

(** [filter->remove(...)] on the object at [l]: the warning it reports. *)
Definition filter_remove (l : loc) (bytes : list Z) : M string :=
  s ← get_state;
  match heap s !! l with
  | Some (Some f) =>
      let '(f', warning) := remove f (Some bytes) in
      put_state (mkBackend (bloom_shared_state s) (<[l := Some f']> (heap s)) (grants s));;
      ret warning
  | _ => undefined
  end.

(** The loop of [octo_bloom_insert_trigger] from column [i] on. *)
Fixpoint insert_loop `{Postgres} (table_oid : Z) (newtuple : option HeapTuple) (i : Z)
    (attrs : list Tuple.Form_pg_attribute) : M unit :=
  match attrs with
  | [] => ret tt
  | attr :: rest =>
      filter ← get_bloom_filter table_oid (Tuple.attnum attr);
      (match filter with
       | Null => ret tt
       | Indeterminate => undefined
       | Loc l =>
           if Tuple.attisdropped attr then ret tt
           else
             value ← heap_getattr newtuple (i + 1);
             match value with
             | None => ret tt
             | Some bytes => filter_add l bytes
             end
       end);;
      insert_loop table_oid newtuple (i + 1) rest
  end.

Definition octo_bloom_insert_trigger `{Postgres} `{TriggerEvent} (trigdata : TriggerData)
    : M Datum :=
  if negb (TRIGGER_FIRED_FOR_ROW (tg_event trigdata))
     || negb (TRIGGER_FIRED_AFTER (tg_event trigdata))
     || negb (TRIGGER_FIRED_BY_INSERT (tg_event trigdata))
  then ret DatumNull
  else
    let tupdesc := rd_att (tg_relation trigdata) in
    let newtuple := tg_newtuple trigdata in
    let table_oid := rd_id (tg_relation trigdata) in
    insert_loop table_oid newtuple 0 tupdesc;;
    ret (DatumPointer newtuple).

(** The loop of [octo_bloom_update_trigger] from column [i] on; it hands
    back the warnings reported on the way. *)
Fixpoint update_loop `{Postgres} (table_oid : Z) (oldtuple newtuple : option HeapTuple) (i : Z)
    (attrs : list Tuple.Form_pg_attribute) : M (list string) :=
  match attrs with
  | [] => ret []
  | attr :: rest =>
      filter ← get_bloom_filter table_oid (Tuple.attnum attr);
      warnings ← (match filter with
                  | Null => ret []
                  | Indeterminate => undefined
                  | Loc l =>
                      if Tuple.attisdropped attr then ret []
                      else
                        old_value ← heap_getattr oldtuple (i + 1);
                        new_value ← heap_getattr newtuple (i + 1);
                        removed ← (match old_value with
                                   | None => ret []
                                   | Some bytes => warning ← filter_remove l bytes; ret [warning]
                                   end);
                        (match new_value with
                         | None => ret tt
                         | Some bytes => filter_add l bytes
                         end);;
                        ret removed
                  end);
      later ← update_loop table_oid oldtuple newtuple (i + 1) rest;
      ret (warnings ++ later)
  end.

Definition octo_bloom_update_trigger `{Postgres} `{TriggerEvent} (trigdata : TriggerData)
    : M (Datum * list string) :=
  if negb (TRIGGER_FIRED_FOR_ROW (tg_event trigdata))
     || negb (TRIGGER_FIRED_AFTER (tg_event trigdata))
     || negb (TRIGGER_FIRED_BY_UPDATE (tg_event trigdata))
  then ret (DatumNull, [])
  else
    let tupdesc := rd_att (tg_relation trigdata) in
    let oldtuple := tg_trigtuple trigdata in
    let newtuple := tg_newtuple trigdata in
    let table_oid := rd_id (tg_relation trigdata) in
    warnings ← update_loop table_oid oldtuple newtuple 0 tupdesc;
    ret (DatumPointer newtuple, warnings).

(** ** [octo_bloom_exists] ([octo_bloom.cpp], lines 104-156) *)

(** The catalog and SPI calls of [octo_bloom_exists]: [SPI_connect] is
    whether it returned [SPI_OK_CONNECT], [SPI_prepare] whether the plan is
    not null, [SPI_execute_plan] whether it returned [SPI_OK_SELECT]
    together with [SPI_processed]. *)
Class Spi : Type := {
  get_rel_name : Z -> option string;
  quote_identifier : string -> string;
  SPI_connect : bool;
  SPI_prepare : string -> bool;
  SPI_execute_plan : string -> option (list Z) -> bool * Z
}.

Definition exists_query `{Spi} (table_name col_name : string) : string :=
  ("SELECT 1 FROM " ++ quote_identifier table_name ++ " WHERE "
   ++ quote_identifier col_name ++ " = $1 LIMIT 1")%string.

Definition octo_bloom_exists `{Postgres} `{Spi} (table_oid : Z) (column_name : string)
    (value : option (list Z)) : backend -> sql_outcome bool * backend :=
  fun s =>
    match octo_bloom_might_contain table_oid column_name value s with
    | (Raises e, s') => (Sql_error (Reported e), s')
    | (Undefined, s') => (Sql_undefined, s')
    | (Returns false, s') => (Sql_returns false, s')
    | (Returns true, s') =>
        match get_rel_name table_oid with
        | None => (Sql_undefined, s')
        | Some table_name =>
            if negb SPI_connect then (Sql_error ERRCODE_INTERNAL_ERROR, s')
            else
              let query := exists_query table_name column_name in
              if negb (SPI_prepare query) then (Sql_error ERRCODE_INTERNAL_ERROR, s')
              else
                let '(is_select, processed) := SPI_execute_plan query value in
                (Sql_returns (is_select && (0 <? processed)), s')
        end
    end.

(** A filter [f'] has kept what [f] answers: same bit count, and every
    input [f] reports as possibly present is so reported by [f']. *)
Definition keeps_answers `{Postgres} (f f' : OctoBloomFilter) : Prop :=
  bit_array_size_ f' = bit_array_size_ f /\
  forall other, mightContain f other = Some true -> mightContain f' other = Some true.

(** ** The end of a memory context

    The filter objects are [palloc]ed in the memory context current at the
    call, which the server releases (the repository's documentation:
    "automatic cleanup on transaction end"), while the registry is in
    shared memory and stays.  [memory_context_reset] is that release as
    the backend sees it: every [palloc]ed object is gone, the registry and
    the pointers in it are as they were. *)
Definition memory_context_reset (s : backend) : backend :=
  mkBackend (bloom_shared_state s) ∅ (grants s).

(** The pointer [get_bloom_filter] hands back for a key. *)
Definition filter_of (s : backend) (table_oid attnum : Z) : pointer :=
  match registry_of s !! (table_oid, attnum) with
  | Some e => if is_valid e then filter e else Null
  | None => Null
  end.

(** Between two backends only [add]s happened: the registry and the
    grants are the same, the heap has the same allocations, and each filter
    object has kept its answers. *)
Definition only_added `{Postgres} (s s' : backend) : Prop :=
  bloom_shared_state s' = bloom_shared_state s /\
  grants s' = grants s /\
  forall l, match heap s !! l, heap s' !! l with
            | Some (Some f), Some (Some f') => keeps_answers f f'
            | x, y => x = y
            end.

(** The condition under which [octo_bloom_might_contain] returns [true]
    for a key and a value. *)
Definition answers_true `{Postgres} (s : backend) (table_oid attnum : Z)
    (value : option (list Z)) : Prop :=
  match filter_of s table_oid attnum with
  | Null => True
  | Indeterminate => False
  | Loc l =>
      exists f, heap s !! l = Some (Some f) /\
                (bit_array_size_ f = 0 \/ value = None \/ mightContain f value = Some true)
  end.

(** A column the triggers pass over: no filter, or a dropped column. *)
Definition skipped (s : backend) (table_oid : Z) (attr : Tuple.Form_pg_attribute) : Prop :=
  filter_of s table_oid (Tuple.attnum attr) = Null \/
  (exists l, filter_of s table_oid (Tuple.attnum attr) = Loc l) /\ Tuple.attisdropped attr = true.

(** The registry invariant: every entry is valid and owns a live filter
    object that is valid, and no two entries share an object. *)
Definition well_formed (s : backend) : Prop :=
  (forall key e,
      registry_of s !! key = Some e ->
      is_valid e = true /\
      exists l f, filter e = Loc l /\ heap s !! l = Some (Some f) /\ valid_filter f) /\
  (forall k1 k2 e1 e2,
      registry_of s !! k1 = Some e1 -> registry_of s !! k2 = Some e2 ->
      filter e1 = filter e2 -> k1 = k2).

(** Sample trigger events, with the bit layout of PostgreSQL's
    [commands/trigger.h]. *)
Definition sample_trigger_event : TriggerEvent := {|
  TRIGGER_FIRED_FOR_ROW := fun event => negb (Z.land event 4 =? 0);
  TRIGGER_FIRED_AFTER := fun event => Z.land event 24 =? 0;
  TRIGGER_FIRED_BY_INSERT := fun event => Z.land event 3 =? 0;
  TRIGGER_FIRED_BY_UPDATE := fun event => Z.land event 3 =? 2
|}.

Definition sample_relation : RelationData :=
  mkRelation 16384 [Tuple.mkAttribute 1 false; Tuple.mkAttribute 2 false].

Definition sample_tuple : HeapTuple :=
  fun attnum => if attnum =? 1 then Some [97; 64; 98] else None.

Definition sample_spi (found : bool) : Spi := {|
  get_rel_name := fun _ => Some "users"%string;
  quote_identifier := fun name => name;
  SPI_connect := true;
  SPI_prepare := fun _ => true;
  SPI_execute_plan := fun _ _ => (true, if found then 1 else 0)
|}.

(** The sample backend once the sample key has been added to its filter,
    and the backend a first registration leaves. *)
Definition sample_backend_added : backend :=
  mkBackend (bloom_shared_state (sample_backend []))
    (<[2%positive := Some (set_bits sample_filter [1; 0; 16; 0; 0; 1; 0; 0])]>
       (heap (sample_backend []))) [].

Definition sample_backend_registered : backend :=
  mkBackend (Some (mkShared {[ (16384, 1) := mkEntry 16384 1 (Loc 1%positive) 4 d_0_1 0 true ]} 10))
    {[ 1%positive := Some sample_filter ]} [].

(** The sample filter once the sample key is added. *)
Definition populated_filter : OctoBloomFilter :=
  set_bits sample_filter [1; 0; 16; 0; 0; 1; 0; 0].

(** What [deserialize] leaves of [sample_filter] when it refuses the first
    43 bytes of [other_image]: the header of the image on the old buffer. *)
Definition refused_filter : OctoBloomFilter :=
  mkFilter (replicate 8 0) 2 8 d_0_1 128 8.



(** * Proofs *)

(** ** The embedding on the sample values *)

Example hashes_of_empty_input :
  @doubleHash sample_postgres (Some []) = (0, 1) /\ @doubleHash sample_postgres None = (0, 1).
Proof. split; reflexivity. Qed.

Example simple_hash_of_one_byte : simple_hash [97] = 5381 * 33 + 97.
Proof. reflexivity. Qed.

Example conversions_of_doubles :
  to_size_t (0x40332b8cc58a1684 : double) = Some 19 /\
  to_size_t (0x43efffffffffffff : double) = Some (2 ^ 64 - 2048) /\
  to_size_t (0x43f0000000000000 : double) = None /\
  to_size_t (0xbff0000000000000 : double) = None /\
  to_size_t (0xbfe0000000000000 : double) = Some 0 /\
  to_size_t (0x7ff8000000000000 : double) = None /\
  to_uint32_t (0x41f0000000000000 : double) = None.
Proof. repeat split; reflexivity. Qed.

Example constructor_on_sample :
  @OctoBloomFilter_new sample_libm 4 d_0_1 = Some sample_filter.
Proof. reflexivity. Qed.

Example add_on_sample :
  @add sample_postgres sample_filter (Some sample_key)
  = Some (set_bits sample_filter [1; 0; 16; 0; 0; 1; 0; 0]) /\
  @add sample_postgres sample_filter (Some [])
  = Some (set_bits sample_filter [7; 0; 0; 0; 0; 0; 0; 0]).
Proof. split; reflexivity. Qed.

Example serialize_on_sample :
  serialize sample_filter (replicate 36 170)
  = Some ([4; 0; 0; 0; 0; 0; 0; 0] ++ [64; 0; 0; 0; 0; 0; 0; 0] ++
          [154; 153; 153; 153; 153; 153; 185; 63] ++ [3; 0; 0; 0] ++ replicate 8 0).
Proof. reflexivity. Qed.

(** A buffer cut after its header fails the second check, after the
    members were assigned. *)
Example deserialize_short_payload :
  deserialize sample_filter (take 28 other_image) 28
  = Some (false, mkFilter (replicate 8 0) 2 8 d_0_1 128 8).
Proof. reflexivity. Qed.

Example register_on_empty_backend :
  @register_bloom_filter sample_libm 16384 1 4 d_0_1 (mkBackend None ∅ [])
  = (Returns true,
     mkBackend (Some (mkShared {[ (16384, 1) := mkEntry 16384 1 (Loc 1%positive) 4 d_0_1 0 true ]} 10))
               {[ 1%positive := Some sample_filter ]} []).
Proof. reflexivity. Qed.

(** ** Bits *)

Lemma bit_mask_pos index : 0 < bit_mask index.
Proof.
  unfold bit_mask. rewrite Z.shiftl_1_l.
  apply Z.pow_pos_nonneg; [lia | apply Z.mod_pos_bound; lia].
Qed.

Lemma land_lor_mask b mask : Z.land (Z.lor b mask) mask = mask.
Proof.
  apply Z.bits_inj'. intros n _. rewrite Z.land_spec, Z.lor_spec.
  destruct (Z.testbit b n), (Z.testbit mask n); reflexivity.
Qed.

Lemma land_lor_keeps b mask mask' :
  Z.land b mask' <> 0 -> Z.land (Z.lor b mask) mask' <> 0.
Proof.
  intros Hb Hz. rewrite Z.land_lor_distr_l in Hz.
  apply Z.lor_eq_0_iff in Hz. tauto.
Qed.

Lemma set_bit_length bits index bits' :
  set_bit bits index = Some bits' -> length bits' = length bits.
Proof.
  unfold set_bit. destruct (bits !! _); [|discriminate].
  intros [= <-]. apply length_insert.
Qed.

Lemma set_bit_is_Some bits index :
  0 <= index < 8 * Z.of_nat (length bits) -> is_Some (set_bit bits index).
Proof.
  intros Hr. unfold set_bit.
  destruct (lookup_lt_is_Some_2 bits (Z.to_nat (index / 8))) as [b ->]; [|eauto].
  assert (index / 8 < Z.of_nat (length bits)) by (apply Z.div_lt_upper_bound; lia).
  assert (0 <= index / 8) by (apply Z.div_pos; lia). lia.
Qed.

Lemma set_bit_sets bits index bits' :
  set_bit bits index = Some bits' -> test_bit bits' index = Some true.
Proof.
  unfold set_bit, test_bit.
  destruct (bits !! Z.to_nat (index / 8)) as [b|] eqn:Hb; [|discriminate].
  intros [= <-]. apply lookup_lt_Some in Hb.
  rewrite list_lookup_insert_eq by exact Hb.
  rewrite land_lor_mask. pose proof (bit_mask_pos index).
  destruct (Z.eqb_spec (bit_mask index) 0); [lia | reflexivity].
Qed.

Lemma set_bit_keeps bits index bits' other :
  set_bit bits index = Some bits' ->
  test_bit bits other = Some true -> test_bit bits' other = Some true.
Proof.
  unfold set_bit, test_bit.
  destruct (bits !! Z.to_nat (index / 8)) as [b|] eqn:Hb; [|discriminate].
  intros [= <-].
  destruct (decide (Z.to_nat (index / 8) = Z.to_nat (other / 8))) as [He|Hne].
  - rewrite <- He, Hb. apply lookup_lt_Some in Hb.
    rewrite list_lookup_insert_eq by exact Hb.
    intros [= Hset]. f_equal.
    destruct (Z.eqb_spec (Z.land b (bit_mask other)) 0); [discriminate|].
    destruct (Z.eqb_spec (Z.land (Z.lor b (bit_mask index)) (bit_mask other)) 0) as [Hz|];
      [|reflexivity].
    exfalso. revert Hz. now apply land_lor_keeps.
  - now rewrite list_lookup_insert_ne.
Qed.

(** ** The loops of [add] and [mightContain] *)

Section Loops.
Context `{Postgres}.

Lemma add_loop_length js : forall bits m h1 h2 bits',
  add_loop bits m h1 h2 js = Some bits' -> length bits' = length bits.
Proof.
  induction js as [|i js IH]; simpl; intros bits m h1 h2 bits'.
  - now intros [= <-].
  - destruct (m =? 0); [discriminate|].
    destruct (set_bit bits _) as [b1|] eqn:Hs; [|discriminate].
    intros Hl. rewrite (IH _ _ _ _ _ Hl). eapply set_bit_length; eauto.
Qed.

Lemma add_loop_keeps js : forall bits m h1 h2 bits' other,
  add_loop bits m h1 h2 js = Some bits' ->
  test_bit bits other = Some true -> test_bit bits' other = Some true.
Proof.
  induction js as [|i js IH]; simpl; intros bits m h1 h2 bits' other.
  - now intros [= <-].
  - destruct (m =? 0); [discriminate|].
    destruct (set_bit bits _) as [b1|] eqn:Hs; [|discriminate].
    intros Hl Ht. eapply IH; [exact Hl|]. eapply set_bit_keeps; eauto.
Qed.

Lemma add_loop_sets js : forall bits m h1 h2 bits',
  add_loop bits m h1 h2 js = Some bits' ->
  Forall (fun i => test_bit bits' (bit_index m h1 h2 i) = Some true) js.
Proof.
  induction js as [|i js IH]; simpl; intros bits m h1 h2 bits'.
  - constructor.
  - destruct (m =? 0); [discriminate|].
    destruct (set_bit bits _) as [b1|] eqn:Hs; [|discriminate].
    intros Hl. constructor.
    + eapply add_loop_keeps; [exact Hl|]. eapply set_bit_sets; eauto.
    + eapply IH; eauto.
Qed.

Lemma bit_index_range m h1 h2 i : 0 < m -> 0 <= bit_index m h1 h2 i < m.
Proof. intros. unfold bit_index. apply Z.mod_pos_bound. lia. Qed.

Lemma add_loop_is_Some js : forall bits m h1 h2,
  0 < m -> m <= 8 * Z.of_nat (length bits) ->
  is_Some (add_loop bits m h1 h2 js).
Proof.
  induction js as [|i js IH]; simpl; intros bits m h1 h2 Hm Hlen.
  - eauto.
  - destruct (Z.eqb_spec m 0); [lia|].
    pose proof (bit_index_range m h1 h2 i Hm).
    destruct (set_bit_is_Some bits (bit_index m h1 h2 i)) as [b1 Hs]; [lia|].
    rewrite Hs. apply IH; [lia|]. now rewrite (set_bit_length _ _ _ Hs).
Qed.

Lemma mightContain_loop_true js : forall bits m h1 h2,
  m <> 0 ->
  Forall (fun i => test_bit bits (bit_index m h1 h2 i) = Some true) js ->
  mightContain_loop bits m h1 h2 js = Some true.
Proof.
  induction js as [|i js IH]; simpl; intros bits m h1 h2 Hm Hall.
  - reflexivity.
  - destruct (Z.eqb_spec m 0); [lia|].
    inversion Hall as [|? ? Hi Hrest]; subst. rewrite Hi. now apply IH.
Qed.

Lemma add_covers f data f' : add f data = Some f' -> covered f' data.
Proof.
  unfold add, covered, doubleHash.
  destruct (add_loop _ _ _ _ _) as [bits'|] eqn:Hl; [|discriminate].
  intros [= <-]. simpl. eapply add_loop_sets; eauto.
Qed.

Lemma add_keeps_covered f data f' other :
  add f data = Some f' -> covered f other -> covered f' other.
Proof.
  unfold add, covered, doubleHash.
  destruct (add_loop _ _ _ _ _) as [bits'|] eqn:Hl; [|discriminate].
  intros [= <-] Hc. simpl. eapply Forall_impl; [exact Hc|].
  intros i. simpl. eapply add_loop_keeps; eauto.
Qed.

Lemma covered_mightContain f data :
  bit_array_size_ f <> 0 -> covered f data -> mightContain f data = Some true.
Proof.
  intros Hm Hc. unfold mightContain, doubleHash. now apply mightContain_loop_true.
Qed.

Lemma add_is_Some f data : valid_filter f -> is_Some (add f data).
Proof.
  intros [[] ? ?]. unfold add, doubleHash.
  destruct (add_loop_is_Some (seqZ 0 (num_hashes_ f)) (bits_ f) (bit_array_size_ f)
              (hash1 data) (hash2 data)) as [b ->]; [lia| |eauto].
  rewrite coherent_bits0, coherent_bytes0. unfold wrap64.
  rewrite Z.mod_small by lia.
  pose proof (Z.mul_div_le (bit_array_size_ f + 7) 8).
  pose proof (Z.mod_pos_bound (bit_array_size_ f + 7) 8).
  pose proof (Z.div_mod (bit_array_size_ f + 7) 8). lia.
Qed.

End Loops.

(** ** Serialization *)

Lemma le_bytes_length n : forall v, length (le_bytes n v) = n.
Proof. induction n as [|n IH]; simpl; intros v; [reflexivity | now rewrite IH]. Qed.

Lemma le_value_le_bytes n : forall v, le_value (le_bytes n v) = v mod 256 ^ Z.of_nat n.
Proof.
  induction n as [|n IH]; intros v.
  - simpl. now rewrite Z.mod_1_r.
  - cbn [le_bytes le_value]. rewrite IH, Nat2Z.inj_succ, Z.pow_succ_r by lia.
    rewrite (Z.rem_mul_r v 256 (256 ^ Z.of_nat n)); [lia | lia |].
    apply Z.pow_pos_nonneg; lia.
Qed.

Lemma le_value_le_bytes_8 v : 0 <= v < 2 ^ 64 -> le_value (le_bytes 8 v) = v.
Proof. intros Hv. rewrite le_value_le_bytes. apply Z.mod_small. simpl. lia. Qed.

Lemma le_value_le_bytes_4 v : 0 <= v < 2 ^ 32 -> le_value (le_bytes 4 v) = v.
Proof. intros Hv. rewrite le_value_le_bytes. apply Z.mod_small. simpl. lia. Qed.

Lemma split_at (n : nat) (l : list Z) :
  (n <= length l)%nat -> exists a b, l = a ++ b /\ length a = n.
Proof.
  intros Hn. exists (take n l), (drop n l). split.
  - symmetry. apply take_drop.
  - rewrite length_take. lia.
Qed.

Lemma write_at_app off pre old post src :
  length pre = off -> length old = length src ->
  write_at off src (pre ++ old ++ post) = Some (pre ++ src ++ post).
Proof.
  intros Hp Ho. unfold write_at. rewrite !length_app.
  destruct (Nat.leb_spec (off + length src) (length pre + (length old + length post)));
    [|lia].
  f_equal. subst off. rewrite take_app_length. f_equal. f_equal.
  rewrite <- Ho, <- length_app, app_assoc. apply drop_app_length.
Qed.

Lemma read_at_app off n pre mid post :
  length pre = off -> length mid = n ->
  read_at off n (pre ++ mid ++ post) = Some mid.
Proof.
  intros Hp Hm. unfold read_at. rewrite !length_app.
  destruct (Nat.leb_spec (off + n) (length pre + (length mid + length post))); [|lia].
  f_equal. subst off n. rewrite drop_app_length. apply take_app_length.
Qed.

Lemma write_at_0 old post src :
  length old = length src -> write_at 0 src (old ++ post) = Some (src ++ post).
Proof. intros Ho. now apply (write_at_app 0 [] old post src). Qed.

Lemma read_at_0 n mid post :
  length mid = n -> read_at 0 n (mid ++ post) = Some mid.
Proof. intros Hm. now apply (read_at_app 0 n [] mid post). Qed.

Lemma read_at_is_Some off n buf :
  (off + n <= length buf)%nat -> is_Some (read_at off n buf).
Proof.
  intros Hl. unfold read_at.
  destruct (Nat.leb_spec (off + n) (length buf)); [eauto | lia].
Qed.

Lemma read_at_take off n size buf :
  (off + n <= size)%nat -> read_at off n (take size buf) = read_at off n buf.
Proof.
  intros Hl. unfold read_at. rewrite length_take.
  destruct (Nat.leb_spec (off + n) (length buf)),
           (Nat.leb_spec (off + n) (size `min` length buf)); try lia; [|reflexivity].
  f_equal. rewrite skipn_firstn_comm. rewrite take_take. f_equal. lia.
Qed.

Lemma wrap64_range z : 0 <= wrap64 z < 2 ^ 64.
Proof. unfold wrap64. apply Z.mod_pos_bound. lia. Qed.

Lemma byte_count_range m : 0 <= wrap64 (m + 7) / 8 < 2 ^ 61.
Proof.
  pose proof (wrap64_range (m + 7)). split.
  - apply Z.div_pos; lia.
  - apply Z.div_lt_upper_bound; lia.
Qed.

Lemma getSerializedSize_eq f :
  getSerializedSize f = HEADER_SIZE + wrap64 (bit_array_size_ f + 7) / 8.
Proof.
  unfold getSerializedSize, HEADER_SIZE.
  pose proof (byte_count_range (bit_array_size_ f)).
  unfold wrap64 at 1. apply Z.mod_small. lia.
Qed.

Lemma serialize_image f buffer :
  coherent f ->
  Z.of_nat (length buffer) = getSerializedSize f ->
  serialize f buffer = Some (header_of f ++ bits_ f).
Proof.
  intros [] Hlen. rewrite getSerializedSize_eq in Hlen. unfold HEADER_SIZE in Hlen.
  rewrite <- coherent_bytes0, <- coherent_bits0 in Hlen.
  destruct (split_at 8 buffer) as (s1 & r1 & -> & L1); [lia|].
  rewrite length_app in Hlen.
  destruct (split_at 8 r1) as (s2 & r2 & -> & L2); [lia|].
  rewrite length_app in Hlen.
  destruct (split_at 8 r2) as (s3 & r3 & -> & L3); [lia|].
  rewrite length_app in Hlen.
  destruct (split_at 4 r3) as (s4 & r4 & -> & L4); [lia|].
  rewrite length_app in Hlen.
  unfold serialize, header_of.
  rewrite (write_at_0 s1 _ (le_bytes 8 (expected_count_ f)))
    by (rewrite ?le_bytes_length; auto).
  cbn [mbind option_bind].
  rewrite (write_at_app 8 _ s2 _ (le_bytes 8 (bit_array_size_ f)))
    by (rewrite ?le_bytes_length; auto).
  cbn [mbind option_bind].
  rewrite (app_assoc (le_bytes 8 (expected_count_ f))).
  rewrite (write_at_app 16 _ s3 _ (le_bytes 8 (false_positive_rate_ f)))
    by (rewrite ?length_app, ?le_bytes_length; auto).
  cbn [mbind option_bind].
  rewrite (app_assoc (_ ++ _)).
  rewrite (write_at_app 24 _ s4 _ (le_bytes 4 (num_hashes_ f)))
    by (rewrite ?length_app, ?le_bytes_length; auto).
  cbn [mbind option_bind].
  replace (read_at 0 (Z.to_nat (byte_array_size_ f)) (bits_ f)) with (Some (bits_ f)).
  2:{ symmetry. rewrite <- (app_nil_r (bits_ f)) at 1.
      apply (read_at_0 _ (bits_ f) []). lia. }
  cbn [mbind option_bind].
  rewrite (app_assoc (_ ++ _)).
  rewrite <- (app_nil_r r4) at 1.
  rewrite (write_at_app 28 _ r4 [] (bits_ f))
    by (rewrite ?length_app, ?le_bytes_length; lia).
  f_equal. rewrite app_nil_r, <- !app_assoc. reflexivity.
Qed.

Lemma deserialize_image target f :
  coherent f ->
  deserialize target (header_of f ++ bits_ f) (getSerializedSize f) = Some (true, f).
Proof.
  intros []. pose proof (byte_count_range (bit_array_size_ f)) as Hb.
  unfold deserialize. rewrite getSerializedSize_eq.
  destruct (Z.ltb_spec (HEADER_SIZE + wrap64 (bit_array_size_ f + 7) / 8) HEADER_SIZE);
    [lia|].
  unfold header_of. rewrite <- !app_assoc.
  rewrite (read_at_0 8 _ _) by (rewrite ?le_bytes_length; auto).
  cbn [mbind option_bind].
  rewrite (read_at_app 8 8 (le_bytes 8 (expected_count_ f)) _ _)
    by (rewrite ?le_bytes_length; auto).
  cbn [mbind option_bind].
  rewrite (app_assoc (le_bytes 8 (expected_count_ f))).
  rewrite (read_at_app 16 8 _ _ _) by (rewrite ?length_app, ?le_bytes_length; auto).
  cbn [mbind option_bind].
  rewrite (app_assoc (_ ++ _)).
  rewrite (read_at_app 24 4 _ _ _) by (rewrite ?length_app, ?le_bytes_length; auto).
  cbn [mbind option_bind].
  cbn [bit_array_size_ num_hashes_ expected_count_ false_positive_rate_].
  rewrite !le_value_le_bytes_8, le_value_le_bytes_4 by assumption.
  change (wrap64 (HEADER_SIZE + wrap64 (bit_array_size_ f + 7) / 8))
    with (getSerializedSize f).
  rewrite getSerializedSize_eq.
  destruct (Z.ltb_spec (HEADER_SIZE + wrap64 (bit_array_size_ f + 7) / 8)
                       (HEADER_SIZE + wrap64 (bit_array_size_ f + 7) / 8)); [lia|].
  rewrite (app_assoc (_ ++ _)).
  rewrite <- (app_nil_r (bits_ f)) at 1.
  rewrite (read_at_app 28 _ _ (bits_ f) [])
    by (rewrite ?length_app, ?le_bytes_length; auto; lia).
  cbn [mbind option_bind]. rewrite <- coherent_bytes0.
  destruct f; reflexivity.
Qed.

Lemma round_trip_same f target f' : coherent f -> round_trip f target f' -> f' = f.
Proof.
  intros Hc (buffer & image & Hlen & Hs & Hd).
  rewrite (serialize_image f buffer Hc Hlen) in Hs.
  assert (image = header_of f ++ bits_ f) as -> by congruence.
  rewrite (deserialize_image target f Hc) in Hd. congruence.
Qed.

(** ** Conversions from [double] *)

Lemma double_to_unsigned_inv w d z :
  double_to_unsigned w d = Some z -> double_trunc d = Some z /\ 0 <= z < 2 ^ w.
Proof.
  unfold double_to_unsigned. destruct (double_trunc d) as [t|]; [|discriminate].
  destruct (Z.leb_spec 0 t), (Z.ltb_spec t (2 ^ w)); simpl; try discriminate.
  intros [= <-]. split; [reflexivity | lia].
Qed.

Lemma double_to_unsigned_range w d z :
  double_to_unsigned w d = Some z -> 0 <= z < 2 ^ w.
Proof. intros Hc. now apply double_to_unsigned_inv in Hc. Qed.

(** A binary64 value below [2^64] is a multiple of [2^11] once it passes
    [2^63]: the largest [size_t] a conversion yields is [2^64 - 2048]. *)
Lemma double_to_size_t_granular d z :
  double_to_unsigned 64 d = Some z -> z <= 2 ^ 64 - 2048.
Proof.
  intros Hc. apply double_to_unsigned_inv in Hc as [Ht Hr].
  revert Ht. unfold double_trunc.
  set (e := double_exponent d). set (m := double_fraction d).
  assert (0 <= m < 2 ^ 52) as Hm by (apply Z.mod_pos_bound; lia).
  destruct (e =? 2047); [discriminate|].
  destruct (Z.eqb_spec e 0) as [He0|He0].
  { destruct (double_sign d); intros [= <-]; lia. }
  destruct (Z.leb_spec 1075 e) as [Hbig|Hsmall].
  - set (k := e - 1075) in *.
    assert (0 < 2 ^ k) by (apply Z.pow_pos_nonneg; lia).
    destruct (double_sign d); intros [= <-]; [nia|].
    assert (k < 12) as Hk.
    { destruct (Z.lt_ge_cases k 12) as [|Hge]; [assumption|exfalso].
      assert (2 ^ 12 <= 2 ^ k) by (apply Z.pow_le_mono_r; lia).
      assert (2 ^ 52 * 2 ^ 12 <= (2 ^ 52 + m) * 2 ^ k) by (apply Z.mul_le_mono_nonneg; lia).
      lia. }
    assert (k = 0 \/ k = 1 \/ k = 2 \/ k = 3 \/ k = 4 \/ k = 5 \/ k = 6 \/ k = 7 \/
            k = 8 \/ k = 9 \/ k = 10 \/ k = 11) as Hcases by lia.
    clearbody k. clear Hr H.
    repeat (destruct Hcases as [->|Hcases]); try subst k; lia.
  - assert (0 < 2 ^ (1075 - e)) by (apply Z.pow_pos_nonneg; lia).
    assert (0 <= (2 ^ 52 + m) / 2 ^ (1075 - e) <= 2 ^ 52 + m).
    { split; [apply Z.div_pos; lia|]. apply Z.div_le_upper_bound; [lia|]. nia. }
    destruct (double_sign d); intros [= <-]; lia.
Qed.

(** ** The constructor *)

Section Constructor.
Context `{Libm double}.

Lemma derive_parameters_range n p m k :
  derive_parameters n p = Some (m, k) ->
  64 <= m <= 2 ^ 64 - 2048 /\ 1 <= k <= 50.
Proof.
  unfold derive_parameters, optimal_bit_array_size, optimal_num_hashes. simpl.
  destruct (double_to_unsigned 64 _) as [m0|] eqn:Hm; [|discriminate].
  destruct (double_to_unsigned 32 _) as [k0|] eqn:Hk; [|discriminate].
  intros [= <- <-]. apply double_to_size_t_granular in Hm. lia.
Qed.

Lemma ceil_bytes m :
  0 <= m <= 2 ^ 64 - 8 ->
  wrap64 (m + 7) / 8 = (m + 7) / 8 /\ is_ceil_div8 m ((m + 7) / 8).
Proof.
  intros Hm. unfold wrap64, is_ceil_div8. rewrite Z.mod_small by lia.
  pose proof (Z.div_mod (m + 7) 8). pose proof (Z.mod_pos_bound (m + 7) 8). lia.
Qed.

Lemma OctoBloomFilter_new_fields n p f :
  OctoBloomFilter_new n p = Some f ->
  exists m k,
    derive_parameters n p = Some (m, k) /\
    f = mkFilter (replicate (Z.to_nat (wrap64 (m + 7) / 8)) 0) k n p m (wrap64 (m + 7) / 8).
Proof.
  unfold OctoBloomFilter_new.
  destruct (derive_parameters n p) as [[m k]|]; [|discriminate].
  intros [= <-]. eauto.
Qed.

Lemma OctoBloomFilter_new_valid n p f :
  0 <= n < 2 ^ 64 -> 0 <= p < 2 ^ 64 ->
  OctoBloomFilter_new n p = Some f -> valid_filter f.
Proof.
  intros Hn Hp Hnew.
  destruct (OctoBloomFilter_new_fields _ _ _ Hnew) as (m & k & Hd & ->).
  apply derive_parameters_range in Hd.
  pose proof (byte_count_range m).
  repeat split; simpl; try lia.
  rewrite length_replicate. lia.
Qed.

End Constructor.

(** ** The invariant along the life of a filter *)

Section Invariant.
Context `{Postgres}.

Lemma add_fields f data f' :
  add f data = Some f' ->
  exists bits', f' = set_bits f bits' /\ length bits' = length (bits_ f).
Proof.
  unfold add, doubleHash.
  destruct (add_loop _ _ _ _ _) as [bits'|] eqn:Hl; [|discriminate].
  intros [= <-]. exists bits'. split; [reflexivity|]. eapply add_loop_length; eauto.
Qed.

Lemma add_valid f data f' : valid_filter f -> add f data = Some f' -> valid_filter f'.
Proof.
  intros [[] ? ?] Ha. destruct (add_fields _ _ _ Ha) as (bits' & -> & Hlen).
  repeat split; simpl; try lia.
Qed.

Lemma clear_fields f f' :
  clear f = Some f' ->
  exists bits', f' = set_bits f bits' /\ length bits' = length (bits_ f) /\
    (Z.of_nat (length (bits_ f)) = byte_array_size_ f ->
     bits' = replicate (length (bits_ f)) 0).
Proof.
  unfold clear.
  destruct (Nat.leb_spec (Z.to_nat (byte_array_size_ f)) (length (bits_ f))); [|discriminate].
  intros [= <-]. eexists. split; [reflexivity|]. split.
  - rewrite length_app, length_replicate, length_drop. lia.
  - intros Hl. replace (Z.to_nat (byte_array_size_ f)) with (length (bits_ f)) by lia.
    rewrite drop_all. apply app_nil_r.
Qed.

Lemma clear_valid f f' : valid_filter f -> clear f = Some f' -> valid_filter f'.
Proof.
  intros [[] ? ?] Hc. destruct (clear_fields _ _ Hc) as (bits' & -> & Hlen & _).
  repeat split; simpl; try lia.
Qed.


Lemma reachable_valid `{Libm double} f : reachable f -> valid_filter f.
Proof.
  induction 1 as [n p f Hn Hp Hnew | f data f' _ IH Ha | f data _ IH
                  | f f' _ IH Hc | f target f' _ IH Hrt].
  - exact (OctoBloomFilter_new_valid n p f Hn Hp Hnew).
  - eapply add_valid; eauto.
  - exact IH.
  - eapply clear_valid; eauto.
  - rewrite (round_trip_same f target f'); [exact IH | apply IH | exact Hrt].
Qed.


Lemma evolves_keeps f f' data :
  evolves f f' -> valid_filter f -> covered f data ->
  valid_filter f' /\ covered f' data.
Proof.
  induction 1 as [f | f other f' f'' Ha _ IH | f other f'' _ IH
                  | f target f' f'' Hrt _ IH]; intros Hv Hc.
  - split; assumption.
  - apply IH; [eapply add_valid | eapply add_keeps_covered]; eauto.
  - now apply IH.
  - rewrite (round_trip_same f target f') in IH; [auto | apply Hv | exact Hrt].
Qed.

End Invariant.

(** ** No false negatives *)

(** C1.  In every state [f] that a filter reaches, [add f x] is defined for
    every byte sequence [x] (empty and null included), and [mightContain x]
    returns [true] in the state the [add] leaves and in every state that
    follows it through further [add]s of any values and through round trips
    of [serialize] and [deserialize]. *)
Theorem no_false_negatives `{Postgres} `{Libm double}
    (f : OctoBloomFilter) (x : option (list Z)) :
  reachable f ->
  exists f1, add f x = Some f1 /\
    forall f2, evolves f1 f2 -> mightContain f2 x = Some true.
Proof.
  intros Hr. apply reachable_valid in Hr.
  destruct (add_is_Some f x Hr) as [f1 Ha]. exists f1. split; [exact Ha|].
  intros f2 He.
  destruct (evolves_keeps f1 f2 x He) as [Hv Hc].
  - eapply add_valid; eauto.
  - eapply add_covers; eauto.
  - apply covered_mightContain; [|exact Hc]. destruct Hv. lia.
Qed.

Lemma sample_filter_reachable : @reachable sample_postgres sample_libm sample_filter.
Proof.
  apply (@reachable_new sample_postgres sample_libm 4 d_0_1 sample_filter).
  - unfold d_0_1. lia.
  - unfold d_0_1. lia.
  - reflexivity.
Defined.

Lemma no_false_negatives_witness :
  exists f1, @add sample_postgres sample_filter (Some sample_key) = Some f1 /\
    forall f2, @evolves sample_postgres f1 f2 ->
               @mightContain sample_postgres f2 (Some sample_key) = Some true.
Proof.
  apply (@no_false_negatives sample_postgres sample_libm sample_filter (Some sample_key)).
  exact sample_filter_reachable.
Defined.

(** ** Round trip *)

(** C2, as the code has it.  For a coherent filter [f] (every filter the
    constructor builds and every one left by [add], [remove], [clear] or an
    accepted image is coherent) and a buffer of [getSerializedSize f] bytes,
    [serialize] fills the buffer and [deserialize], given that buffer and
    that size, returns [true] and leaves an object with the same
    [expected_count_], [bit_array_size_], [num_hashes_],
    [false_positive_rate_] and bit buffer, which therefore answers
    [mightContain] as [f] does on every input. *)
Theorem serialize_deserialize_round_trip `{Postgres}
    (f target : OctoBloomFilter) (buffer : list Z) :
  coherent f ->
  Z.of_nat (length buffer) = getSerializedSize f ->
  exists image f',
    serialize f buffer = Some image /\
    deserialize target image (getSerializedSize f) = Some (true, f') /\
    expected_count_ f' = expected_count_ f /\
    bit_array_size_ f' = bit_array_size_ f /\
    num_hashes_ f' = num_hashes_ f /\
    false_positive_rate_ f' = false_positive_rate_ f /\
    bits_ f' = bits_ f /\
    forall data, mightContain f' data = mightContain f data.
Proof.
  intros Hc Hlen. exists (header_of f ++ bits_ f), f.
  split; [now apply serialize_image|].
  split; [now apply deserialize_image|].
  repeat split; reflexivity.
Qed.

Lemma sample_filter_valid : valid_filter sample_filter.
Proof.
  repeat split; simpl; unfold d_0_1; try lia; reflexivity.
Defined.

Lemma populated_filter_valid : valid_filter populated_filter.
Proof.
  repeat split; simpl; unfold d_0_1; try lia; reflexivity.
Defined.

Lemma serialize_deserialize_round_trip_witness :
  exists image f',
    serialize populated_filter (replicate 36 170) = Some image /\
    deserialize other_filter image (getSerializedSize populated_filter) = Some (true, f') /\
    expected_count_ f' = expected_count_ populated_filter /\
    bit_array_size_ f' = bit_array_size_ populated_filter /\
    num_hashes_ f' = num_hashes_ populated_filter /\
    false_positive_rate_ f' = false_positive_rate_ populated_filter /\
    bits_ f' = bits_ populated_filter /\
    forall data, @mightContain sample_postgres f' data
                 = @mightContain sample_postgres populated_filter data.
Proof.
  apply (@serialize_deserialize_round_trip sample_postgres populated_filter other_filter
           (replicate 36 170)).
  - exact (valid_coherent _ populated_filter_valid).
  - reflexivity.
Defined.

(** C2 as stated fails on an object the code itself leaves.  [deserialize]
    on the valid 64-bit [sample_filter], given the first 43 bytes of the
    image of a 128-bit filter, returns [false] after it has stored the
    header: the object declares 128 bits over the old 8-byte buffer.  Its
    [serialize] copies those 8 bytes into a buffer of
    [getSerializedSize = 44] bytes and leaves the last 8 as they were, and
    [deserialize] of that buffer returns [true] with a bit buffer of 16
    bytes, not the 8 of the object serialized. *)
Lemma round_trip_of_refused_image :
  ~ (forall (f0 f target : OctoBloomFilter) (bytes buffer : list Z) (size : Z) (ok : bool),
        valid_filter f0 ->
        deserialize f0 bytes size = Some (ok, f) ->
        Z.of_nat (length buffer) = getSerializedSize f ->
        exists image f',
          serialize f buffer = Some image /\
          deserialize target image (getSerializedSize f) = Some (true, f') /\
          bits_ f' = bits_ f).
Proof.
  intros Hclaim.
  destruct (Hclaim sample_filter refused_filter sample_filter other_image
              (replicate 44 170) 43 false sample_filter_valid)
    as (image & f' & Hs & Hd & Hbits); [reflexivity | reflexivity |].
  vm_compute in Hs. injection Hs as <-.
  vm_compute in Hd. injection Hd as <-.
  discriminate Hbits.
Qed.

(** ** Parameter bounds *)



(** ** An empty filter *)

Lemma test_bit_zeros (n : nat) index :
  0 <= index < 8 * Z.of_nat n -> test_bit (replicate n 0) index = Some false.
Proof.
  intros Hr. unfold test_bit.
  assert (0 <= index / 8 < Z.of_nat n) as Hq.
  { split; [apply Z.div_pos; lia | apply Z.div_lt_upper_bound; lia]. }
  rewrite lookup_replicate_2 by lia. reflexivity.
Qed.

Lemma mightContain_zeros `{Postgres} (f : OctoBloomFilter) (data : option (list Z)) :
  valid_filter f -> bits_ f = replicate (length (bits_ f)) 0 ->
  mightContain f data = Some false.
Proof.
  intros [[] ? ?] Hz. unfold mightContain, doubleHash.
  rewrite (seqZ_cons 0 (num_hashes_ f)) by lia. simpl.
  destruct (Z.eqb_spec (bit_array_size_ f) 0); [lia|].
  pose proof (bit_index_range (bit_array_size_ f) (hash1 data) (hash2 data) 0) as Hi.
  rewrite Hz, test_bit_zeros; [reflexivity|].
  destruct (ceil_bytes (bit_array_size_ f)) as [Hw Hceil]; [lia|].
  unfold is_ceil_div8 in Hceil. rewrite coherent_bits0, coherent_bytes0, Hw. lia.
Qed.




(** ** The bit-array size over the life of an object *)



(** C5 as stated fails: [deserialize] on a valid filter of 64 bits, given the
    44-byte image of a filter of 128 bits, returns [true] and leaves
    [bit_array_size_ = 128]. *)
Lemma deserialize_replaces_bit_array_size :
  ~ (forall f buffer size ok f',
        valid_filter f ->
        deserialize f buffer size = Some (ok, f') ->
        bit_array_size_ f' = bit_array_size_ f /\ 64 <= bit_array_size_ f').
Proof.
  intros Hclaim.
  destruct (Hclaim sample_filter other_image 44 true other_filter sample_filter_valid)
    as [Hsame _].
  - reflexivity.
  - discriminate Hsame.
Qed.


(** ** The checks of [deserialize] *)

(** With [size] bytes behind [buffer], [deserialize] returns, reads nothing
    past [size], and returns [false] exactly when [size] is below the
    header or below the header plus the byte count it derives, in 64 bits,
    from the declared bit count. *)
Lemma deserialize_size_checks f buffer size :
  0 <= size <= Z.of_nat (length buffer) ->
  exists ok f',
    deserialize f buffer size = Some (ok, f') /\
    deserialize f (take (Z.to_nat size) buffer) size = Some (ok, f') /\
    (size < HEADER_SIZE -> ok = false) /\
    (HEADER_SIZE <= size ->
     exists bytes, read_at 8 8 buffer = Some bytes /\
       (ok = false <-> size < HEADER_SIZE + wrap64 (le_value bytes + 7) / 8)).
Proof.
  intros Hsize. unfold deserialize, HEADER_SIZE in *.
  destruct (Z.ltb_spec size (8 * 3 + 4)) as [Hlt|Hge].
  { exists false, f. repeat split; auto. intros; lia. }
  rewrite !read_at_take by lia.
  destruct (read_at_is_Some 0 8 buffer) as [ec ->]; [lia|].
  destruct (read_at_is_Some 8 8 buffer) as [bas ->]; [lia|].
  destruct (read_at_is_Some 16 8 buffer) as [fpr ->]; [lia|].
  destruct (read_at_is_Some 24 4 buffer) as [nh ->]; [lia|].
  cbn [mbind option_bind bit_array_size_].
  pose proof (byte_count_range (le_value bas)) as Hb.
  assert (wrap64 (8 * 3 + 4 + wrap64 (le_value bas + 7) / 8)
          = 8 * 3 + 4 + wrap64 (le_value bas + 7) / 8) as ->.
  { unfold wrap64 at 1. apply Z.mod_small. lia. }
  destruct (Z.ltb_spec size (8 * 3 + 4 + wrap64 (le_value bas + 7) / 8)) as [Hshort|Hlong].
  { eexists false, _. repeat split; eauto.
    intros _. exists bas. split; [reflexivity|]. split; auto. }
  rewrite read_at_take by lia.
  destruct (read_at_is_Some 28 (Z.to_nat (wrap64 (le_value bas + 7) / 8)) buffer)
    as [bits ->]; [lia|].
  cbn [mbind option_bind].
  eexists true, _. repeat split; eauto; try lia; try discriminate.
  intros _. exists bas. split; [reflexivity|]. split; [discriminate | lia].
Qed.

(** C6, at the input where the code departs from it.  A 28-byte buffer
    whose header declares [2^64 - 1] bits is shorter than the header plus
    the [2^61] bytes of that bit buffer, yet [deserialize] returns [true]:
    [bit_array_size_ + 7] wraps to 6, the byte count to 0.  The object it
    leaves has an empty buffer, on which [mightContain] reads out of
    bounds. *)
Theorem deserialize_accepts_wrapped_size :
  Z.of_nat (length overflow_image) = 28 /\
  le_value (take 8 (drop 8 overflow_image)) = 2 ^ 64 - 1 /\
  28 < HEADER_SIZE + (2 ^ 64 - 1 + 7) / 8 /\
  deserialize sample_filter overflow_image 28
    = Some (true, mkFilter [] 1 1 0 (2 ^ 64 - 1) 0) /\
  @mightContain sample_postgres (mkFilter [] 1 1 0 (2 ^ 64 - 1) 0) (Some sample_key) = None.
Proof. repeat split. Qed.

(** ** The SQL membership call *)

Section MightContain.
Context `{Postgres}.

Lemma get_bloom_filter_eq table_oid attnum s :
  get_bloom_filter table_oid attnum s =
  (Returns match registry_of s !! (table_oid, attnum) with
           | Some e => if is_valid e then filter e else Null
           | None => Null
           end, s).
Proof.
  unfold get_bloom_filter, hash_find, mbind, M_bind, bind, get_state, ret, registry_of.
  destruct (bloom_shared_state s) as [sh|] eqn:Hs; cbn beta iota.
  - rewrite Hs.
    destruct (bloom_registry sh !! (table_oid, attnum)) as [e|]; [|reflexivity].
    now destruct (is_valid e).
  - now rewrite lookup_empty.
Qed.

(** C3.  For a table and a column that the catalog resolves, the call
    returns [true] when the lookup yields no filter (no shared state or no
    entry under the key, an entry marked invalid, a null filter pointer)
    and when the filter found has [bit_array_size_ = 0]; when it returns a
    value that is not [true], a valid entry with a filter of non-zero size
    exists and the value is that filter's [mightContain] answer, which is
    what the call returns for every such filter. *)
Theorem might_contain_fails_open (s : backend) (table_oid : Z) (column_name : string)
    (value_text : option (list Z)) :
  let attnum := get_attnum table_oid column_name in
  let key := (table_oid, attnum) in
  let call := octo_bloom_might_contain table_oid column_name value_text s in
  attnum <> InvalidAttrNumber ->
  (registry_of s !! key = None -> call = (Returns true, s)) /\
  (forall e, registry_of s !! key = Some e -> is_valid e = false ->
             call = (Returns true, s)) /\
  (forall e, registry_of s !! key = Some e -> filter e = Null ->
             call = (Returns true, s)) /\
  (forall e l f,
      registry_of s !! key = Some e -> is_valid e = true -> filter e = Loc l ->
      heap s !! l = Some (Some f) ->
      (bit_array_size_ f = 0 -> call = (Returns true, s)) /\
      (bit_array_size_ f <> 0 ->
       forall bytes answer,
         value_text = Some bytes -> mightContain f (Some bytes) = Some answer ->
         call = (Returns answer, s))) /\
  (call = (Returns false, s) ->
   exists e l f bytes,
     registry_of s !! key = Some e /\ is_valid e = true /\ filter e = Loc l /\
     heap s !! l = Some (Some f) /\ bit_array_size_ f <> 0 /\
     value_text = Some bytes /\ mightContain f (Some bytes) = Some false).
Proof.
  intros attnum key call Hattnum.
  assert (call =
    match (match registry_of s !! key with
           | Some e => if is_valid e then filter e else Null
           | None => Null
           end) with
    | Null => (Returns true, s)
    | Indeterminate => (Undefined, s)
    | Loc l =>
        match heap s !! l with
        | Some (Some f) =>
            if bit_array_size_ f =? 0 then (Returns true, s)
            else match value_text with
                 | None => (Returns true, s)
                 | Some bytes =>
                     match mightContain f (Some bytes) with
                     | Some answer => (Returns answer, s)
                     | None => (Undefined, s)
                     end
                 end
        | _ => (Undefined, s)
        end
    end) as Hcall.
  { subst call. unfold octo_bloom_might_contain. fold attnum.
    destruct (Z.eqb_spec attnum InvalidAttrNumber); [contradiction|].
    unfold mbind, M_bind, bind. rewrite get_bloom_filter_eq. fold key.
    destruct (match registry_of s !! key with
              | Some e => if is_valid e then filter e else Null
              | None => Null
              end) as [|l|]; try reflexivity.
    unfold get_state, getBitArraySize.
    destruct (heap s !! l) as [[f|]|]; try reflexivity.
    destruct (bit_array_size_ f =? 0); [reflexivity|].
    destruct value_text as [bytes|]; [|reflexivity].
    destruct (mightContain f (Some bytes)); reflexivity. }
  rewrite Hcall. clear Hcall. split; [|split; [|split; [|split]]].
  - now intros ->.
  - now intros e -> ->.
  - intros e -> ->. now destruct (is_valid e).
  - intros e l f -> -> -> ->. split.
    + now intros ->.
    + intros Hne bytes answer -> ->.
      now destruct (Z.eqb_spec (bit_array_size_ f) 0).
  - destruct (registry_of s !! key) as [e|]; [|discriminate].
    destruct (is_valid e) eqn:Hv; [|discriminate].
    destruct (filter e) as [|l|] eqn:Hf; try discriminate.
    destruct (heap s !! l) as [[f|]|] eqn:Hh; try discriminate.
    destruct (Z.eqb_spec (bit_array_size_ f) 0); [discriminate|].
    destruct value_text as [bytes|]; [|discriminate].
    destruct (mightContain f (Some bytes)) as [[]|] eqn:Hm; try discriminate.
    intros _. exists e, l, f, bytes. repeat split; auto.
Qed.

End MightContain.

Lemma might_contain_fails_open_witness :
  @octo_bloom_might_contain sample_postgres 999 "email" (Some sample_key) (sample_backend [])
    = (Returns true, sample_backend []) /\
  @octo_bloom_might_contain sample_postgres 16384 "email" (Some sample_key) (sample_backend [])
    = (Returns false, sample_backend []).
Proof.
  split.
  - apply (@might_contain_fails_open sample_postgres (sample_backend []) 999 "email"
             (Some sample_key)); [discriminate | reflexivity].
  - destruct (@might_contain_fails_open sample_postgres (sample_backend []) 16384 "email"
                (Some sample_key)) as (_ & _ & _ & Hfound & _); [discriminate|].
    destruct (Hfound sample_entry 2%positive sample_filter) as [_ Hanswer];
      [reflexivity..|].
    apply (Hanswer ltac:(discriminate) sample_key false); reflexivity.
Defined.

(** ** Registration *)

Section Register.
Context `{Libm double}.

Lemma alter_present (key : Z * Z) (g : BloomRegistryEntry -> BloomRegistryEntry)
    (m : gmap (Z * Z) BloomRegistryEntry) e :
  m !! key = Some e -> alter g key m = <[key := g e]> m.
Proof.
  intros He. apply map_eq. intros k. rewrite lookup_alter, lookup_insert.
  destruct (decide (key = k)) as [<-|]; [now rewrite He | reflexivity].
Qed.

Lemma register_found_run (s : backend) sh tbl col n p e f gs1 gs2 :
  bloom_shared_state s = Some sh ->
  bloom_registry sh !! (tbl, col) = Some e ->
  releasable (filter e) (heap s) ->
  next_grant (grants s) = (true, gs1) ->
  next_grant gs1 = (true, gs2) ->
  OctoBloomFilter_new n p = Some f ->
  let h1 := released (filter e) (heap s) in
  let l := fresh (dom h1) in
  register_bloom_filter tbl col n p s =
  (Returns true,
   mkBackend
     (Some (mkShared (<[(tbl, col) := mkEntry (table_oid e) (attnum e) (Loc l) n p 0 true]>
                        (bloom_registry sh))
                     (max_filters sh)))
     (<[l := Some f]> h1) gs2).
Proof.
  intros Hs He Hrel Hg1 Hg2 Hnew h1 l.
  destruct s as [ss hp gs]. simpl in Hs, Hrel, Hg1, h1. subst ss.
  unfold register_bloom_filter, mbind, M_bind, bind, get_state, ret.
  cbn [bloom_shared_state].
  unfold hash_enter, hash_find, mbind, M_bind, bind, get_state, ret, registry_of.
  cbn [bloom_shared_state]. rewrite He. cbn [bloom_shared_state]. rewrite He.
  assert (exists o,
    (match filter e return M unit with
     | Null => fun s0 => (Returns (), s0)
     | Loc old => destroy_filter old
     | Indeterminate => undefined
     end) (mkBackend (Some sh) hp gs) = (Returns o, mkBackend (Some sh) h1 gs)) as [o ->].
  { subst h1. unfold releasable, released in *.
    destruct (filter e) as [|old|]; [eexists; reflexivity| |contradiction].
    unfold destroy_filter, mbind, M_bind, bind, get_state, put_state.
    cbn [heap]. destruct Hrel as [o ->]. eexists; reflexivity. }
  unfold palloc_object, request, mbind, M_bind, bind, get_state, put_state, ret.
  cbn [grants heap bloom_shared_state]. rewrite Hg1.
  cbn [grants heap bloom_shared_state]. fold l.
  unfold update_entry. cbn [grants heap bloom_shared_state bloom_registry max_filters].
  unfold construct_at. rewrite Hnew.
  unfold request, mbind, M_bind, bind, get_state, put_state, ret.
  cbn [grants heap bloom_shared_state]. rewrite Hg2.
  cbn [grants heap bloom_shared_state bloom_registry max_filters].
  f_equal. f_equal; [|apply insert_insert_eq].
  f_equal. f_equal.
  rewrite (alter_present _ _ _ e He).
  rewrite (alter_present _ _ _ (set_filter (Loc l) e)) by apply lookup_insert_eq.
  rewrite insert_insert_eq. reflexivity.
Qed.

(** C8.  A register call for a key that has an entry, whose filter pointer
    is null or live, with memory granted and parameters the constructor
    accepts, returns [true].  The registry keeps its set of keys: the entry
    under the key is updated in place, with its filter pointer at the object
    just constructed from [n] and [p], [expected_count = n],
    [false_positive_rate = p], [current_count = 0] and [is_valid = true].
    The old filter object is gone from the heap and the new one is the only
    object added. *)
Theorem register_existing_key_replaces (s : backend) sh tbl col n p e f gs1 gs2 :
  bloom_shared_state s = Some sh ->
  bloom_registry sh !! (tbl, col) = Some e ->
  releasable (filter e) (heap s) ->
  next_grant (grants s) = (true, gs1) ->
  next_grant gs1 = (true, gs2) ->
  OctoBloomFilter_new n p = Some f ->
  let h1 := released (filter e) (heap s) in
  let l := fresh (dom h1) in
  exists s',
    register_bloom_filter tbl col n p s = (Returns true, s') /\
    registry_of s' =
      <[(tbl, col) := mkEntry (table_oid e) (attnum e) (Loc l) n p 0 true]> (registry_of s) /\
    dom (registry_of s') = dom (registry_of s) /\
    size (registry_of s') = size (registry_of s) /\
    (forall old, filter e = Loc old -> h1 !! old = None) /\
    h1 !! l = None /\
    heap s' = <[l := Some f]> h1 /\
    get_bloom_filter tbl col s' = (Returns (Loc l), s').
Proof.
  intros Hs He Hrel Hg1 Hg2 Hnew h1 l.
  eexists. split; [now apply (register_found_run s sh tbl col n p e f gs1 gs2)|].
  assert (registry_of s = bloom_registry sh) as Hreg by (unfold registry_of; now rewrite Hs).
  assert (forall v : BloomRegistryEntry,
             dom (<[(tbl, col) := v]> (bloom_registry sh)) = dom (bloom_registry sh)) as Hdom.
  { intros v. apply dom_insert_lookup_L. eauto. }
  rewrite !Hreg. unfold registry_of. cbn [bloom_shared_state bloom_registry heap].
  split; [reflexivity|]. split; [apply Hdom|].
  split; [now rewrite <- !size_dom, Hdom|].
  split; [intros old Hold; subst h1; rewrite Hold; apply lookup_delete_eq|].
  split; [apply not_elem_of_dom, is_fresh|].
  split; [reflexivity|].
  rewrite get_bloom_filter_eq. unfold registry_of. cbn [bloom_shared_state bloom_registry].
  now rewrite lookup_insert_eq.
Qed.

End Register.

Lemma register_existing_key_replaces_witness :
  exists s',
    @register_bloom_filter sample_libm 16384 1 4 d_0_1 (sample_backend []) = (Returns true, s') /\
    registry_of s' =
      <[(16384, 1) := mkEntry 16384 1 (Loc 1%positive) 4 d_0_1 0 true]>
        (registry_of (sample_backend [])) /\
    dom (registry_of s') = dom (registry_of (sample_backend [])) /\
    size (registry_of s') = size (registry_of (sample_backend [])) /\
    (forall old, Loc 2%positive = Loc old ->
                 (delete 2%positive (heap (sample_backend [])) : gmap loc _) !! old = None) /\
    (delete 2%positive (heap (sample_backend [])) : gmap loc _) !! 1%positive = None /\
    heap s' = <[1%positive := Some sample_filter]> (delete 2%positive (heap (sample_backend []))) /\
    get_bloom_filter 16384 1 s' = (Returns (Loc 1%positive), s').
Proof.
  apply (@register_existing_key_replaces sample_libm (sample_backend [])
           (mkShared {[ (16384, 1) := sample_entry ]} 10) 16384 1 4 d_0_1
           sample_entry sample_filter [] []); try reflexivity.
  exists (Some sample_filter). reflexivity.
Defined.

(** C7, at the input where the code departs from it.  The entry of the
    sample backend is valid and its filter is live at address 2.  A register
    call for its key destroys that filter before it asks for memory.  When
    the request for the new object is refused, the call leaves by
    [ERRCODE_OUT_OF_MEMORY] with the entry unchanged, still valid, its
    pointer now dangling: [get_bloom_filter] hands it out and the membership
    call dereferences it.  When it is the request for the bit buffer that is
    refused, the entry points at an object whose constructor did not
    complete. *)
Theorem register_failure_destroys_previous_filter :
  let key := (16384, 1) in
  let before := sample_backend [false] in
  let after := mkBackend (bloom_shared_state before) ∅ [] in
  registry_of before !! key = Some sample_entry /\
  is_valid sample_entry = true /\
  filter sample_entry = Loc 2%positive /\
  heap before !! 2%positive = Some (Some sample_filter) /\
  @register_bloom_filter sample_libm 16384 1 4 d_0_1 before
    = (Raises ERRCODE_OUT_OF_MEMORY, after) /\
  registry_of after !! key = Some sample_entry /\
  heap after !! 2%positive = None /\
  get_bloom_filter 16384 1 after = (Returns (Loc 2%positive), after) /\
  @octo_bloom_might_contain sample_postgres 16384 "email" (Some sample_key) after
    = (Undefined, after) /\
  @register_bloom_filter sample_libm 16384 1 4 d_0_1 (sample_backend [true; false])
    = (Raises ERRCODE_OUT_OF_MEMORY,
       mkBackend (Some (mkShared {[ key := set_filter (Loc 1%positive) sample_entry ]} 10))
                 {[ 1%positive := None ]} []).
Proof. repeat split. Qed.

(** ** The formula of the specification at its sample input

    Bounds on [ln 2] and [ln 10] place the quotient the specification
    writes for a count of 4 and a rate of 0.1 between 19 and 20. *)

Section Exact.
Local Open Scope R_scope.

Lemma ln_le_mono x y : 0 < x -> x <= y -> ln x <= ln y.
Proof.
  intros Hx [Hlt| ->]; [|lra]. left. apply ln_increasing; assumption.
Qed.

Lemma ln_1_plus_le y : -1 < y -> ln (1 + y) <= y.
Proof.
  intros Hy. rewrite <- (ln_exp y) at 2.
  apply ln_le_mono; [lra | apply exp_ineq1_le].
Qed.

Lemma ln_upper x y (N : nat) : 0 < x -> -1 < y -> x <= (1 + y) ^ N -> ln x <= INR N * y.
Proof.
  intros Hx Hy Hp.
  apply Rle_trans with (ln ((1 + y) ^ N)); [now apply ln_le_mono|].
  rewrite ln_pow by lra.
  apply Rmult_le_compat_l; [apply pos_INR | now apply ln_1_plus_le].
Qed.

Lemma ln_lower x y (N : nat) : 0 < x -> y < 1 -> / x <= (1 - y) ^ N -> INR N * y <= ln x.
Proof.
  intros Hx Hy Hp.
  assert (ln (/ x) <= INR N * - y) as Hl.
  { apply ln_upper; [now apply Rinv_0_lt_compat | lra |].
    replace (1 + - y) with (1 - y) by lra. exact Hp. }
  rewrite ln_Rinv in Hl by assumption. lra.
Qed.

Lemma pow_ratio_ge (c d a b : Z) (N : nat) :
  (0 < b)%Z -> (0 < d)%Z ->
  (c * b ^ Z.of_nat N <= d * a ^ Z.of_nat N)%Z ->
  IZR c / IZR d <= (IZR a / IZR b) ^ N.
Proof.
  intros Hb Hd Hz.
  assert (0 < IZR b) as Hb' by now apply IZR_lt.
  assert (0 < IZR d) as Hd' by now apply IZR_lt.
  assert (0 < IZR b ^ N) as Hbn by now apply pow_lt.
  apply IZR_le in Hz. rewrite !mult_IZR, <- !pow_IZR in Hz.
  unfold Rdiv at 2. rewrite Rpow_mult_distr, pow_inv.
  apply Rmult_le_reg_r with (IZR d * IZR b ^ N); [now apply Rmult_lt_0_compat|].
  field_simplify; [|lra|lra]. lra.
Qed.

Lemma ln_2_upper : ln 2 <= 0.69376.
Proof.
  replace 0.69376 with (INR 512 * 0.001355) by (simpl; lra).
  apply ln_upper; [lra | lra |].
  replace (1 + 0.001355) with (IZR 1001355 / IZR 1000000) by lra.
  replace 2 with (IZR 2 / IZR 1) by lra.
  apply pow_ratio_ge; [lia | lia |]. vm_compute. discriminate.
Qed.

Lemma ln_2_lower : 0.6912 <= ln 2.
Proof.
  replace 0.6912 with (INR 512 * 0.00135) by (simpl; lra).
  apply ln_lower; [lra | lra |].
  replace (1 - 0.00135) with (IZR 998650 / IZR 1000000) by lra.
  replace (/ 2) with (IZR 1 / IZR 2) by lra.
  apply pow_ratio_ge; [lia | lia |]. vm_compute. discriminate.
Qed.

Lemma ln_10_lower : 2.297344 <= ln 10.
Proof.
  replace 2.297344 with (INR 512 * 0.004487) by (simpl; lra).
  apply ln_lower; [lra | lra |].
  replace (1 - 0.004487) with (IZR 995513 / IZR 1000000) by lra.
  replace (/ 10) with (IZR 1 / IZR 10) by lra.
  apply pow_ratio_ge; [lia | lia |]. vm_compute. discriminate.
Qed.

Lemma ln_10_upper : ln 10 <= 2.30912.
Proof.
  replace 2.30912 with (INR 512 * 0.00451) by (simpl; lra).
  apply ln_upper; [lra | lra |].
  replace (1 + 0.00451) with (IZR 1004510 / IZR 1000000) by lra.
  replace 10 with (IZR 10 / IZR 1) by lra.
  apply pow_ratio_ge; [lia | lia |]. vm_compute. discriminate.
Qed.

Lemma Int_part_between x z : IZR z <= x < IZR z + 1 -> Int_part x = z.
Proof. intros Hx. symmetry. apply Int_part_spec. lra. Qed.

Lemma sample_estimate_bounds : 19 < spec_bit_estimate 4 (1 / 10) < 20.
Proof.
  unfold spec_bit_estimate.
  replace (1 / 10) with (/ 10) by lra. rewrite ln_Rinv by lra.
  pose proof ln_2_lower. pose proof ln_2_upper.
  pose proof ln_10_lower. pose proof ln_10_upper.
  assert (0 < ln 2 ^ 2) by (apply pow_lt; lra).
  split.
  - apply Rmult_lt_reg_r with (ln 2 ^ 2); [assumption|].
    unfold Rdiv. rewrite Rmult_assoc, Rinv_l by lra. nra.
  - apply Rmult_lt_reg_r with (ln 2 ^ 2); [assumption|].
    unfold Rdiv. rewrite Rmult_assoc, Rinv_l by lra. nra.
Qed.


Lemma sample_spec_bit_array_size : spec_bit_array_size 4 (1 / 10) = 20%Z.
Proof.
  unfold spec_bit_array_size. pose proof sample_estimate_bounds.
  rewrite (Int_part_between _ (-20)); [reflexivity|].
  lra.
Qed.

End Exact.

(** ** The formulas of the constructor in binary64 *)

(** [double_trunc] is the value divided by one, rounded toward zero:
    [double_scaled] is the value times [2^1074]. *)
Lemma double_trunc_quot d t :
  double_trunc d = Some t -> t = Z.quot (double_scaled d) (2 ^ 1074).
Proof.
  unfold double_trunc, double_scaled.
  assert (0 <= double_exponent d < 2048) as He by (apply Z.mod_pos_bound; lia).
  assert (0 <= double_fraction d < 2 ^ 52) as Hf by (apply Z.mod_pos_bound; lia).
  assert (0 < 2 ^ 1074) as Hpos by lia.
  destruct (Z.eqb_spec (double_exponent d) 2047) as [|Hfin]; [discriminate|].
  intros [= <-].
  set (e := double_exponent d) in *. set (sig := 2 ^ 52 + double_fraction d).
  assert (forall m scaled, 0 <= scaled -> m = scaled / 2 ^ 1074 ->
            (if double_sign d then - m else m)
            = Z.quot (if double_sign d then - scaled else scaled) (2 ^ 1074)) as Hsign.
  { intros m scaled Hs ->. rewrite <- Z.quot_div_nonneg by lia.
    destruct (double_sign d); [now rewrite Z.quot_opp_l by lia | reflexivity]. }
  destruct (Z.eqb_spec e 0) as [Hz|Hnz].
  - apply Hsign; [lia|]. symmetry. apply Z.div_small.
    assert (2 ^ 52 <= 2 ^ 1074) by (apply Z.pow_le_mono_r; lia). lia.
  - assert (0 <= sig) by (unfold sig; lia).
    apply Hsign; [apply Z.mul_nonneg_nonneg; [lia | apply Z.pow_nonneg; lia]|].
    destruct (Z.leb_spec 1075 e) as [Hbig|Hsmall].
    + replace (e - 1) with ((e - 1075) + 1074) by lia.
      rewrite Z.pow_add_r by lia. rewrite Z.mul_assoc.
      now rewrite Z.div_mul by lia.
    + replace 1074 with ((1075 - e) + (e - 1)) at 1 by lia.
      rewrite Z.pow_add_r by lia.
      rewrite Z.div_mul_cancel_r; [reflexivity | |]; apply Z.pow_nonzero; lia.
Qed.

Lemma double_to_unsigned_quot w d z :
  double_to_unsigned w d = Some z -> z = Z.quot (double_scaled d) (2 ^ 1074).
Proof.
  intros Hc. apply double_to_unsigned_inv in Hc as [Ht _]. now apply double_trunc_quot.
Qed.

(** C9, as the code has it.  Whatever [std::log], [std::pow] and
    [std::round] return in [double], the size before the clamp is the
    [double] quotient [-(n * log p) / pow(log 2, 2)] converted by
    [static_cast<size_t>], that is rounded toward zero, and the hash count
    before the clamps is the [double] that [std::round] returns for
    [(bit_array_size_ / n) * log 2], converted the same way; the clamps
    follow.  For [n = 4] and [p = 0.1], with the values an x86-64 glibc
    returns, the quotient lies strictly between 19 and 20: the code takes 19
    where the ceiling of the formula is 20, derives 3 hashes, and the clamp
    raises the size to 64. *)
Theorem parameter_formulas_in_binary64 :
  (forall (libm : Libm double) (n : Z) (p : double) (z : Z),
      optimal_bit_array_size n p = Some z ->
      z = Z.quot (double_scaled
                    (fp_div (fp_neg (fp_mul (fp_of_Z n) (std_log p)))
                            (std_pow (std_log (fp_of_Z 2)) (fp_of_Z 2))))
                 (2 ^ 1074)) /\
  (forall (libm : Libm double) (b n k : Z),
      optimal_num_hashes b n = Some k ->
      k = Z.quot (double_scaled
                    (std_round (fp_mul (fp_div (fp_of_Z b) (fp_of_Z n))
                                       (std_log (fp_of_Z 2)))))
                 (2 ^ 1074)) /\
  (forall (libm : Libm double) (n : Z) (p : double) (m k : Z),
      derive_parameters n p = Some (m, k) ->
      exists z j, optimal_bit_array_size n p = Some z /\
                  optimal_num_hashes z n = Some j /\
                  m = Z.max z 64 /\ k = Z.min (Z.max j 1) 50) /\
  19 * 2 ^ 1074 < double_scaled 0x40332b8cc58a1684 < 20 * 2 ^ 1074 /\
  @optimal_bit_array_size double sample_libm double_cast 4 d_0_1 = Some 19 /\
  spec_bit_array_size 4 (1 / 10) = 20 /\
  @optimal_num_hashes double sample_libm double_cast 19 4 = Some 3 /\
  @derive_parameters double sample_libm double_cast 4 d_0_1 = Some (64, 3).
Proof.
  split; [|split; [|split]].
  - intros libm n p z. unfold optimal_bit_array_size. apply double_to_unsigned_quot.
  - intros libm b n k. unfold optimal_num_hashes. apply double_to_unsigned_quot.
  - intros libm n p m k. unfold derive_parameters.
    destruct (optimal_bit_array_size n p) as [z|]; [|discriminate].
    destruct (optimal_num_hashes z n) as [j|] eqn:Hj; [|discriminate].
    intros [= <- <-]. exists z, j. auto.
  - split; [vm_compute; split; reflexivity|].
    split; [reflexivity|]. split; [exact sample_spec_bit_array_size|].
    split; reflexivity.
Qed.

Lemma parameter_formulas_in_binary64_witness :
  19 = Z.quot (double_scaled 0x40332b8cc58a1684) (2 ^ 1074).
Proof.
  destruct parameter_formulas_in_binary64 as (Hquot & _).
  exact (Hquot sample_libm 4 d_0_1 19 eq_refl).
Defined.

(** C9 as stated fails: for [n = 4] and [p = 0.1] the size the code derives
    before the clamp, 19, is not the ceiling of the quotient, 20. *)
Lemma bit_array_size_is_not_the_ceiling :
  @optimal_bit_array_size double sample_libm double_cast 4 d_0_1
  <> Some (spec_bit_array_size 4 (1 / 10)).
Proof.
  rewrite sample_spec_bit_array_size. discriminate.
Qed.


(** * Beyond the claims *)

(** * Further properties of the code *)

(** ** [add]: idempotence, order, and the bits it sets *)

Lemma land_mask_testbit b index :
  Z.land b (bit_mask index) <> 0 <-> Z.testbit b (index mod 8) = true.
Proof.
  unfold bit_mask. rewrite Z.shiftl_1_l.
  assert (0 <= index mod 8) as Hk by (apply Z.mod_pos_bound; lia).
  split.
  - intros Hne. destruct (Z.testbit b (index mod 8)) eqn:Hb; [reflexivity|].
    exfalso. apply Hne. apply Z.bits_inj'. intros n Hn.
    rewrite Z.land_spec, Z.bits_0, Z.pow2_bits_eqb by lia.
    destruct (Z.eqb_spec (index mod 8) n) as [<-|]; [now rewrite Hb | apply andb_false_r].
  - intros Hb Hz. apply (f_equal (fun z => Z.testbit z (index mod 8))) in Hz.
    rewrite Z.land_spec, Z.bits_0, Z.pow2_bits_eqb, Hb, Z.eqb_refl in Hz by lia.
    discriminate.
Qed.

Lemma lor_mask_set b index :
  Z.land b (bit_mask index) <> 0 -> Z.lor b (bit_mask index) = b.
Proof.
  intros Hset. apply land_mask_testbit in Hset.
  assert (0 <= index mod 8) as Hk by (apply Z.mod_pos_bound; lia).
  apply Z.bits_inj'. intros n Hn. unfold bit_mask.
  rewrite Z.lor_spec, Z.shiftl_1_l, Z.pow2_bits_eqb by lia.
  destruct (Z.eqb_spec (index mod 8) n) as [<-|]; [now rewrite Hset | apply orb_false_r].
Qed.

Lemma set_bit_already bits index :
  test_bit bits index = Some true -> set_bit bits index = Some bits.
Proof.
  unfold test_bit, set_bit.
  destruct (bits !! Z.to_nat (index / 8)) as [b|] eqn:Hb; [|discriminate].
  intros [= Hset]. f_equal.
  destruct (Z.eqb_spec (Z.land b (bit_mask index)) 0); [discriminate|].
  rewrite lor_mask_set by assumption. now apply list_insert_id.
Qed.

Lemma add_loop_already js : forall bits m h1 h2,
  Forall (fun i => test_bit bits (bit_index m h1 h2 i) = Some true) js ->
  (js <> [] -> m <> 0) ->
  add_loop bits m h1 h2 js = Some bits.
Proof.
  induction js as [|i js IH]; simpl; intros bits m h1 h2 Hall Hm; [reflexivity|].
  destruct (Z.eqb_spec m 0) as [Hz|Hz]; [exfalso; now apply Hm|].
  inversion Hall as [|? ? Hi Hrest]; subst.
  rewrite (set_bit_already _ _ Hi). apply IH; auto.
Qed.

Lemma add_loop_nonempty_size bits m h1 h2 js bits' :
  add_loop bits m h1 h2 js = Some bits' -> js <> [] -> m <> 0.
Proof.
  destruct js as [|i js]; [contradiction|]. simpl. intros Hl _.
  destruct (Z.eqb_spec m 0); [discriminate | auto].
Qed.

Section AddAlgebra.
Context `{Postgres}.

Lemma add_inv f data f1 :
  add f data = Some f1 ->
  exists bits',
    add_loop (bits_ f) (bit_array_size_ f) (hash1 data) (hash2 data)
             (seqZ 0 (num_hashes_ f)) = Some bits' /\
    f1 = set_bits f bits'.
Proof.
  unfold add, doubleHash. destruct (add_loop _ _ _ _ _) as [bits'|]; [|discriminate].
  intros [= <-]. eauto.
Qed.

Lemma add_of_loop f data bits' :
  add_loop (bits_ f) (bit_array_size_ f) (hash1 data) (hash2 data)
           (seqZ 0 (num_hashes_ f)) = Some bits' ->
  add f data = Some (set_bits f bits').
Proof. intros Hl. unfold add, doubleHash. now rewrite Hl. Qed.

(** X1.  Adding the same bytes a second time changes nothing: the second
    [add] is defined and returns the object the first one left. *)
Theorem add_idempotent (f f1 : OctoBloomFilter) (data : option (list Z)) :
  add f data = Some f1 -> add f1 data = Some f1.
Proof.
  intros Ha. pose proof (add_covers _ _ _ Ha) as Hc.
  destruct (add_inv _ _ _ Ha) as (bits' & Hl & ->).
  rewrite (add_of_loop (set_bits f bits') data bits'); [reflexivity|].
  apply add_loop_already; [exact Hc|].
  simpl. eapply add_loop_nonempty_size; eauto.
Qed.

End AddAlgebra.

Lemma add_idempotent_witness :
  @add sample_postgres (set_bits sample_filter [1; 0; 16; 0; 0; 1; 0; 0]) (Some sample_key)
  = Some (set_bits sample_filter [1; 0; 16; 0; 0; 1; 0; 0]).
Proof.
  apply (@add_idempotent sample_postgres sample_filter). reflexivity.
Defined.

Lemma test_bit_testbit bits index :
  test_bit bits index
  = (fun b => Z.testbit b (index mod 8)) <$> bits !! Z.to_nat (index / 8).
Proof.
  unfold test_bit. destruct (bits !! _) as [b|]; [|reflexivity]. simpl. f_equal.
  destruct (Z.eqb_spec (Z.land b (bit_mask index)) 0) as [Hz|Hnz]; simpl.
  - destruct (Z.testbit b (index mod 8)) eqn:Hb; [|reflexivity].
    apply land_mask_testbit in Hb. contradiction.
  - symmetry. now apply land_mask_testbit.
Qed.

Lemma same_byte_same_bit i j :
  0 <= i -> 0 <= j ->
  (j =? i) = (Z.to_nat (j / 8) =? Z.to_nat (i / 8))%nat && (i mod 8 =? j mod 8).
Proof.
  intros Hi Hj.
  pose proof (Z.div_mod i 8). pose proof (Z.div_mod j 8).
  pose proof (Z.div_pos i 8). pose proof (Z.div_pos j 8).
  destruct (Z.eqb_spec j i) as [->|Hne].
  - now rewrite Nat.eqb_refl, Z.eqb_refl.
  - destruct (Nat.eqb_spec (Z.to_nat (j / 8)) (Z.to_nat (i / 8))); [|reflexivity].
    destruct (Z.eqb_spec (i mod 8) (j mod 8)); [|reflexivity]. lia.
Qed.

(** A store through [set_bit] changes the one bit it names. *)
Lemma test_bit_set_bit bits i j bits' :
  0 <= i -> 0 <= j -> set_bit bits i = Some bits' ->
  test_bit bits' j = (fun b => b || (j =? i)) <$> test_bit bits j.
Proof.
  intros Hi Hj. unfold set_bit.
  destruct (bits !! Z.to_nat (i / 8)) as [b|] eqn:Hb; [|discriminate].
  intros [= <-]. rewrite !test_bit_testbit, (same_byte_same_bit i j Hi Hj).
  assert (0 <= i mod 8) by (apply Z.mod_pos_bound; lia).
  assert (0 <= j mod 8) by (apply Z.mod_pos_bound; lia).
  destruct (Nat.eqb_spec (Z.to_nat (j / 8)) (Z.to_nat (i / 8))) as [->|Hne].
  - rewrite list_lookup_insert_eq by (eapply lookup_lt_Some; eauto).
    rewrite Hb. simpl. f_equal. unfold bit_mask.
    now rewrite Z.lor_spec, Z.shiftl_1_l, Z.pow2_bits_eqb by lia.
  - rewrite list_lookup_insert_ne by auto.
    destruct (bits !! Z.to_nat (j / 8)); simpl; [|reflexivity].
    now rewrite orb_false_r.
Qed.

Lemma test_bit_add_loop js : forall bits m h1 h2 bits' j,
  0 < m -> 0 <= j ->
  add_loop bits m h1 h2 js = Some bits' ->
  test_bit bits' j
  = (fun b => b || existsb (Z.eqb j) (map (bit_index m h1 h2) js)) <$> test_bit bits j.
Proof.
  induction js as [|i js IH]; simpl; intros bits m h1 h2 bits' j Hm Hj.
  - intros [= <-]. destruct (test_bit bits j); simpl; [|reflexivity].
    now rewrite orb_false_r.
  - destruct (m =? 0); [discriminate|].
    destruct (set_bit bits _) as [b1|] eqn:Hs; [|discriminate].
    intros Hl. rewrite (IH _ _ _ _ _ _ Hm Hj Hl).
    pose proof (Z.mod_pos_bound (wrap64 (h1 + wrap64 (i * h2))) m Hm) as Hr.
    rewrite (test_bit_set_bit _ _ j _ (proj1 Hr) Hj Hs).
    destruct (test_bit bits j); simpl; [|reflexivity].
    now rewrite orb_assoc.
Qed.

Lemma mightContain_loop_inv js : forall bits m h1 h2,
  mightContain_loop bits m h1 h2 js = Some true ->
  Forall (fun i => test_bit bits (bit_index m h1 h2 i) = Some true) js.
Proof.
  induction js as [|i js IH]; simpl; intros bits m h1 h2; [constructor|].
  destruct (m =? 0); [discriminate|].
  destruct (test_bit bits _) as [[]|] eqn:Ht; try discriminate.
  intros Hl. constructor; auto.
Qed.

Lemma mightContain_loop_false js : forall bits m h1 h2,
  mightContain_loop bits m h1 h2 js = Some false ->
  Exists (fun i => test_bit bits (bit_index m h1 h2 i) = Some false) js.
Proof.
  induction js as [|i js IH]; simpl; intros bits m h1 h2; [discriminate|].
  destruct (m =? 0); [discriminate|].
  destruct (test_bit bits _) as [[]|] eqn:Ht; try discriminate.
  - intros Hl. apply Exists_cons_tl. auto.
  - intros _. now apply Exists_cons_hd.
Qed.

Lemma mightContain_loop_is_Some js : forall bits m h1 h2,
  0 < m -> m <= 8 * Z.of_nat (length bits) ->
  is_Some (mightContain_loop bits m h1 h2 js).
Proof.
  induction js as [|i js IH]; simpl; intros bits m h1 h2 Hm Hlen; [eauto|].
  destruct (Z.eqb_spec m 0); [lia|].
  pose proof (Z.mod_pos_bound (wrap64 (h1 + wrap64 (i * h2))) m Hm) as Hr.
  fold (bit_index m h1 h2 i) in Hr.
  assert (0 <= bit_index m h1 h2 i / 8 < Z.of_nat (length bits)) as Hq.
  { split; [apply Z.div_pos; lia | apply Z.div_lt_upper_bound; lia]. }
  unfold test_bit.
  destruct (lookup_lt_is_Some_2 bits (Z.to_nat (bit_index m h1 h2 i / 8))) as [b ->]; [lia|].
  destruct (negb _); [now apply IH | eauto].
Qed.

Lemma mightContain_loop_mono js : forall bits bits' m h1 h2,
  (forall index, test_bit bits index = Some true -> test_bit bits' index = Some true) ->
  mightContain_loop bits m h1 h2 js = Some true ->
  mightContain_loop bits' m h1 h2 js = Some true.
Proof.
  induction js as [|i js IH]; simpl; intros bits bits' m h1 h2 Hmono; [reflexivity|].
  destruct (m =? 0); [discriminate|].
  destruct (test_bit bits _) as [[]|] eqn:Ht; try discriminate.
  rewrite (Hmono _ Ht). now apply IH.
Qed.

Lemma valid_filter_room f :
  valid_filter f ->
  0 < bit_array_size_ f /\ bit_array_size_ f <= 8 * Z.of_nat (length (bits_ f)).
Proof.
  intros [[_ _ _ _ Hbytes Hbits] Hsize _]. split; [lia|].
  rewrite Hbits, Hbytes. unfold wrap64.
  rewrite Z.mod_small by lia.
  pose proof (Z.div_mod (bit_array_size_ f + 7) 8).
  pose proof (Z.mod_pos_bound (bit_array_size_ f + 7) 8). lia.
Qed.

Section AddAnswers.
Context `{Postgres}.

(** X2.  On a valid filter [add] sets the bits at the [num_hashes_]
    positions of its input and no other: a bit of the array is set
    afterwards exactly when it was set before or is one of those
    positions. *)
Theorem add_sets_exactly_its_positions (f f' : OctoBloomFilter) (data : option (list Z)) (j : Z) :
  valid_filter f -> add f data = Some f' -> 0 <= j < bit_array_size_ f ->
  (test_bit (bits_ f') j = Some true <->
   test_bit (bits_ f) j = Some true \/
   exists i, 0 <= i < num_hashes_ f /\
             j = bit_index (bit_array_size_ f) (hash1 data) (hash2 data) i).
Proof.
  intros Hv Ha Hj. destruct (valid_filter_room f Hv) as [Hm Hlen].
  destruct (add_inv _ _ _ Ha) as (bits' & Hl & ->). cbn [set_bits bits_].
  rewrite (test_bit_add_loop _ _ _ _ _ _ j Hm (proj1 Hj) Hl).
  assert (exists b, test_bit (bits_ f) j = Some b) as [b Hb].
  { unfold test_bit.
    destruct (lookup_lt_is_Some_2 (bits_ f) (Z.to_nat (j / 8))) as [x ->]; [|eauto].
    assert (0 <= j / 8 < Z.of_nat (length (bits_ f))); [|lia].
    split; [apply Z.div_pos; lia | apply Z.div_lt_upper_bound; lia]. }
  rewrite Hb. simpl. split.
  - intros [= Hor]. apply orb_true_iff in Hor as [->|Hex]; [now left|right].
    apply existsb_exists in Hex as (x & Hin & Heq).
    apply Z.eqb_eq in Heq. apply in_map_iff in Hin as (i & <- & Hi).
    apply list_elem_of_In, elem_of_seqZ in Hi. exists i. split; [lia | exact Heq].
  - intros [[= ->]|(i & Hi & ->)]; [reflexivity|].
    f_equal. apply orb_true_iff. right. apply existsb_exists.
    eexists. split; [|apply Z.eqb_refl].
    apply in_map, list_elem_of_In, elem_of_seqZ. lia.
Qed.

(** X3.  An answer [true] of [mightContain] is never lost to a later [add]:
    whatever the filter and the bytes added, an input reported as possibly
    present stays so. *)
Theorem add_keeps_positive_answers (f f' : OctoBloomFilter) (data other : option (list Z)) :
  add f data = Some f' ->
  mightContain f other = Some true -> mightContain f' other = Some true.
Proof.
  intros Ha. destruct (add_inv _ _ _ Ha) as (bits' & Hl & ->).
  unfold mightContain, doubleHash. cbn [set_bits bits_ bit_array_size_ num_hashes_].
  apply mightContain_loop_mono. intros index. eapply add_loop_keeps; eauto.
Qed.

(** X4.  On a valid filter [mightContain] is defined for every input (no
    read leaves the buffer, no division by zero) and answers [true] exactly
    when every position of the input has its bit set. *)
Theorem mightContain_answer (f : OctoBloomFilter) (data : option (list Z)) :
  valid_filter f ->
  exists answer, mightContain f data = Some answer /\ (answer = true <-> covered f data).
Proof.
  intros Hv. destruct (valid_filter_room f Hv) as [Hm Hlen].
  destruct (mightContain_loop_is_Some (seqZ 0 (num_hashes_ f)) (bits_ f) (bit_array_size_ f)
              (hash1 data) (hash2 data) Hm Hlen) as [answer Ha].
  exists answer. split; [exact Ha|]. split.
  - intros ->. now apply mightContain_loop_inv.
  - intros Hc. pose proof (covered_mightContain f data ltac:(lia) Hc) as Ht.
    unfold mightContain, doubleHash in Ht. congruence.
Qed.

End AddAnswers.

Lemma add_sets_exactly_its_positions_witness :
  test_bit (bits_ (set_bits sample_filter [1; 0; 16; 0; 0; 1; 0; 0])) 20 = Some true <->
  test_bit (bits_ sample_filter) 20 = Some true \/
  exists i, 0 <= i < num_hashes_ sample_filter /\
            20 = bit_index (bit_array_size_ sample_filter)
                   (@hash1 sample_postgres (Some sample_key)) (hash2 (Some sample_key)) i.
Proof.
  apply (@add_sets_exactly_its_positions sample_postgres sample_filter
           (set_bits sample_filter [1; 0; 16; 0; 0; 1; 0; 0]) (Some sample_key) 20).
  - exact sample_filter_valid.
  - reflexivity.
  - simpl. lia.
Defined.

Lemma add_keeps_positive_answers_witness :
  @mightContain sample_postgres (set_bits sample_filter [129; 32; 24; 0; 0; 1; 0; 0])
    (Some sample_key) = Some true.
Proof.
  apply (@add_keeps_positive_answers sample_postgres
           (set_bits sample_filter [1; 0; 16; 0; 0; 1; 0; 0]) _ (Some [98])); reflexivity.
Defined.

Lemma mightContain_answer_witness :
  exists answer,
    @mightContain sample_postgres sample_filter (Some sample_key) = Some answer /\
    (answer = true <-> @covered sample_postgres sample_filter (Some sample_key)).
Proof.
  apply (@mightContain_answer sample_postgres sample_filter (Some sample_key)).
  exact sample_filter_valid.
Defined.

Lemma set_bit_swap bits i j b1 b2 :
  set_bit bits i = Some b1 -> set_bit b1 j = Some b2 ->
  exists c1, set_bit bits j = Some c1 /\ set_bit c1 i = Some b2.
Proof.
  unfold set_bit.
  destruct (bits !! Z.to_nat (i / 8)) as [x|] eqn:Hx; [|discriminate].
  intros [= <-]. pose proof (lookup_lt_Some _ _ _ Hx) as Hlt.
  destruct (decide (Z.to_nat (i / 8) = Z.to_nat (j / 8))) as [He|Hne].
  - rewrite <- He, list_lookup_insert_eq by exact Hlt. intros [= <-].
    rewrite Hx. eexists. split; [reflexivity|].
    rewrite list_lookup_insert_eq by exact Hlt. f_equal.
    rewrite !list_insert_insert_eq. f_equal.
    rewrite <- !Z.lor_assoc. f_equal. apply Z.lor_comm.
  - rewrite list_lookup_insert_ne by exact Hne.
    destruct (bits !! Z.to_nat (j / 8)) as [y|] eqn:Hy; [|discriminate].
    intros [= <-]. eexists. split; [reflexivity|].
    rewrite list_lookup_insert_ne by auto. rewrite Hx. f_equal.
    apply list_insert_insert_ne. auto.
Qed.

Lemma add_loop_set_bit_swap js : forall bits m h1 h2 i b1 b2,
  set_bit bits i = Some b1 -> add_loop b1 m h1 h2 js = Some b2 ->
  exists c1, add_loop bits m h1 h2 js = Some c1 /\ set_bit c1 i = Some b2.
Proof.
  induction js as [|k js IH]; simpl; intros bits m h1 h2 i b1 b2 Hs.
  - intros [= <-]. eauto.
  - destruct (m =? 0); [discriminate|].
    destruct (set_bit b1 _) as [b1'|] eqn:Hs1; [|discriminate]. intros Hl.
    destruct (set_bit_swap _ _ _ _ _ Hs Hs1) as (c & Hc1 & Hc2).
    rewrite Hc1. eapply IH; eauto.
Qed.

Lemma add_loop_swap js : forall ks bits m h1 h2 g1 g2 b1 b2,
  add_loop bits m h1 h2 js = Some b1 -> add_loop b1 m g1 g2 ks = Some b2 ->
  exists c1, add_loop bits m g1 g2 ks = Some c1 /\ add_loop c1 m h1 h2 js = Some b2.
Proof.
  induction js as [|i js IH]; intros ks bits m h1 h2 g1 g2 b1 b2.
  - simpl. intros [= <-] Hl. eauto.
  - cbn [add_loop]. destruct (m =? 0) eqn:Hm; [discriminate|].
    destruct (set_bit bits _) as [b0|] eqn:Hs; [|discriminate]. intros Hl1 Hl2.
    destruct (IH _ _ _ _ _ _ _ _ _ Hl1 Hl2) as (c0 & Hc0 & Hc0').
    destruct (add_loop_set_bit_swap _ _ _ _ _ _ _ _ Hs Hc0) as (c1 & Hc1 & Hc1').
    exists c1. split; [exact Hc1|]. now rewrite Hc1'.
Qed.

(** X5.  The order of two [add]s does not matter: if adding [x] and then
    [y] is defined, so is adding [y] and then [x], and both leave the same
    object. *)
Theorem add_commutes `{Postgres} (f f1 f2 : OctoBloomFilter) (x y : option (list Z)) :
  add f x = Some f1 -> add f1 y = Some f2 ->
  exists g1, add f y = Some g1 /\ add g1 x = Some f2.
Proof.
  intros Hx Hy.
  destruct (add_inv _ _ _ Hx) as (b1 & Hl1 & ->).
  destruct (add_inv _ _ _ Hy) as (b2 & Hl2 & ->).
  cbn [set_bits bits_ bit_array_size_ num_hashes_] in Hl2.
  destruct (add_loop_swap _ _ _ _ _ _ _ _ _ _ Hl1 Hl2) as (c1 & Hc1 & Hc2).
  exists (set_bits f c1). split; [now apply add_of_loop|].
  now rewrite (add_of_loop (set_bits f c1) x b2).
Qed.

Lemma add_commutes_witness :
  exists g1,
    @add sample_postgres sample_filter (Some [98]) = Some g1 /\
    @add sample_postgres g1 (Some sample_key)
    = Some (set_bits sample_filter [129; 32; 24; 0; 0; 1; 0; 0]).
Proof.
  apply (@add_commutes sample_postgres sample_filter
           (set_bits sample_filter [1; 0; 16; 0; 0; 1; 0; 0])); reflexivity.
Defined.

(** ** [clear] *)

Section ClearRestores.
Context `{Postgres} `{Libm double}.

Lemma evolves_fields f0 f :
  evolves f0 f -> valid_filter f0 ->
  exists bits', f = set_bits f0 bits' /\ length bits' = length (bits_ f0).
Proof.
  induction 1 as [f | f data f1 f2 Ha _ IH | f data f2 _ IH | f target f1 f2 Hrt _ IH];
    intros Hv.
  - exists (bits_ f). split; [now destruct f | reflexivity].
  - destruct (IH (add_valid _ _ _ Hv Ha)) as (bits2 & -> & Hlen).
    destruct (add_fields _ _ _ Ha) as (bits1 & -> & Hlen1).
    exists bits2. split; [reflexivity|]. simpl in Hlen. congruence.
  - now apply IH.
  - rewrite (round_trip_same f target f1 (valid_coherent _ Hv) Hrt) in IH. now apply IH.
Qed.

(** X6.  [clear] takes a filter back to the state its constructor left,
    whatever was added to it since: after any sequence of [add]s, [remove]s
    and round trips on a newly built filter, [clear] is defined and returns
    the newly built object. *)
Theorem clear_restores_the_new_filter (n : Z) (p : double) (f0 f : OctoBloomFilter) :
  0 <= n < 2 ^ 64 -> 0 <= p < 2 ^ 64 ->
  OctoBloomFilter_new n p = Some f0 -> evolves f0 f -> clear f = Some f0.
Proof.
  intros Hn Hp Hnew Hev.
  pose proof (OctoBloomFilter_new_valid n p f0 Hn Hp Hnew) as Hv.
  destruct (evolves_fields f0 f Hev Hv) as (bits' & -> & Hlen).
  destruct (OctoBloomFilter_new_fields _ _ _ Hnew) as (m & k & _ & ->).
  pose proof (byte_count_range m) as Hb.
  unfold clear. cbn [set_bits bits_ byte_array_size_] in *.
  rewrite length_replicate in Hlen.
  destruct (Nat.leb_spec (Z.to_nat (wrap64 (m + 7) / 8)) (length bits')); [|lia].
  rewrite <- Hlen, drop_all, app_nil_r. reflexivity.
Qed.

End ClearRestores.

Lemma clear_restores_the_new_filter_witness :
  clear (set_bits sample_filter [1; 0; 16; 0; 0; 1; 0; 0]) = Some sample_filter.
Proof.
  apply (@clear_restores_the_new_filter sample_postgres sample_libm 4 d_0_1);
    [unfold d_0_1; lia | unfold d_0_1; lia | reflexivity |].
  apply (@evolves_add sample_postgres sample_filter (Some sample_key)
           (set_bits sample_filter [1; 0; 16; 0; 0; 1; 0; 0])); [reflexivity|].
  apply evolves_here.
Defined.

(** ** The buffer of [serialize] *)

Lemma write_at_inv off src buf b' :
  write_at off src buf = Some b' ->
  (off + length src <= length buf)%nat /\ length b' = length buf.
Proof.
  unfold write_at. destruct (Nat.leb_spec (off + length src) (length buf)); [|discriminate].
  intros [= <-]. split; [assumption|].
  rewrite !length_app, length_take, length_drop. lia.
Qed.

Lemma write_at_tail off src buf b' tail :
  write_at off src buf = Some b' -> write_at off src (buf ++ tail) = Some (b' ++ tail).
Proof.
  unfold write_at. destruct (Nat.leb_spec (off + length src) (length buf)); [|discriminate].
  intros [= <-]. rewrite length_app.
  destruct (Nat.leb_spec (off + length src) (length buf + length tail)); [|lia].
  f_equal. rewrite take_app_le by lia. rewrite <- !app_assoc. do 2 f_equal.
  now rewrite drop_app_le by lia.
Qed.

Lemma serialize_tail f buf image tail :
  serialize f buf = Some image -> serialize f (buf ++ tail) = Some (image ++ tail).
Proof.
  unfold serialize.
  destruct (write_at 0 _ buf) as [b1|] eqn:H1; [|discriminate].
  rewrite (write_at_tail _ _ _ _ tail H1). cbn [mbind option_bind].
  destruct (write_at 8 _ b1) as [b2|] eqn:H2; [|discriminate].
  rewrite (write_at_tail _ _ _ _ tail H2). cbn [mbind option_bind].
  destruct (write_at 16 _ b2) as [b3|] eqn:H3; [|discriminate].
  rewrite (write_at_tail _ _ _ _ tail H3). cbn [mbind option_bind].
  destruct (write_at 24 _ b3) as [b4|] eqn:H4; [|discriminate].
  rewrite (write_at_tail _ _ _ _ tail H4). cbn [mbind option_bind].
  destruct (read_at 0 _ (bits_ f)) as [src|]; [|discriminate].
  cbn [mbind option_bind]. apply write_at_tail.
Qed.

Lemma serialize_room f buf image :
  coherent f -> serialize f buf = Some image ->
  getSerializedSize f <= Z.of_nat (length buf).
Proof.
  intros [_ _ _ _ Hbytes Hbits]. unfold serialize.
  destruct (write_at 0 _ buf) as [b1|] eqn:H1; [|discriminate].
  cbn [mbind option_bind].
  destruct (write_at 8 _ b1) as [b2|] eqn:H2; [|discriminate].
  cbn [mbind option_bind].
  destruct (write_at 16 _ b2) as [b3|] eqn:H3; [|discriminate].
  cbn [mbind option_bind].
  destruct (write_at 24 _ b3) as [b4|] eqn:H4; [|discriminate].
  cbn [mbind option_bind].
  apply write_at_inv in H1 as [_ L1]. apply write_at_inv in H2 as [_ L2].
  apply write_at_inv in H3 as [_ L3]. apply write_at_inv in H4 as [_ L4].
  unfold read_at at 1.
  destruct (Nat.leb_spec (0 + Z.to_nat (byte_array_size_ f)) (length (bits_ f))); [|discriminate].
  cbn [mbind option_bind]. intros H5. apply write_at_inv in H5 as [H5 _].
  rewrite length_take, length_drop in H5.
  rewrite getSerializedSize_eq, <- Hbytes. unfold HEADER_SIZE. lia.
Qed.

(** X7.  [serialize] needs [getSerializedSize] bytes and uses no more: on a
    shorter buffer it writes past the end, and on a buffer at least that
    long it writes the header and the bit buffer into the first
    [getSerializedSize] bytes and leaves every later byte as it was. *)
Theorem serialize_uses_exactly_its_size (f : OctoBloomFilter) (buffer : list Z) :
  coherent f ->
  (Z.of_nat (length buffer) < getSerializedSize f -> serialize f buffer = None) /\
  (getSerializedSize f <= Z.of_nat (length buffer) ->
   serialize f buffer
   = Some (header_of f ++ bits_ f ++ drop (Z.to_nat (getSerializedSize f)) buffer)).
Proof.
  intros Hc. split.
  - intros Hshort. destruct (serialize f buffer) as [image|] eqn:Hs; [|reflexivity].
    apply (serialize_room f buffer image Hc) in Hs. lia.
  - intros Hlong.
    rewrite <- (take_drop (Z.to_nat (getSerializedSize f)) buffer) at 1.
    rewrite app_assoc. apply serialize_tail. apply serialize_image; [exact Hc|].
    rewrite length_take. pose proof (byte_count_range (bit_array_size_ f)).
    rewrite getSerializedSize_eq in *. unfold HEADER_SIZE in *. lia.
Qed.

Lemma serialize_uses_exactly_its_size_witness :
  (Z.of_nat (length (replicate 40 170)) < getSerializedSize sample_filter ->
   serialize sample_filter (replicate 40 170) = None) /\
  (getSerializedSize sample_filter <= Z.of_nat (length (replicate 40 170)) ->
   serialize sample_filter (replicate 40 170)
   = Some (header_of sample_filter ++ bits_ sample_filter ++
           drop (Z.to_nat (getSerializedSize sample_filter)) (replicate 40 170))).
Proof.
  apply (serialize_uses_exactly_its_size sample_filter (replicate 40 170)).
  exact (valid_coherent _ sample_filter_valid).
Defined.

(** ** From an image back to the image *)

Lemma le_value_range bs :
  Forall (fun b => 0 <= b < 256) bs -> 0 <= le_value bs < 256 ^ Z.of_nat (length bs).
Proof.
  induction 1 as [|b bs Hb _ IH]; [simpl; lia|].
  cbn [le_value length]. rewrite Nat2Z.inj_succ, Z.pow_succ_r by lia. lia.
Qed.

Lemma le_bytes_le_value bs :
  Forall (fun b => 0 <= b < 256) bs -> le_bytes (length bs) (le_value bs) = bs.
Proof.
  induction 1 as [|b bs Hb _ IH]; [reflexivity|].
  cbn [le_value length le_bytes].
  replace (b + 256 * le_value bs) with (b + le_value bs * 256) by lia. f_equal.
  - rewrite Z.mod_add by lia. now apply Z.mod_small.
  - rewrite Z.div_add by lia. rewrite (Z.div_small b) by lia. exact IH.
Qed.

Lemma read_at_inv off n buf bs :
  read_at off n buf = Some bs ->
  length bs = n /\ (off + n <= length buf)%nat /\ bs = take n (drop off buf).
Proof.
  unfold read_at. destruct (Nat.leb_spec (off + n) (length buf)); [|discriminate].
  intros [= <-]. rewrite length_take, length_drop. repeat split; lia.
Qed.

Lemma take_two_reads (a b : nat) : forall buf : list Z,
  take a buf ++ take b (drop a buf) = take (a + b) buf.
Proof.
  induction a as [|a IH]; intros buf; [reflexivity|].
  destruct buf as [|x buf]; [now rewrite drop_nil, !take_nil|].
  simpl. now rewrite IH.
Qed.

Lemma deserialize_true_inv target buffer size f' :
  deserialize target buffer size = Some (true, f') ->
  exists ec bas fpr nh bits,
    read_at 0 8 buffer = Some ec /\ read_at 8 8 buffer = Some bas /\
    read_at 16 8 buffer = Some fpr /\ read_at 24 4 buffer = Some nh /\
    read_at 28 (Z.to_nat (wrap64 (le_value bas + 7) / 8)) buffer = Some bits /\
    HEADER_SIZE + wrap64 (le_value bas + 7) / 8 <= size /\
    f' = mkFilter bits (le_value nh) (le_value ec) (le_value fpr) (le_value bas)
                  (wrap64 (le_value bas + 7) / 8).
Proof.
  unfold deserialize. destruct (size <? HEADER_SIZE); [discriminate|].
  destruct (read_at 0 8 buffer) as [ec|]; [|discriminate].
  destruct (read_at 8 8 buffer) as [bas|]; [|discriminate].
  destruct (read_at 16 8 buffer) as [fpr|]; [|discriminate].
  destruct (read_at 24 4 buffer) as [nh|]; [|discriminate].
  cbn [mbind option_bind bit_array_size_ num_hashes_ expected_count_ false_positive_rate_].
  pose proof (byte_count_range (le_value bas)) as Hb.
  assert (wrap64 (HEADER_SIZE + wrap64 (le_value bas + 7) / 8)
          = HEADER_SIZE + wrap64 (le_value bas + 7) / 8) as ->.
  { unfold wrap64 at 1, HEADER_SIZE. apply Z.mod_small. lia. }
  destruct (Z.ltb_spec size (HEADER_SIZE + wrap64 (le_value bas + 7) / 8)); [discriminate|].
  destruct (read_at 28 _ buffer) as [bits|] eqn:Hbits; [|discriminate].
  cbn [mbind option_bind]. intros [= <-].
  exists ec, bas, fpr, nh, bits. repeat split; auto.
Qed.

(** X8.  What [deserialize] accepts, [serialize] writes back: when
    [deserialize] returns [true] on a buffer of bytes, the object it leaves
    is coherent, its serialized size is at most [size], and [serialize]
    of it produces the first [getSerializedSize] bytes of that buffer. *)
Theorem deserialize_then_serialize (target f' : OctoBloomFilter) (buffer out : list Z) (size : Z) :
  Forall (fun b => 0 <= b < 256) buffer ->
  deserialize target buffer size = Some (true, f') ->
  Z.of_nat (length out) = getSerializedSize f' ->
  coherent f' /\
  getSerializedSize f' <= size /\
  serialize f' out = Some (take (Z.to_nat (getSerializedSize f')) buffer).
Proof.
  intros Hbytes Hd Hout.
  destruct (deserialize_true_inv _ _ _ _ Hd)
    as (ec & bas & fpr & nh & bits & Hec & Hbas & Hfpr & Hnh & Hbits & Hsize & ->).
  apply read_at_inv in Hec as (Lec & Rec & Eec).
  apply read_at_inv in Hbas as (Lbas & Rbas & Ebas).
  apply read_at_inv in Hfpr as (Lfpr & Rfpr & Efpr).
  apply read_at_inv in Hnh as (Lnh & Rnh & Enh).
  apply read_at_inv in Hbits as (Lbits & Rbits & Ebits).
  assert (forall off n, Forall (fun b => 0 <= b < 256) (take n (drop off buffer))) as Hsub.
  { intros off n. apply Forall_take, Forall_drop, Hbytes. }
  assert (Forall (fun b => 0 <= b < 256) ec) as Bec by (rewrite Eec; apply Hsub).
  assert (Forall (fun b => 0 <= b < 256) bas) as Bbas by (rewrite Ebas; apply Hsub).
  assert (Forall (fun b => 0 <= b < 256) fpr) as Bfpr by (rewrite Efpr; apply Hsub).
  assert (Forall (fun b => 0 <= b < 256) nh) as Bnh by (rewrite Enh; apply Hsub).
  pose proof (le_value_range ec Bec) as Vec. rewrite Lec in Vec.
  pose proof (le_value_range bas Bbas) as Vbas. rewrite Lbas in Vbas.
  pose proof (le_value_range fpr Bfpr) as Vfpr. rewrite Lfpr in Vfpr.
  pose proof (le_value_range nh Bnh) as Vnh. rewrite Lnh in Vnh.
  pose proof (byte_count_range (le_value bas)) as Hb.
  set (f' := mkFilter bits (le_value nh) (le_value ec) (le_value fpr) (le_value bas)
                      (wrap64 (le_value bas + 7) / 8)) in *.
  assert (coherent f') as Hc.
  { constructor; cbn; try (change (2 ^ 64) with (256 ^ 8));
      try (change (2 ^ 32) with (256 ^ 4)); auto. lia. }
  assert (getSerializedSize f' = HEADER_SIZE + wrap64 (le_value bas + 7) / 8) as Hgs
    by apply getSerializedSize_eq.
  split; [exact Hc|]. split; [lia|].
  rewrite (serialize_image f' out Hc Hout). f_equal.
  unfold header_of. cbn [f' expected_count_ bit_array_size_ false_positive_rate_ num_hashes_ bits_].
  rewrite <- Lec at 1. rewrite <- Lbas at 1. rewrite <- Lfpr at 1. rewrite <- Lnh at 1.
  rewrite !le_bytes_le_value by assumption.
  rewrite Hgs. unfold HEADER_SIZE.
  replace (Z.to_nat (8 * 3 + 4 + wrap64 (le_value bas + 7) / 8))
    with (8 + (8 + (8 + (4 + Z.to_nat (wrap64 (le_value bas + 7) / 8)))))%nat by lia.
  rewrite Eec, Ebas, Efpr, Enh, Ebits. rewrite drop_0.
  rewrite <- !take_two_reads, !drop_drop, <- !app_assoc, <- Ebas.
  reflexivity.
Qed.

Lemma deserialize_then_serialize_witness :
  coherent other_filter /\
  getSerializedSize other_filter <= 44 /\
  serialize other_filter (replicate 44 0)
  = Some (take (Z.to_nat (getSerializedSize other_filter)) other_image).
Proof.
  apply (deserialize_then_serialize sample_filter other_filter other_image (replicate 44 0) 44).
  - set (image := other_image). vm_compute in image. subst image.
    repeat (constructor; [lia|]). constructor.
  - reflexivity.
  - reflexivity.
Defined.

(** X9.  A refused image is not left alone.  When [deserialize] returns [false]
    from its second check, the four header members already hold what the
    buffer declares while [bits_] and [byte_array_size_] are the old ones:
    the object is coherent again only if the declared bit count asks for
    as many bytes as the old buffer has. *)
Theorem deserialize_refusal_overwrites_header (f f1 : OctoBloomFilter) (buffer : list Z)
    (size : Z) :
  coherent f -> Forall (fun b => 0 <= b < 256) buffer -> HEADER_SIZE <= size ->
  deserialize f buffer size = Some (false, f1) ->
  bits_ f1 = bits_ f /\ byte_array_size_ f1 = byte_array_size_ f /\
  header_of f1 = take 28 buffer /\
  size < getSerializedSize f1 /\
  (coherent f1 <-> wrap64 (bit_array_size_ f1 + 7) / 8 = byte_array_size_ f).
Proof.
  intros [_ _ _ _ Hfbytes Hfbits] Hbytes Hsize. unfold deserialize.
  destruct (Z.ltb_spec size HEADER_SIZE) as [|_]; [lia|].
  destruct (read_at 0 8 buffer) as [ec|] eqn:Hec; [|discriminate].
  destruct (read_at 8 8 buffer) as [bas|] eqn:Hbas; [|discriminate].
  destruct (read_at 16 8 buffer) as [fpr|] eqn:Hfpr; [|discriminate].
  destruct (read_at 24 4 buffer) as [nh|] eqn:Hnh; [|discriminate].
  cbn [mbind option_bind bit_array_size_].
  destruct (Z.ltb_spec size (wrap64 (HEADER_SIZE + wrap64 (le_value bas + 7) / 8)))
    as [Hshort|_].
  2:{ destruct (read_at 28 _ buffer); discriminate. }
  intros [= <-].
  apply read_at_inv in Hec as (Lec & Rec & Eec).
  apply read_at_inv in Hbas as (Lbas & Rbas & Ebas).
  apply read_at_inv in Hfpr as (Lfpr & Rfpr & Efpr).
  apply read_at_inv in Hnh as (Lnh & Rnh & Enh).
  assert (forall off n, Forall (fun b => 0 <= b < 256) (take n (drop off buffer))) as Hsub.
  { intros off n. apply Forall_take, Forall_drop, Hbytes. }
  assert (Forall (fun b => 0 <= b < 256) ec) as Bec by (rewrite Eec; apply Hsub).
  assert (Forall (fun b => 0 <= b < 256) bas) as Bbas by (rewrite Ebas; apply Hsub).
  assert (Forall (fun b => 0 <= b < 256) fpr) as Bfpr by (rewrite Efpr; apply Hsub).
  assert (Forall (fun b => 0 <= b < 256) nh) as Bnh by (rewrite Enh; apply Hsub).
  pose proof (le_value_range ec Bec) as Vec. rewrite Lec in Vec.
  pose proof (le_value_range bas Bbas) as Vbas. rewrite Lbas in Vbas.
  pose proof (le_value_range fpr Bfpr) as Vfpr. rewrite Lfpr in Vfpr.
  pose proof (le_value_range nh Bnh) as Vnh. rewrite Lnh in Vnh.
  cbn [bits_ byte_array_size_ bit_array_size_].
  split; [reflexivity|]. split; [reflexivity|]. split; [|split; [exact Hshort|]].
  - unfold header_of.
    cbn [expected_count_ bit_array_size_ false_positive_rate_ num_hashes_].
    rewrite <- Lec at 1. rewrite <- Lbas at 1. rewrite <- Lfpr at 1. rewrite <- Lnh at 1.
    rewrite !le_bytes_le_value by assumption.
    rewrite Eec, Ebas, Efpr, Enh. rewrite drop_0.
    change 28%nat with (8 + (8 + (8 + 4)))%nat.
    now rewrite <- !take_two_reads, !drop_drop.
  - split.
    + intros [_ _ _ _ Hb _]. cbn in Hb. congruence.
    + intros Hsame. constructor; cbn; try (change (2 ^ 64) with (256 ^ 8));
        try (change (2 ^ 32) with (256 ^ 4)); auto; congruence.
Qed.

Lemma deserialize_refusal_overwrites_header_witness :
  bits_ (mkFilter (replicate 8 0) 2 8 d_0_1 128 8) = bits_ sample_filter /\
  byte_array_size_ (mkFilter (replicate 8 0) 2 8 d_0_1 128 8) = byte_array_size_ sample_filter /\
  header_of (mkFilter (replicate 8 0) 2 8 d_0_1 128 8) = take 28 other_image /\
  43 < getSerializedSize (mkFilter (replicate 8 0) 2 8 d_0_1 128 8) /\
  (coherent (mkFilter (replicate 8 0) 2 8 d_0_1 128 8) <->
   wrap64 (bit_array_size_ (mkFilter (replicate 8 0) 2 8 d_0_1 128 8) + 7) / 8
   = byte_array_size_ sample_filter).
Proof.
  apply (deserialize_refusal_overwrites_header sample_filter _ other_image 43).
  - exact (valid_coherent _ sample_filter_valid).
  - set (image := other_image). vm_compute in image. subst image.
    repeat (constructor; [lia|]). constructor.
  - unfold HEADER_SIZE. lia.
  - reflexivity.
Defined.

(** ** The registry: new keys, removal, and what a call leaves behind *)

Section Registry.
Context `{Libm double}.

Lemma register_absent_run (s : backend) tbl col n p f gs1 gs2 gs3 :
  registry_of s !! (tbl, col) = None ->
  next_grant (grants s) = (true, gs1) ->
  next_grant gs1 = (true, gs2) ->
  next_grant gs2 = (true, gs3) ->
  OctoBloomFilter_new n p = Some f ->
  let l := fresh (dom (heap s)) in
  register_bloom_filter tbl col n p s =
  (Returns true,
   mkBackend
     (Some (mkShared (<[(tbl, col) := mkEntry tbl col (Loc l) n p 0 true]> (registry_of s))
                     (match bloom_shared_state s with
                      | Some sh => max_filters sh
                      | None => 10
                      end)))
     (<[l := Some f]> (heap s)) gs3).
Proof.
  intros Habs Hg1 Hg2 Hg3 Hnew l.
  destruct s as [ss hp gs]. simpl in Hg1, l, Habs.
  assert (exists reg mf,
    (ss = None /\ reg = ∅ /\ mf = 10 \/ ss = Some (mkShared reg mf)) /\
    reg !! (tbl, col) = None) as (reg & mf & Hss & Hreg).
  { unfold registry_of in Habs. simpl in Habs. destruct ss as [[reg mf]|].
    - exists reg, mf. split; [now right | exact Habs].
    - exists ∅, 10. split; [now left | apply lookup_empty]. }
  assert (register_bloom_filter tbl col n p (mkBackend ss hp gs)
          = register_bloom_filter tbl col n p (mkBackend (Some (mkShared reg mf)) hp gs)) as ->.
  { destruct Hss as [(-> & -> & ->)| ->]; reflexivity. }
  replace (registry_of (mkBackend ss hp gs)) with reg
    by (destruct Hss as [(-> & -> & ->)| ->]; reflexivity).
  replace (match bloom_shared_state (mkBackend ss hp gs) with
           | Some sh => max_filters sh
           | None => 10
           end) with mf by (destruct Hss as [(-> & -> & ->)| ->]; reflexivity).
  cbn [heap]. clear Hss Habs ss.
  unfold register_bloom_filter, mbind, M_bind, bind, get_state, ret.
  cbn [bloom_shared_state].
  unfold hash_enter, hash_find, request, mbind, M_bind, bind, get_state, put_state, ret,
    registry_of.
  cbn [bloom_shared_state bloom_registry grants heap max_filters]. rewrite Hreg.
  cbn [bloom_shared_state bloom_registry grants heap max_filters]. rewrite Hg1.
  cbn [bloom_shared_state bloom_registry grants heap max_filters].
  rewrite lookup_insert_eq.
  unfold update_entry, palloc_object, request, mbind, M_bind, bind, get_state, put_state, ret.
  cbn [bloom_shared_state bloom_registry grants heap max_filters fst snd]. rewrite Hg2.
  cbn [bloom_shared_state bloom_registry grants heap max_filters]. fold l.
  unfold construct_at. rewrite Hnew.
  unfold request, mbind, M_bind, bind, get_state, put_state, ret.
  cbn [bloom_shared_state bloom_registry grants heap max_filters]. rewrite Hg3.
  cbn [bloom_shared_state bloom_registry grants heap max_filters].
  f_equal. f_equal; [|apply insert_insert_eq].
  f_equal. f_equal.
  rewrite !alter_insert_eq. reflexivity.
Qed.

Lemma unregister_present_run (s : backend) sh tbl col e :
  bloom_shared_state s = Some sh ->
  bloom_registry sh !! (tbl, col) = Some e ->
  releasable (filter e) (heap s) ->
  unregister_bloom_filter tbl col s =
  (Returns tt,
   mkBackend (Some (mkShared (delete (tbl, col) (bloom_registry sh)) (max_filters sh)))
             (released (filter e) (heap s)) (grants s)).
Proof.
  intros Hs He Hrel. destruct s as [ss hp gs]. simpl in Hs, Hrel. subst ss.
  unfold unregister_bloom_filter, mbind, M_bind, bind, get_state, put_state, ret.
  cbn [bloom_shared_state]. rewrite He.
  unfold releasable, released in *. cbn [heap grants].
  destruct (filter e) as [|l|]; [reflexivity| |contradiction].
  unfold destroy_filter, mbind, M_bind, bind, get_state, put_state.
  cbn [heap]. destruct Hrel as [o ->]. reflexivity.
Qed.

Lemma unregister_absent_run (s : backend) tbl col :
  registry_of s !! (tbl, col) = None ->
  unregister_bloom_filter tbl col s = (Returns tt, s).
Proof.
  intros Habs. unfold unregister_bloom_filter, mbind, M_bind, bind, get_state, ret.
  unfold registry_of in Habs.
  destruct (bloom_shared_state s) as [sh|]; [|reflexivity]. now rewrite Habs.
Qed.

End Registry.

Section RegisterOutcome.
Context `{Libm double}.

Ltac split_match :=
  match goal with
  | |- context [match ?x with _ => _ end] =>
      lazymatch x with
      | context [match _ with _ => _ end] => fail
      | _ => destruct x eqn:?
      end
  end.

Ltac split_match_in Hrun :=
  match type of Hrun with
  | context [match ?x with _ => _ end] =>
      lazymatch x with
      | context [match _ with _ => _ end] => fail
      | _ => destruct x eqn:?
      end
  end.

Lemma register_true_inv (tbl col n : Z) (p : double) (s s' : backend) :
  register_bloom_filter tbl col n p s = (Returns true, s') ->
  exists l f e',
    OctoBloomFilter_new n p = Some f /\
    registry_of s' !! (tbl, col) = Some e' /\
    filter e' = Loc l /\ expected_count e' = n /\ false_positive_rate e' = p /\
    current_count e' = 0 /\ is_valid e' = true /\
    heap s' !! l = Some (Some f) /\
    (forall key, key <> (tbl, col) -> registry_of s' !! key = registry_of s !! key) /\
    (forall l', l' <> l ->
                (forall e, registry_of s !! (tbl, col) = Some e -> filter e <> Loc l') ->
                heap s' !! l' = heap s !! l') /\
    (heap s !! l = None \/
     exists e, registry_of s !! (tbl, col) = Some e /\ filter e = Loc l).
Proof.
  unfold register_bloom_filter, hash_enter, hash_find, update_entry, palloc_object,
    construct_at, destroy_filter, init_shared_memory, request, registry_of,
    mbind, M_bind, bind, get_state, put_state, ret, ereport, undefined.
  destruct s as [ss hp gs]. cbn [bloom_shared_state heap grants].
  intros Hrun.
  repeat (split_match_in Hrun;
          cbn [bloom_shared_state bloom_registry heap grants max_filters fst snd] in *;
          try discriminate).
  all: injection Hrun as <-.
  all: cbn [bloom_shared_state bloom_registry heap grants max_filters fst snd] in *.
  all: eexists _, _, _; split; [reflexivity|]; split;
    [ rewrite !lookup_alter_eq, ?lookup_insert_eq;
      try (match goal with Hl : _ !! _ = Some _ |- _ => rewrite Hl end); reflexivity |];
    cbn; repeat split;
    [ apply lookup_insert_eq
    | intros key Hne; rewrite !lookup_alter_ne, ?lookup_insert_ne by auto; reflexivity
    | intros l' Hl' Hold; rewrite !lookup_insert_ne by auto;
      try (rewrite lookup_delete_ne;
           [reflexivity | intros ->; apply (Hold _ eq_refl); congruence]);
      reflexivity
    | ].
  all: try (left; apply not_elem_of_dom, is_fresh).
  all: match goal with
       | |- ?h !! fresh (dom (delete ?old ?h)) = None \/ _ =>
           destruct (decide (fresh (dom (delete old h)) = old)) as [Heq|Hne];
           [ right; eexists; split; [reflexivity | congruence]
           | left; rewrite <- (lookup_delete_ne h old) by auto;
             apply not_elem_of_dom, is_fresh ]
       end.
Qed.

(** X11.  Whenever [register_bloom_filter] returns [true], the key maps to
    an entry that is valid, carries the requested count and rate and a zero
    [current_count], and points at the object the constructor builds from
    them; the entries under every other key are as before, and so is every
    heap object other than the new one and the entry's previous filter. *)
Theorem register_success_postcondition (tbl col n : Z) (p : double) (s s' : backend) :
  register_bloom_filter tbl col n p s = (Returns true, s') ->
  exists l f e',
    OctoBloomFilter_new n p = Some f /\
    registry_of s' !! (tbl, col) = Some e' /\
    filter e' = Loc l /\ expected_count e' = n /\ false_positive_rate e' = p /\
    current_count e' = 0 /\ is_valid e' = true /\
    heap s' !! l = Some (Some f) /\
    (forall key, key <> (tbl, col) -> registry_of s' !! key = registry_of s !! key) /\
    (forall l', l' <> l ->
                (forall e, registry_of s !! (tbl, col) = Some e -> filter e <> Loc l') ->
                heap s' !! l' = heap s !! l') /\
    (heap s !! l = None \/
     exists e, registry_of s !! (tbl, col) = Some e /\ filter e = Loc l).
Proof.
  unfold register_bloom_filter, hash_enter, hash_find, update_entry, palloc_object,
    construct_at, destroy_filter, init_shared_memory, request, registry_of,
    mbind, M_bind, bind, get_state, put_state, ret, ereport, undefined.
  destruct s as [ss hp gs]. cbn [bloom_shared_state heap grants].
  intros Hrun.
  repeat (split_match_in Hrun;
          cbn [bloom_shared_state bloom_registry heap grants max_filters fst snd] in *;
          try discriminate).
  all: injection Hrun as <-.
  all: cbn [bloom_shared_state bloom_registry heap grants max_filters fst snd] in *.
  all: eexists _, _, _; split; [reflexivity|]; split;
    [ rewrite !lookup_alter_eq, ?lookup_insert_eq;
      try (match goal with Hl : _ !! _ = Some _ |- _ => rewrite Hl end); reflexivity |];
    cbn; repeat split;
    [ apply lookup_insert_eq
    | intros key Hne; rewrite !lookup_alter_ne, ?lookup_insert_ne by auto; reflexivity
    | intros l' Hl' Hold; rewrite !lookup_insert_ne by auto;
      try (rewrite lookup_delete_ne;
           [reflexivity | intros ->; apply (Hold _ eq_refl); congruence]);
      reflexivity
    | ].
  all: try (left; apply not_elem_of_dom, is_fresh).
  all: match goal with
       | |- ?h !! fresh (dom (delete ?old ?h)) = None \/ _ =>
           destruct (decide (fresh (dom (delete old h)) = old)) as [Heq|Hne];
           [ right; eexists; split; [reflexivity | congruence]
           | left; rewrite <- (lookup_delete_ne h old) by auto;
             apply not_elem_of_dom, is_fresh ]
       end.
Qed.

(** X12.  On a key that has no entry, also when the shared state does not
    exist yet, with the three requests for memory granted and parameters
    the constructor accepts, [register_bloom_filter] returns [true]: the
    registry gains exactly one entry, valid, with the given parameters and a
    zero count, and the heap gains exactly one object, the new filter, at an
    address that was free. *)
Theorem register_new_key (s : backend) tbl col n p f gs1 gs2 gs3 :
  registry_of s !! (tbl, col) = None ->
  next_grant (grants s) = (true, gs1) ->
  next_grant gs1 = (true, gs2) ->
  next_grant gs2 = (true, gs3) ->
  OctoBloomFilter_new n p = Some f ->
  exists s' l,
    register_bloom_filter tbl col n p s = (Returns true, s') /\
    registry_of s' = <[(tbl, col) := mkEntry tbl col (Loc l) n p 0 true]> (registry_of s) /\
    size (registry_of s') = S (size (registry_of s)) /\
    heap s !! l = None /\
    heap s' = <[l := Some f]> (heap s) /\
    grants s' = gs3.
Proof.
  intros Habs Hg1 Hg2 Hg3 Hnew.
  eexists _, (fresh (dom (heap s))).
  split; [now apply (register_absent_run s tbl col n p f gs1 gs2 gs3)|].
  unfold registry_of at 1 3. cbn [bloom_shared_state bloom_registry heap grants].
  split; [reflexivity|]. split; [now apply map_size_insert_None|].
  split; [apply not_elem_of_dom, is_fresh|]. split; reflexivity.
Qed.

End RegisterOutcome.

Lemma register_success_postcondition_witness :
  exists l f e',
    @OctoBloomFilter_new sample_libm 4 d_0_1 = Some f /\
    registry_of sample_backend_registered !! (16384, 1) = Some e' /\
    filter e' = Loc l /\ expected_count e' = 4 /\ false_positive_rate e' = d_0_1 /\
    current_count e' = 0 /\ is_valid e' = true /\
    heap sample_backend_registered !! l = Some (Some f) /\
    (forall key, key <> (16384, 1) ->
       registry_of sample_backend_registered !! key = registry_of (mkBackend None ∅ []) !! key) /\
    (forall l', l' <> l ->
                (forall e, registry_of (mkBackend None ∅ []) !! (16384, 1) = Some e ->
                           filter e <> Loc l') ->
                heap sample_backend_registered !! l' = heap (mkBackend None ∅ []) !! l') /\
    (heap (mkBackend None ∅ []) !! l = None \/
     exists e, registry_of (mkBackend None ∅ []) !! (16384, 1) = Some e /\ filter e = Loc l).
Proof.
  apply (@register_success_postcondition sample_libm 16384 1 4 d_0_1 (mkBackend None ∅ [])).
  reflexivity.
Defined.

Lemma register_new_key_witness :
  exists s' l,
    @register_bloom_filter sample_libm 999 1 4 d_0_1 (sample_backend []) = (Returns true, s') /\
    registry_of s' = <[(999, 1) := mkEntry 999 1 (Loc l) 4 d_0_1 0 true]>
                       (registry_of (sample_backend [])) /\
    size (registry_of s') = S (size (registry_of (sample_backend []))) /\
    heap (sample_backend []) !! l = None /\
    heap s' = <[l := Some sample_filter]> (heap (sample_backend [])) /\
    grants s' = [].
Proof.
  apply (@register_new_key sample_libm (sample_backend []) 999 1 4 d_0_1 sample_filter [] [] []);
    reflexivity.
Defined.

Section RegistryCalls.
Context `{Postgres} `{Libm double}.

Lemma octo_bloom_might_contain_run (s : backend) (tbl : Z) (column_name : string)
    (value_text : option (list Z)) :
  get_attnum tbl column_name <> InvalidAttrNumber ->
  octo_bloom_might_contain tbl column_name value_text s =
  match (match registry_of s !! (tbl, get_attnum tbl column_name) with
         | Some e => if is_valid e then filter e else Null
         | None => Null
         end) with
  | Null => (Returns true, s)
  | Indeterminate => (Undefined, s)
  | Loc l =>
      match heap s !! l with
      | Some (Some f) =>
          if bit_array_size_ f =? 0 then (Returns true, s)
          else match value_text with
               | None => (Returns true, s)
               | Some bytes =>
                   match mightContain f (Some bytes) with
                   | Some answer => (Returns answer, s)
                   | None => (Undefined, s)
                   end
               end
      | _ => (Undefined, s)
      end
  end.
Proof.
  intros Hcol. unfold octo_bloom_might_contain.
  destruct (Z.eqb_spec (get_attnum tbl column_name) InvalidAttrNumber); [contradiction|].
  unfold mbind, M_bind, bind. rewrite get_bloom_filter_eq.
  destruct (match registry_of s !! (tbl, get_attnum tbl column_name) with
            | Some e => if is_valid e then filter e else Null
            | None => Null
            end) as [|l|]; try reflexivity.
  unfold get_state, getBitArraySize.
  destruct (heap s !! l) as [[f|]|]; try reflexivity.
  destruct (bit_array_size_ f =? 0); [reflexivity|].
  destruct value_text as [bytes|]; [|reflexivity].
  destruct (mightContain f (Some bytes)); reflexivity.
Qed.

Lemma register_then_empty_answer (tbl : Z) (column_name : string) (n : Z) (p : double)
    (bytes : list Z) (s s' : backend) :
  0 <= n < 2 ^ 64 -> 0 <= p < 2 ^ 64 ->
  get_attnum tbl column_name <> InvalidAttrNumber ->
  register_bloom_filter tbl (get_attnum tbl column_name) n p s = (Returns true, s') ->
  octo_bloom_might_contain tbl column_name (Some bytes) s' = (Returns false, s').
Proof.
  intros Hn Hp Hcol Hreg.
  destruct (register_true_inv _ _ _ _ _ _ Hreg)
    as (l & f & e' & Hnew & He' & Hf & _ & _ & _ & Hv & Hl & _).
  rewrite octo_bloom_might_contain_run by exact Hcol.
  rewrite He', Hv, Hf, Hl.
  pose proof (OctoBloomFilter_new_valid n p f Hn Hp Hnew) as Hvalid.
  destruct (Z.eqb_spec (bit_array_size_ f) 0) as [Hz|_].
  { destruct Hvalid as [_ Hsize _]. lia. }
  rewrite (mightContain_zeros f (Some bytes) Hvalid); [reflexivity|].
  destruct (OctoBloomFilter_new_fields _ _ _ Hnew) as (m & k & _ & ->).
  simpl. now rewrite length_replicate.
Qed.

(** X13.  [unregister_bloom_filter] on a key whose entry has a null or live
    filter pointer returns without asking for memory: the entry is gone, its
    filter object is freed, every other entry and object is untouched,
    [get_bloom_filter] then yields null and the SQL membership call answers
    [true] for every value.  On a key with no entry it changes nothing. *)
Theorem unregister_removes_the_entry (s : backend) (tbl : Z) (column_name : string)
    (value_text : option (list Z)) :
  let col := get_attnum tbl column_name in
  col <> InvalidAttrNumber ->
  (registry_of s !! (tbl, col) = None ->
   unregister_bloom_filter tbl col s = (Returns tt, s)) /\
  (forall e,
      registry_of s !! (tbl, col) = Some e -> releasable (filter e) (heap s) ->
      exists s',
        unregister_bloom_filter tbl col s = (Returns tt, s') /\
        registry_of s' = delete (tbl, col) (registry_of s) /\
        heap s' = released (filter e) (heap s) /\
        grants s' = grants s /\
        get_bloom_filter tbl col s' = (Returns Null, s') /\
        octo_bloom_might_contain tbl column_name value_text s' = (Returns true, s')).
Proof.
  intros col Hcol. split; [apply unregister_absent_run|].
  intros e He Hrel. unfold registry_of in He.
  destruct (bloom_shared_state s) as [sh|] eqn:Hs; [|now rewrite lookup_empty in He].
  eexists. split; [now apply (unregister_present_run s sh tbl col e)|].
  unfold registry_of at 1. cbn [bloom_shared_state bloom_registry heap grants].
  assert (registry_of s = bloom_registry sh) as -> by (unfold registry_of; now rewrite Hs).
  repeat split.
  - rewrite get_bloom_filter_eq. unfold registry_of. cbn [bloom_shared_state bloom_registry].
    now rewrite lookup_delete_eq.
  - rewrite octo_bloom_might_contain_run by exact Hcol. fold col.
    unfold registry_of. cbn [bloom_shared_state bloom_registry].
    now rewrite lookup_delete_eq.
Qed.

(** X14.  Registering a key that had no entry and then unregistering it
    gives back the registry of before, and the filter object the first call
    made, at an address that was free, is the one the second destroys.  The
    heap of the model holds the filter objects only: the bit buffer that the
    constructor requested with the third grant is not returned by the
    defaulted destructor, and is no part of this statement. *)
Theorem register_then_unregister (s : backend) tbl col n p f gs1 gs2 gs3 :
  registry_of s !! (tbl, col) = None ->
  next_grant (grants s) = (true, gs1) ->
  next_grant gs1 = (true, gs2) ->
  next_grant gs2 = (true, gs3) ->
  OctoBloomFilter_new n p = Some f ->
  exists s' s'' l,
    register_bloom_filter tbl col n p s = (Returns true, s') /\
    unregister_bloom_filter tbl col s' = (Returns tt, s'') /\
    registry_of s'' = registry_of s /\
    heap s !! l = None /\
    heap s' = <[l := Some f]> (heap s) /\
    heap s'' = delete l (heap s') /\
    grants s'' = gs3.
Proof.
  intros Habs Hg1 Hg2 Hg3 Hnew.
  eexists _, _, (fresh (dom (heap s))).
  split; [now apply (register_absent_run s tbl col n p f gs1 gs2 gs3)|].
  split.
  - eapply unregister_present_run; [reflexivity | apply lookup_insert_eq |].
    cbn [filter releasable heap]. rewrite lookup_insert_eq. eauto.
  - unfold registry_of at 1. cbn [bloom_shared_state bloom_registry heap filter released grants].
    split; [now apply delete_insert_id|].
    split; [apply not_elem_of_dom, is_fresh|].
    repeat split.
Qed.

(** X15.  When registering a key that had no entry, if the table grants the
    entry and [palloc] then refuses the filter object, the call leaves by
    [ERRCODE_OUT_OF_MEMORY] with the new entry in the registry, marked valid,
    its [filter] member never assigned: [get_bloom_filter] returns that
    indeterminate pointer and the SQL membership call on the key is
    undefined. *)
Theorem register_new_key_refused (s : backend) (tbl : Z) (column_name : string)
    (n : Z) (p : double) (value_text : option (list Z)) gs1 gs2 :
  let col := get_attnum tbl column_name in
  col <> InvalidAttrNumber ->
  registry_of s !! (tbl, col) = None ->
  next_grant (grants s) = (true, gs1) ->
  next_grant gs1 = (false, gs2) ->
  exists s',
    register_bloom_filter tbl col n p s = (Raises ERRCODE_OUT_OF_MEMORY, s') /\
    registry_of s' = <[(tbl, col) := mkEntry tbl col Indeterminate n p 0 true]> (registry_of s) /\
    heap s' = heap s /\
    get_bloom_filter tbl col s' = (Returns Indeterminate, s') /\
    octo_bloom_might_contain tbl column_name value_text s' = (Undefined, s').
Proof.
  intros col Hcol Habs Hg1 Hg2.
  assert (exists s',
    register_bloom_filter tbl col n p s = (Raises ERRCODE_OUT_OF_MEMORY, s') /\
    registry_of s' = <[(tbl, col) := mkEntry tbl col Indeterminate n p 0 true]> (registry_of s) /\
    heap s' = heap s) as (s' & Hrun & Hreg & Hheap).
  { destruct s as [ss hp gs]. simpl in Hg1.
    unfold register_bloom_filter, hash_enter, hash_find, update_entry, palloc_object,
      init_shared_memory, request, mbind, M_bind, bind, get_state, put_state, ret, ereport.
    unfold registry_of in *. cbn [bloom_shared_state heap grants] in *.
    destruct ss as [[reg mf]|]; cbn [bloom_shared_state bloom_registry heap grants max_filters] in *.
    - rewrite Habs. cbn [bloom_shared_state bloom_registry heap grants max_filters].
      rewrite Hg1. cbn [bloom_shared_state bloom_registry heap grants max_filters].
      rewrite lookup_insert_eq.
      cbn [bloom_shared_state bloom_registry heap grants max_filters]. rewrite Hg2.
      eexists. split; [reflexivity|].
      cbn [bloom_shared_state bloom_registry heap grants max_filters].
      split; [|reflexivity]. now rewrite alter_insert_eq.
    - rewrite lookup_empty. cbn [bloom_shared_state bloom_registry heap grants max_filters].
      rewrite Hg1. cbn [bloom_shared_state bloom_registry heap grants max_filters].
      rewrite lookup_insert_eq.
      cbn [bloom_shared_state bloom_registry heap grants max_filters]. rewrite Hg2.
      eexists. split; [reflexivity|].
      cbn [bloom_shared_state bloom_registry heap grants max_filters].
      split; [|reflexivity]. now rewrite alter_insert_eq. }
  exists s'. split; [exact Hrun|]. split; [exact Hreg|]. split; [exact Hheap|].
  rewrite get_bloom_filter_eq, octo_bloom_might_contain_run by exact Hcol. fold col.
  rewrite Hreg, lookup_insert_eq. split; reflexivity.
Qed.

End RegistryCalls.

Lemma unregister_removes_the_entry_witness :
  (registry_of (sample_backend []) !! (16384, @get_attnum sample_postgres 16384 "email") = None ->
   unregister_bloom_filter 16384 (@get_attnum sample_postgres 16384 "email") (sample_backend [])
   = (Returns tt, sample_backend [])) /\
  (forall e,
      registry_of (sample_backend []) !! (16384, @get_attnum sample_postgres 16384 "email") = Some e ->
      releasable (filter e) (heap (sample_backend [])) ->
      exists s',
        unregister_bloom_filter 16384 (@get_attnum sample_postgres 16384 "email") (sample_backend [])
        = (Returns tt, s') /\
        registry_of s' = delete (16384, @get_attnum sample_postgres 16384 "email")
                           (registry_of (sample_backend [])) /\
        heap s' = released (filter e) (heap (sample_backend [])) /\
        grants s' = grants (sample_backend []) /\
        get_bloom_filter 16384 (@get_attnum sample_postgres 16384 "email") s' = (Returns Null, s') /\
        @octo_bloom_might_contain sample_postgres 16384 "email" (Some sample_key) s'
        = (Returns true, s')).
Proof.
  apply (@unregister_removes_the_entry sample_postgres (sample_backend []) 16384 "email"
           (Some sample_key)).
  discriminate.
Defined.

Lemma register_then_unregister_witness :
  exists s' s'' l,
    @register_bloom_filter sample_libm 999 1 4 d_0_1 (sample_backend []) = (Returns true, s') /\
    unregister_bloom_filter 999 1 s' = (Returns tt, s'') /\
    registry_of s'' = registry_of (sample_backend []) /\
    heap (sample_backend []) !! l = None /\
    heap s' = <[l := Some sample_filter]> (heap (sample_backend [])) /\
    heap s'' = delete l (heap s') /\
    grants s'' = [].
Proof.
  apply (@register_then_unregister sample_libm (sample_backend []) 999 1 4 d_0_1 sample_filter
           [] [] []); reflexivity.
Defined.

Lemma register_new_key_refused_witness :
  exists s',
    @register_bloom_filter sample_libm 999 (@get_attnum sample_postgres 999 "email") 4 d_0_1
      (sample_backend [true; false]) = (Raises ERRCODE_OUT_OF_MEMORY, s') /\
    registry_of s' = <[(999, @get_attnum sample_postgres 999 "email") :=
                         mkEntry 999 (@get_attnum sample_postgres 999 "email") Indeterminate
                           4 d_0_1 0 true]> (registry_of (sample_backend [true; false])) /\
    heap s' = heap (sample_backend [true; false]) /\
    get_bloom_filter 999 (@get_attnum sample_postgres 999 "email") s'
    = (Returns Indeterminate, s') /\
    @octo_bloom_might_contain sample_postgres 999 "email" (Some sample_key) s' = (Undefined, s').
Proof.
  apply (@register_new_key_refused sample_postgres sample_libm (sample_backend [true; false])
           999 "email" 4 d_0_1 (Some sample_key) [false] []).
  - discriminate.
  - reflexivity.
  - reflexivity.
  - reflexivity.
Defined.

(** ** [octo_bloom_init] *)

Lemma double_fields (p : double) :
  0 <= p < 2 ^ 64 ->
  0 <= double_exponent p < 2 ^ 11 /\ 0 <= double_fraction p < 2 ^ 52 /\
  p = (if double_sign p then 2 ^ 63 else 0) + double_exponent p * 2 ^ 52 + double_fraction p.
Proof.
  intros Hp. unfold double_exponent, double_fraction, double_sign.
  pose proof (Z.mod_pos_bound (p / 2 ^ 52) (2 ^ 11) ltac:(lia)) as He.
  pose proof (Z.mod_pos_bound p (2 ^ 52) ltac:(lia)) as Hf.
  split; [exact He|]. split; [exact Hf|].
  pose proof (Z.div_mod p (2 ^ 52) ltac:(lia)) as Hd.
  pose proof (Z.div_mod (p / 2 ^ 52) (2 ^ 11) ltac:(lia)) as Hd2.
  assert (p / 2 ^ 52 / 2 ^ 11 = p / 2 ^ 63) as Hq
    by (rewrite Z.div_div by lia; reflexivity).
  rewrite Hq in Hd2.
  assert (0 <= p / 2 ^ 63 < 2) as Hs.
  { split; [apply Z.div_pos; lia | apply Z.div_lt_upper_bound; lia]. }
  assert (Z.testbit p 63 = (p / 2 ^ 63 =? 1)) as ->.
  { assert (p / 2 ^ 63 = 0 \/ p / 2 ^ 63 = 1) as [Hz|Hz] by lia; rewrite Hz.
    - apply Z.testbit_false; [lia | now rewrite Hz].
    - apply Z.testbit_true; [lia | now rewrite Hz]. }
  destruct (Z.eqb_spec (p / 2 ^ 63) 1); lia.
Qed.

Lemma double_one_scaled : double_is_nan DOUBLE_ONE = false /\ double_scaled DOUBLE_ONE = 2 ^ 52 * 2 ^ 1022.
Proof. split; reflexivity. Qed.

(** The rates that pass the second check of [octo_bloom_init]: the patterns
    strictly between those of [+0.0] and [1.0], and the NaNs. *)
Lemma rate_check (p : double) :
  0 <= p < 2 ^ 64 ->
  (double_le p DOUBLE_ZERO || double_le DOUBLE_ONE p = false <->
   0 < p < DOUBLE_ONE \/ double_is_nan p = true).
Proof.
  intros Hp. destruct (double_fields p Hp) as (He & Hf & Hfields).
  destruct double_one_scaled as [Hn1 Hs1].
  unfold double_le. rewrite Hn1, Hs1.
  change (double_is_nan DOUBLE_ZERO) with false.
  change (double_scaled DOUBLE_ZERO) with 0.
  destruct (double_is_nan p) eqn:Hnan; cbn [negb andb orb].
  { split; [now right | reflexivity]. }
  unfold double_is_nan in Hnan. unfold double_scaled.
  assert (DOUBLE_ONE = 1023 * 2 ^ 52) as HONE by reflexivity.
  set (e := double_exponent p) in *. set (m := double_fraction p) in *.
  assert (0 < 2 ^ (e - 1) \/ e = 0) as Hpow.
  { destruct (Z.eq_dec e 0); [now right | left; apply Z.pow_pos_nonneg; lia]. }
  destruct (double_sign p).
  - (* negative: rejected by the first comparison *)
    assert ((- (if e =? 0 then m else (2 ^ 52 + m) * 2 ^ (e - 1)) <=? 0) = true) as ->.
    { apply Z.leb_le. destruct (Z.eqb_spec e 0); [lia|]. destruct Hpow; [nia|lia]. }
    cbn [orb]. split; [discriminate|]. intros [Hr|]; [|discriminate].
    rewrite HONE in Hr. lia.
  - destruct (Z.eqb_spec e 0) as [He0|He0].
    + (* zero and subnormals *)
      assert ((2 ^ 52 * 2 ^ 1022 <=? m) = false) as ->.
      { apply Z.leb_gt. assert (0 < 2 ^ 1022) by (apply Z.pow_pos_nonneg; lia). nia. }
      rewrite orb_false_r, HONE, Hfields, He0.
      destruct (Z.leb_spec m 0); split.
      * discriminate.
      * intros [|]; [lia | discriminate].
      * intros _. left. lia.
      * reflexivity.
    + destruct Hpow as [Hpow|]; [|contradiction].
      assert (((2 ^ 52 + m) * 2 ^ (e - 1) <=? 0) = false) as -> by (apply Z.leb_gt; nia).
      cbn [orb]. rewrite HONE, Hfields.
      destruct (Z.le_gt_cases 1023 e) as [Hbig|Hsmall].
      * assert (2 ^ 1022 <= 2 ^ (e - 1)) by (apply Z.pow_le_mono_r; lia).
        assert ((2 ^ 52 * 2 ^ 1022 <=? (2 ^ 52 + m) * 2 ^ (e - 1)) = true) as ->
          by (apply Z.leb_le; nia).
        split; [discriminate|]. intros [|]; [lia | discriminate].
      * assert (2 * 2 ^ (e - 1) <= 2 ^ 1022).
        { change (2 * 2 ^ (e - 1)) with (2 ^ 1 * 2 ^ (e - 1)).
          rewrite <- Z.pow_add_r by lia. apply Z.pow_le_mono_r; lia. }
        assert ((2 ^ 52 * 2 ^ 1022 <=? (2 ^ 52 + m) * 2 ^ (e - 1)) = false) as ->
          by (apply Z.leb_gt; nia).
        split; [intros _; left; lia | reflexivity].
Qed.

Section Init.
Context `{Postgres} `{Libm double}.

(** X16.  [octo_bloom_init] checks its parameters before it looks at the
    catalog or the registry.  For a [bigint] count and a rate pattern: a
    count of 0, or a rate that is not a NaN and not strictly between 0 and
    1, is answered by [ERRCODE_INVALID_PARAMETER_VALUE] with the backend
    untouched, whatever the column; every other count, negative ones
    included, and every NaN pass the checks.  Then a column the catalog
    does not know is answered by [ERRCODE_UNDEFINED_COLUMN], again with
    the backend untouched, and for a known column
    [register_bloom_filter] is called with the count converted to 64 bits
    unsigned and the call ends as that one does. *)
Theorem octo_bloom_init_validation (tbl : Z) (column_name : string) (c : Z) (p : double)
    (s : backend) :
  - 2 ^ 63 <= c < 2 ^ 63 -> 0 <= p < 2 ^ 64 ->
  let accepted := c <> 0 /\ (0 < p < DOUBLE_ONE \/ double_is_nan p = true) in
  (~ accepted ->
   octo_bloom_init tbl column_name c p s = (Sql_error ERRCODE_INVALID_PARAMETER_VALUE, s)) /\
  (accepted -> get_attnum tbl column_name = InvalidAttrNumber ->
   octo_bloom_init tbl column_name c p s = (Sql_error (Reported ERRCODE_UNDEFINED_COLUMN), s)) /\
  (accepted -> get_attnum tbl column_name <> InvalidAttrNumber ->
   octo_bloom_init tbl column_name c p s =
   match register_bloom_filter tbl (get_attnum tbl column_name)
           (if c <? 0 then c + 2 ^ 64 else c) p s with
   | (Returns true, s') => (Sql_returns tt, s')
   | (Returns false, s') => (Sql_error (Reported ERRCODE_OUT_OF_MEMORY), s')
   | (Raises e, s') => (Sql_error (Reported e), s')
   | (Undefined, s') => (Sql_undefined, s')
   end).
Proof.
  intros Hc Hp accepted. pose proof (rate_check p Hp) as Hrate.
  assert (wrap64 c = if c <? 0 then c + 2 ^ 64 else c) as Hwrap.
  { unfold wrap64. destruct (Z.ltb_spec c 0).
    - rewrite <- (Z.mod_add c 1) by lia. rewrite Z.mod_small by lia. lia.
    - apply Z.mod_small. lia. }
  assert (wrap64 c = 0 <-> c = 0) as Hzero.
  { rewrite Hwrap. destruct (Z.ltb_spec c 0); lia. }
  unfold octo_bloom_init.
  destruct (Z.eqb_spec (wrap64 c) 0) as [Hw|Hw].
  { split; [reflexivity|]. split; intros [Hne _]; exfalso; apply Hne, Hzero, Hw. }
  destruct (double_le p DOUBLE_ZERO || double_le DOUBLE_ONE p) eqn:Hchk.
  { split; [reflexivity|].
    split; intros [_ Hr]; apply Hrate in Hr; congruence. }
  assert accepted as Hacc.
  { split; [intros ->; now apply Hw | now apply Hrate]. }
  split; [intros Hn; contradiction|].
  destruct (Z.eqb_spec (get_attnum tbl column_name) InvalidAttrNumber) as [Hcol|Hcol].
  { split; [reflexivity | intros _ Hn; contradiction]. }
  split; [intros _ Hn; contradiction|]. intros _ _.
  now rewrite Hwrap.
Qed.

(** X17.  In the backend that [octo_bloom_init] leaves when it returns,
    the column has a valid entry that records the converted count and the
    rate, and the new filter is empty: [octo_bloom_might_contain] answers
    [false] for every value, and [octo_bloom_exists] answers [false]
    without running its query, whatever rows the table holds.  That lasts
    as long as the memory context of the call: once it is released the
    entry, still in the registry and still marked valid, points at a freed
    object, and both calls use it, which is undefined. *)
Theorem octo_bloom_init_then_might_contain `{Spi} (tbl : Z) (column_name : string) (c : Z)
    (p : double) (s s' : backend) :
  0 <= p < 2 ^ 64 ->
  octo_bloom_init tbl column_name c p s = (Sql_returns tt, s') ->
  (exists e, registry_of s' !! (tbl, get_attnum tbl column_name) = Some e /\
             is_valid e = true /\ expected_count e = wrap64 c /\
             false_positive_rate e = p /\ current_count e = 0) /\
  (forall bytes,
      octo_bloom_might_contain tbl column_name (Some bytes) s' = (Returns false, s') /\
      octo_bloom_exists tbl column_name (Some bytes) s' = (Sql_returns false, s')) /\
  (forall value,
      octo_bloom_might_contain tbl column_name value (memory_context_reset s')
      = (Undefined, memory_context_reset s') /\
      octo_bloom_exists tbl column_name value (memory_context_reset s')
      = (Sql_undefined, memory_context_reset s')).
Proof.
  intros Hp. unfold octo_bloom_init.
  destruct (wrap64 c =? 0); [discriminate|].
  destruct (_ || _); [discriminate|].
  destruct (Z.eqb_spec (get_attnum tbl column_name) InvalidAttrNumber) as [|Hcol]; [discriminate|].
  destruct (register_bloom_filter tbl (get_attnum tbl column_name) (wrap64 c) p s)
    as [[[]|e|] s1] eqn:Hreg; try discriminate.
  intros [= <-].
  destruct (register_true_inv _ _ _ _ _ _ Hreg)
    as (l & f & e' & _ & He' & Hf & Hn & Hr & Hz & Hv & _).
  split; [exists e'; auto|]. split.
  - intros bytes.
    assert (octo_bloom_might_contain tbl column_name (Some bytes) s1 = (Returns false, s1))
      as Hanswer.
    { apply (register_then_empty_answer tbl column_name (wrap64 c) p bytes s s1);
        auto using wrap64_range. }
    split; [exact Hanswer|]. unfold octo_bloom_exists. now rewrite Hanswer.
  - intros value.
    assert (octo_bloom_might_contain tbl column_name value (memory_context_reset s1)
            = (Undefined, memory_context_reset s1)) as Hgone.
    { rewrite octo_bloom_might_contain_run by exact Hcol.
      change (registry_of (memory_context_reset s1)) with (registry_of s1).
      rewrite He', Hv, Hf. cbn [memory_context_reset heap]. now rewrite lookup_empty. }
    split; [exact Hgone|]. unfold octo_bloom_exists. now rewrite Hgone.
Qed.

End Init.

Lemma octo_bloom_init_validation_witness :
  (~ ((-1) <> 0 /\ (0 < d_0_1 < DOUBLE_ONE \/ double_is_nan d_0_1 = true)) ->
   @octo_bloom_init sample_postgres sample_libm 16384 "email" (-1) d_0_1 (sample_backend [])
   = (Sql_error ERRCODE_INVALID_PARAMETER_VALUE, sample_backend [])) /\
  (((-1) <> 0 /\ (0 < d_0_1 < DOUBLE_ONE \/ double_is_nan d_0_1 = true)) ->
   @get_attnum sample_postgres 16384 "email" = InvalidAttrNumber ->
   @octo_bloom_init sample_postgres sample_libm 16384 "email" (-1) d_0_1 (sample_backend [])
   = (Sql_error (Reported ERRCODE_UNDEFINED_COLUMN), sample_backend [])) /\
  (((-1) <> 0 /\ (0 < d_0_1 < DOUBLE_ONE \/ double_is_nan d_0_1 = true)) ->
   @get_attnum sample_postgres 16384 "email" <> InvalidAttrNumber ->
   @octo_bloom_init sample_postgres sample_libm 16384 "email" (-1) d_0_1 (sample_backend []) =
   match @register_bloom_filter sample_libm 16384 (@get_attnum sample_postgres 16384 "email")
           (if -1 <? 0 then -1 + 2 ^ 64 else -1) d_0_1 (sample_backend []) with
   | (Returns true, s') => (Sql_returns tt, s')
   | (Returns false, s') => (Sql_error (Reported ERRCODE_OUT_OF_MEMORY), s')
   | (Raises e, s') => (Sql_error (Reported e), s')
   | (Undefined, s') => (Sql_undefined, s')
   end).
Proof.
  apply (@octo_bloom_init_validation sample_postgres sample_libm 16384 "email" (-1) d_0_1
           (sample_backend [])); unfold d_0_1; lia.
Defined.

Lemma octo_bloom_init_then_might_contain_witness :
  (exists e, registry_of sample_backend_registered
               !! (16384, @get_attnum sample_postgres 16384 "email") = Some e /\
             is_valid e = true /\ expected_count e = wrap64 4 /\
             false_positive_rate e = d_0_1 /\ current_count e = 0) /\
  (forall bytes,
      @octo_bloom_might_contain sample_postgres 16384 "email" (Some bytes)
        sample_backend_registered = (Returns false, sample_backend_registered) /\
      @octo_bloom_exists sample_postgres (sample_spi true) 16384 "email" (Some bytes)
        sample_backend_registered = (Sql_returns false, sample_backend_registered)) /\
  (forall value,
      @octo_bloom_might_contain sample_postgres 16384 "email" value
        (memory_context_reset sample_backend_registered)
      = (Undefined, memory_context_reset sample_backend_registered) /\
      @octo_bloom_exists sample_postgres (sample_spi true) 16384 "email" value
        (memory_context_reset sample_backend_registered)
      = (Sql_undefined, memory_context_reset sample_backend_registered)).
Proof.
  apply (@octo_bloom_init_then_might_contain sample_postgres sample_libm (sample_spi true)
           16384 "email" 4 d_0_1 (mkBackend None ∅ [])).
  - unfold d_0_1. lia.
  - reflexivity.
Defined.

(** ** The row triggers *)

Section Triggers.
Context `{Postgres}.

Lemma get_bloom_filter_run table_oid attnum s :
  get_bloom_filter table_oid attnum s = (Returns (filter_of s table_oid attnum), s).
Proof. apply get_bloom_filter_eq. Qed.

Lemma keeps_answers_refl f : keeps_answers f f.
Proof. split; auto. Qed.

Lemma keeps_answers_trans f1 f2 f3 :
  keeps_answers f1 f2 -> keeps_answers f2 f3 -> keeps_answers f1 f3.
Proof. intros [Hm1 Ha1] [Hm2 Ha2]. split; [congruence | auto]. Qed.

Lemma add_keeps_answers f data f' : add f data = Some f' -> keeps_answers f f'.
Proof.
  intros Ha. split.
  - destruct (add_inv _ _ _ Ha) as (bits' & _ & ->). reflexivity.
  - intros other. destruct (add_inv _ _ _ Ha) as (bits' & Hl & ->).
    unfold mightContain, doubleHash. cbn [set_bits bits_ bit_array_size_ num_hashes_].
    apply mightContain_loop_mono. intros index. eapply add_loop_keeps; eauto.
Qed.

Lemma only_added_refl s : only_added s s.
Proof.
  split; [reflexivity|]. split; [reflexivity|]. intros l.
  destruct (heap s !! l) as [[f|]|]; auto using keeps_answers_refl.
Qed.

Lemma only_added_trans s1 s2 s3 : only_added s1 s2 -> only_added s2 s3 -> only_added s1 s3.
Proof.
  intros (Hs1 & Hg1 & Hh1) (Hs2 & Hg2 & Hh2).
  split; [congruence|]. split; [congruence|]. intros l.
  specialize (Hh1 l). specialize (Hh2 l).
  destruct (heap s1 !! l) as [[f1|]|], (heap s2 !! l) as [[f2|]|],
    (heap s3 !! l) as [[f3|]|]; try congruence; try discriminate.
  eapply keeps_answers_trans; eauto.
Qed.

Lemma only_added_registry s s' : only_added s s' -> registry_of s' = registry_of s.
Proof. intros (Hs & _). unfold registry_of. now rewrite Hs. Qed.

Lemma only_added_filter_of s s' table_oid attnum :
  only_added s s' -> filter_of s' table_oid attnum = filter_of s table_oid attnum.
Proof. intros Ho. unfold filter_of. now rewrite (only_added_registry _ _ Ho). Qed.

Lemma filter_add_inv l bytes s s' :
  filter_add l bytes s = (Returns tt, s') ->
  exists f f', heap s !! l = Some (Some f) /\ add f (Some bytes) = Some f' /\
               s' = mkBackend (bloom_shared_state s) (<[l := Some f']> (heap s)) (grants s).
Proof.
  unfold filter_add, mbind, M_bind, bind, get_state, put_state, undefined.
  destruct (heap s !! l) as [[f|]|] eqn:Hl; try discriminate.
  destruct (add f (Some bytes)) as [f'|] eqn:Ha; [|discriminate].
  intros [= <-]. eauto.
Qed.

Lemma filter_add_only_added l bytes s s' :
  filter_add l bytes s = (Returns tt, s') -> only_added s s'.
Proof.
  intros Hrun. destruct (filter_add_inv _ _ _ _ Hrun) as (f & f' & Hl & Ha & ->).
  split; [reflexivity|]. split; [reflexivity|]. intros l'. cbn [heap].
  destruct (decide (l' = l)) as [->|Hne].
  - rewrite Hl, lookup_insert_eq. eapply add_keeps_answers; eauto.
  - rewrite lookup_insert_ne by auto.
    destruct (heap s !! l') as [[g|]|]; auto using keeps_answers_refl.
Qed.

Lemma answers_true_mono s s' table_oid attnum value :
  only_added s s' -> answers_true s table_oid attnum value ->
  answers_true s' table_oid attnum value.
Proof.
  intros Ho. unfold answers_true. rewrite (only_added_filter_of _ _ _ _ Ho).
  destruct (filter_of s table_oid attnum) as [|l|]; auto.
  intros (f & Hl & Hans). destruct Ho as (_ & _ & Hh). specialize (Hh l).
  rewrite Hl in Hh. destruct (heap s' !! l) as [[f'|]|]; try discriminate.
  exists f'. split; [reflexivity|]. destruct Hh as [Hm Hkeep].
  destruct Hans as [Hz|[Hn|Ht]]; [left; congruence | auto | auto].
Qed.

Lemma might_contain_answers_true s table_oid column_name value :
  get_attnum table_oid column_name <> InvalidAttrNumber ->
  (octo_bloom_might_contain table_oid column_name value s = (Returns true, s) <->
   answers_true s table_oid (get_attnum table_oid column_name) value).
Proof.
  intros Hcol. rewrite octo_bloom_might_contain_run by exact Hcol.
  unfold answers_true, filter_of.
  destruct (match registry_of s !! _ with Some e => _ | None => _ end) as [|l|].
  - tauto.
  - destruct (heap s !! l) as [[f|]|] eqn:Hl.
    + destruct (Z.eqb_spec (bit_array_size_ f) 0) as [Hz|Hz].
      { split; [|reflexivity]. intros _. exists f. auto. }
      destruct value as [bytes|].
      * destruct (mightContain f (Some bytes)) as [[]|] eqn:Hm.
        -- split; [|reflexivity]. intros _. exists f. auto.
        -- split; [discriminate|]. intros (g & [= <-] & [?|[?|?]]); congruence.
        -- split; [discriminate|]. intros (g & [= <-] & [?|[?|?]]); congruence.
      * split; [|reflexivity]. intros _. exists f. auto.
    + split; [discriminate|]. intros (g & [=] & _).
    + split; [discriminate|]. intros (g & [=] & _).
  - split; [discriminate | tauto].
Qed.

Lemma insert_loop_only_added table_oid newtuple attrs : forall i s s',
  insert_loop table_oid newtuple i attrs s = (Returns tt, s') -> only_added s s'.
Proof.
  induction attrs as [|attr rest IH]; intros i s s'; cbn [insert_loop].
  - intros [= <-]. apply only_added_refl.
  - unfold mbind, M_bind, bind. rewrite get_bloom_filter_run.
    destruct (filter_of s table_oid (Tuple.attnum attr)) as [|l|].
    + apply IH.
    + destruct (Tuple.attisdropped attr); [apply IH|].
      unfold heap_getattr. destruct newtuple as [t|]; [|discriminate].
      unfold ret at 1. destruct (t (i + 1)) as [bytes|]; [|apply IH].
      destruct (filter_add l bytes s) as [[[]|e|] s1] eqn:Hadd; try discriminate.
      intros Hrest. eapply only_added_trans; [eapply filter_add_only_added|]; eauto.
    + discriminate.
Qed.

Lemma insert_loop_answers table_oid t attrs : forall i s s' k attr bytes,
  insert_loop table_oid (Some t) i attrs s = (Returns tt, s') ->
  attrs !! k = Some attr -> Tuple.attisdropped attr = false ->
  t (i + Z.of_nat k + 1) = Some bytes ->
  answers_true s' table_oid (Tuple.attnum attr) (Some bytes).
Proof.
  induction attrs as [|a rest IH]; intros i s s' k attr bytes; [discriminate|].
  cbn [insert_loop]. unfold mbind, M_bind, bind. rewrite get_bloom_filter_run.
  destruct k as [|k].
  - intros Hrun [= ->] Hd Hv. rewrite Hd in Hrun.
    replace (i + Z.of_nat 0 + 1) with (i + 1) in Hv by lia.
    unfold heap_getattr, ret in Hrun. rewrite Hv in Hrun.
    destruct (filter_of s table_oid (Tuple.attnum attr)) as [|l|] eqn:Hf; cbn beta iota in Hrun.
    + apply insert_loop_only_added in Hrun. unfold answers_true.
      now rewrite (only_added_filter_of _ _ _ _ Hrun), Hf.
    + destruct (filter_add l bytes s) as [[[]|e|] s1] eqn:Hadd; try discriminate.
      apply insert_loop_only_added in Hrun.
      apply (answers_true_mono s1 s'); [exact Hrun|].
      pose proof (filter_add_only_added _ _ _ _ Hadd) as Ho.
      destruct (filter_add_inv _ _ _ _ Hadd) as (f & f' & Hl & Ha & ->).
      unfold answers_true. rewrite (only_added_filter_of _ _ _ _ Ho), Hf. cbn [heap].
      exists f'. split; [apply lookup_insert_eq|].
      destruct (Z.eq_dec (bit_array_size_ f') 0) as [Hz|Hz]; [now left|].
      right. right. apply covered_mightContain; [exact Hz|]. eapply add_covers; eauto.
    + discriminate.
  - intros Hrun Hk Hd Hv. cbn in Hk.
    replace (i + Z.of_nat (S k) + 1) with ((i + 1) + Z.of_nat k + 1) in Hv by lia.
    match type of Hrun with
    | (let (_, _) := ?m in _) = _ => destruct m as [[[]|e|] s1]; try discriminate
    end.
    eapply IH; eauto.
Qed.

Lemma insert_loop_null table_oid attrs : forall i s,
  (Forall (skipped s table_oid) attrs ->
   insert_loop table_oid None i attrs s = (Returns tt, s)) /\
  (~ Forall (skipped s table_oid) attrs ->
   insert_loop table_oid None i attrs s = (Undefined, s)).
Proof.
  induction attrs as [|attr rest IH]; intros i s; cbn [insert_loop].
  - split; [reflexivity|]. intros Hn. destruct Hn. constructor.
  - unfold mbind, M_bind, bind. rewrite get_bloom_filter_run.
    destruct (IH (i + 1) s) as [IHs IHn]. rewrite Forall_cons.
    assert (skipped s table_oid attr -> 
            (Forall (skipped s table_oid) rest -> insert_loop table_oid None (i + 1) rest s = (Returns tt, s)) /\
            (~ (skipped s table_oid attr /\ Forall (skipped s table_oid) rest) ->
             insert_loop table_oid None (i + 1) rest s = (Undefined, s))) as Hskip.
    { intros Hsk. split; [exact IHs|]. intros Hn. apply IHn. tauto. }
    destruct (filter_of s table_oid (Tuple.attnum attr)) as [|l|] eqn:Hf.
    + unfold ret at 1. destruct Hskip as [Hs Hn]; [left; exact Hf|]. split; [tauto | exact Hn].
    + destruct (Tuple.attisdropped attr) eqn:Hd.
      * unfold ret at 1. destruct Hskip as [Hs Hn]; [right; rewrite Hf; eauto|].
        split; [tauto | exact Hn].
      * split; [|reflexivity]. intros [[Hx|[_ Hx]] _]; congruence.
    + split; [|reflexivity]. intros [[Hx|[[l Hx] _]] _]; congruence.
Qed.

Lemma filter_remove_inv l bytes s w s' :
  filter_remove l bytes s = (Returns w, s') ->
  s' = s /\ w = "Remove operation not supported for regular Bloom filter"%string.
Proof.
  unfold filter_remove, mbind, M_bind, bind, get_state, put_state, ret, undefined, remove.
  destruct (heap s !! l) as [[f|]|] eqn:Hl; try discriminate.
  intros [= <- <-]. split; [|reflexivity].
  destruct s as [ss hp gs]. cbn [heap bloom_shared_state grants] in *.
  f_equal. now apply insert_id.
Qed.

Lemma update_loop_as_insert table_oid old newtuple attrs : forall i s ws s',
  update_loop table_oid (Some old) newtuple i attrs s = (Returns ws, s') ->
  insert_loop table_oid newtuple i attrs s = (Returns tt, s') /\
  Forall (fun w => w = "Remove operation not supported for regular Bloom filter"%string) ws.
Proof.
  induction attrs as [|attr rest IH]; intros i s ws s'; cbn [update_loop insert_loop].
  - intros [= <- <-]. split; [reflexivity | constructor].
  - unfold mbind, M_bind, bind. rewrite !get_bloom_filter_run.
    unfold heap_getattr, ret, undefined. intros Hrun.
    repeat (match type of Hrun with
            | context [filter_remove ?l ?b ?s] =>
                let Hrem := fresh "Hrem" in
                destruct (filter_remove l b s) as [[?|?|] ?] eqn:Hrem;
                [apply filter_remove_inv in Hrem as [-> ->] | discriminate | discriminate]
            | context [update_loop ?a ?b ?c ?d ?e ?f] =>
                let Hrest := fresh "Hrest" in
                destruct (update_loop a b c d e f) as [[?|?|] ?] eqn:Hrest;
                [apply IH in Hrest as [-> ?] | discriminate | discriminate]
            | context [match ?x with _ => _ end] =>
                lazymatch x with
                | context [match _ with _ => _ end] => fail
                | _ => destruct x eqn:?
                end
            end; cbn beta iota in *; try discriminate).
    all: injection Hrun as <- <-.
    all: split; [reflexivity|].
    all: try assumption.
    all: constructor; [reflexivity | assumption].
Qed.

Context `{TriggerEvent}.

Lemma insert_trigger_returns trigdata s d s' :
  octo_bloom_insert_trigger trigdata s = (Returns d, s') ->
  (d = DatumNull /\ s' = s) \/
  (d = DatumPointer (tg_newtuple trigdata) /\
   insert_loop (rd_id (tg_relation trigdata)) (tg_newtuple trigdata) 0
     (rd_att (tg_relation trigdata)) s = (Returns tt, s')).
Proof.
  unfold octo_bloom_insert_trigger.
  destruct (_ || _).
  - intros [= <- <-]. now left.
  - unfold mbind, M_bind, bind.
    destruct (insert_loop _ _ _ _ s) as [[[]|e|] s1]; try discriminate.
    intros [= <- <-]. now right.
Qed.

Lemma update_trigger_returns trigdata s d ws s' :
  octo_bloom_update_trigger trigdata s = (Returns (d, ws), s') ->
  (d = DatumNull /\ ws = [] /\ s' = s) \/
  (d = DatumPointer (tg_newtuple trigdata) /\
   update_loop (rd_id (tg_relation trigdata)) (tg_trigtuple trigdata) (tg_newtuple trigdata) 0
     (rd_att (tg_relation trigdata)) s = (Returns ws, s')).
Proof.
  unfold octo_bloom_update_trigger.
  destruct (_ || _).
  - intros [= <- <- <-]. now left.
  - unfold mbind, M_bind, bind.
    destruct (update_loop _ _ _ _ _ s) as [[ws'|e|] s1]; try discriminate.
    intros [= <- <- <-]. now right.
Qed.

Lemma update_loop_only_added table_oid oldtuple newtuple attrs : forall i s ws s',
  update_loop table_oid oldtuple newtuple i attrs s = (Returns ws, s') -> only_added s s'.
Proof.
  induction attrs as [|attr rest IH]; intros i s ws s'; cbn [update_loop].
  - intros [= _ <-]. apply only_added_refl.
  - unfold mbind, M_bind, bind. rewrite !get_bloom_filter_run.
    unfold heap_getattr, ret, undefined. intros Hrun.
    repeat (match type of Hrun with
            | context [filter_remove ?l ?b ?s] =>
                let Hrem := fresh "Hrem" in
                destruct (filter_remove l b s) as [[?|?|] ?] eqn:Hrem;
                [apply filter_remove_inv in Hrem as [-> ->] | discriminate | discriminate]
            | context [filter_add ?l ?b ?s] =>
                let Hadd := fresh "Hadd" in
                destruct (filter_add l b s) as [[[]|?|] ?] eqn:Hadd;
                [apply filter_add_only_added in Hadd | discriminate | discriminate]
            | context [update_loop ?a ?b ?c ?d ?e ?f] =>
                let Hrest := fresh "Hrest" in
                destruct (update_loop a b c d e f) as [[?|?|] ?] eqn:Hrest;
                [apply IH in Hrest | discriminate | discriminate]
            | context [match ?x with _ => _ end] =>
                lazymatch x with
                | context [match _ with _ => _ end] => fail
                | _ => destruct x eqn:?
                end
            end; cbn beta iota in *; try discriminate).
    all: injection Hrun as <- <-.
    all: eauto using only_added_trans.
Qed.

(** X18.  No false negative through the trigger: when
    [octo_bloom_insert_trigger] has fired and returned, every value of the
    new row in a column that is not dropped is answered [true] by
    [octo_bloom_might_contain] on that column, and [octo_bloom_exists] goes
    on to the query and returns what the query finds. *)
Theorem insert_trigger_no_false_negative `{Spi} (trigdata : TriggerData) (s s' : backend)
    (d : Datum) (k : nat) (attr : Tuple.Form_pg_attribute) (t : HeapTuple) (bytes : list Z)
    (column_name table_name : string) :
  let rel := tg_relation trigdata in
  octo_bloom_insert_trigger trigdata s = (Returns d, s') ->
  d <> DatumNull ->
  tg_newtuple trigdata = Some t ->
  rd_att rel !! k = Some attr ->
  Tuple.attisdropped attr = false ->
  t (Z.of_nat k + 1) = Some bytes ->
  get_attnum (rd_id rel) column_name = Tuple.attnum attr ->
  Tuple.attnum attr <> InvalidAttrNumber ->
  octo_bloom_might_contain (rd_id rel) column_name (Some bytes) s' = (Returns true, s') /\
  (get_rel_name (rd_id rel) = Some table_name ->
   SPI_connect = true ->
   SPI_prepare (exists_query table_name column_name) = true ->
   octo_bloom_exists (rd_id rel) column_name (Some bytes) s' =
   (Sql_returns (fst (SPI_execute_plan (exists_query table_name column_name) (Some bytes))
                 && (0 <? snd (SPI_execute_plan (exists_query table_name column_name)
                                 (Some bytes)))), s')).
Proof.
  intros rel Hrun Hd Ht Hk Hdrop Hv Hcol Hvalid.
  assert (octo_bloom_might_contain (rd_id rel) column_name (Some bytes) s' = (Returns true, s'))
    as Hanswer.
  { apply might_contain_answers_true; [congruence|]. rewrite Hcol.
    destruct (insert_trigger_returns _ _ _ _ Hrun) as [[-> _]|[_ Hloop]]; [contradiction|].
    rewrite Ht in Hloop. eapply insert_loop_answers; eauto. }
  split; [exact Hanswer|]. intros Hname Hconnect Hprepare.
  unfold octo_bloom_exists. rewrite Hanswer, Hname, Hconnect, Hprepare. cbn [negb].
  now destruct (SPI_execute_plan _ _).
Qed.

(** X19.  The triggers never lose an answer: whenever
    [octo_bloom_insert_trigger] or [octo_bloom_update_trigger] returns, the
    registry and the grants are as before, and every call of
    [octo_bloom_might_contain] that returned [true] before, on whatever
    table, column and value, returns [true] after.  An update removes
    nothing: the old row's values stay in the filter. *)
Theorem triggers_keep_positive_answers (trigdata : TriggerData) (s s' : backend)
    (tbl : Z) (column_name : string) (value : option (list Z)) :
  (exists d, octo_bloom_insert_trigger trigdata s = (Returns d, s')) \/
  (exists r, octo_bloom_update_trigger trigdata s = (Returns r, s')) ->
  registry_of s' = registry_of s /\ grants s' = grants s /\
  (octo_bloom_might_contain tbl column_name value s = (Returns true, s) ->
   octo_bloom_might_contain tbl column_name value s' = (Returns true, s')).
Proof.
  intros Hrun. assert (only_added s s') as Ho.
  { destruct Hrun as [[d Hrun]|[[d ws] Hrun]].
    - destruct (insert_trigger_returns _ _ _ _ Hrun) as [[_ ->]|[_ Hloop]].
      + apply only_added_refl.
      + eapply insert_loop_only_added; eauto.
    - destruct (update_trigger_returns _ _ _ _ _ Hrun) as [(_ & _ & ->)|[_ Hloop]].
      + apply only_added_refl.
      + eapply update_loop_only_added; eauto. }
  split; [now apply only_added_registry|]. split; [apply Ho|].
  intros Hbefore.
  destruct (Z.eq_dec (get_attnum tbl column_name) InvalidAttrNumber) as [Hcol|Hcol].
  - unfold octo_bloom_might_contain in Hbefore. rewrite Hcol in Hbefore. discriminate.
  - apply might_contain_answers_true; [exact Hcol|].
    apply (answers_true_mono s s'); [exact Ho|].
    now apply might_contain_answers_true.
Qed.

(** X20.  [octo_bloom_insert_trigger] reads the new row through
    [tg_newtuple].  When that pointer is null and the trigger fires, nothing
    is added: if every column of the descriptor is passed over (no filter,
    or dropped) the trigger returns the null pointer and leaves the backend
    as it was, and otherwise the first column with a filter dereferences
    the null tuple and the behaviour is undefined. *)
Theorem insert_trigger_null_newtuple (trigdata : TriggerData) (s : backend) :
  let rel := tg_relation trigdata in
  TRIGGER_FIRED_FOR_ROW (tg_event trigdata) = true ->
  TRIGGER_FIRED_AFTER (tg_event trigdata) = true ->
  TRIGGER_FIRED_BY_INSERT (tg_event trigdata) = true ->
  tg_newtuple trigdata = None ->
  (Forall (skipped s (rd_id rel)) (rd_att rel) ->
   octo_bloom_insert_trigger trigdata s = (Returns (DatumPointer None), s)) /\
  (~ Forall (skipped s (rd_id rel)) (rd_att rel) ->
   octo_bloom_insert_trigger trigdata s = (Undefined, s)).
Proof.
  intros rel Hrow Hafter Hinsert Hnull. unfold octo_bloom_insert_trigger.
  rewrite Hrow, Hafter, Hinsert, Hnull. cbn [negb orb].
  unfold mbind, M_bind, bind.
  destruct (insert_loop_null (rd_id rel) (rd_att rel) 0 s) as [Hs Hn].
  split; intros Hall.
  - fold rel. now rewrite (Hs Hall).
  - fold rel. now rewrite (Hn Hall).
Qed.

(** X21.  An update is an insert of the new row: whenever
    [octo_bloom_update_trigger] has fired and returned with a non-null old
    tuple, it has left the backend exactly as [octo_bloom_insert_trigger]
    leaves it on the same relation and new tuple, and all it did for the
    old values is to report the warning of [remove]. *)
Theorem update_trigger_acts_as_insert (trigdata : TriggerData) (old : HeapTuple)
    (insert_event : Z) (s s' : backend) (d : Datum) (warnings : list string) :
  octo_bloom_update_trigger trigdata s = (Returns (d, warnings), s') ->
  d <> DatumNull ->
  tg_trigtuple trigdata = Some old ->
  TRIGGER_FIRED_FOR_ROW insert_event = true ->
  TRIGGER_FIRED_AFTER insert_event = true ->
  TRIGGER_FIRED_BY_INSERT insert_event = true ->
  octo_bloom_insert_trigger
    (mkTriggerData insert_event (tg_relation trigdata) (tg_trigtuple trigdata)
       (tg_newtuple trigdata)) s = (Returns d, s') /\
  Forall (fun w => w = "Remove operation not supported for regular Bloom filter"%string)
    warnings.
Proof.
  intros Hrun Hd Hold Hrow Hafter Hinsert.
  destruct (update_trigger_returns _ _ _ _ _ Hrun) as [(-> & _)|[-> Hloop]]; [contradiction|].
  rewrite Hold in Hloop. apply update_loop_as_insert in Hloop as [Hloop Hw].
  split; [|exact Hw].
  unfold octo_bloom_insert_trigger. cbn [tg_event tg_relation tg_newtuple].
  rewrite Hrow, Hafter, Hinsert. cbn [negb orb].
  unfold mbind, M_bind, bind. now rewrite Hloop.
Qed.

End Triggers.

Lemma insert_trigger_no_false_negative_witness :
  @octo_bloom_might_contain sample_postgres 16384 "email" (Some sample_key) sample_backend_added
  = (Returns true, sample_backend_added) /\
  (@get_rel_name (sample_spi true) 16384 = Some "users"%string ->
   @SPI_connect (sample_spi true) = true ->
   @SPI_prepare (sample_spi true) (@exists_query (sample_spi true) "users" "email") = true ->
   @octo_bloom_exists sample_postgres (sample_spi true) 16384 "email" (Some sample_key) sample_backend_added =
   (Sql_returns
      (fst (@SPI_execute_plan (sample_spi true) (@exists_query (sample_spi true) "users" "email")
              (Some sample_key))
       && (0 <? snd (@SPI_execute_plan (sample_spi true)
                       (@exists_query (sample_spi true) "users" "email") (Some sample_key)))),
    sample_backend_added)).
Proof.
  apply (@insert_trigger_no_false_negative sample_postgres sample_trigger_event (sample_spi true)
           (mkTriggerData 4 sample_relation None (Some sample_tuple)) (sample_backend [])
           _ (DatumPointer (Some sample_tuple)) 0 (Tuple.mkAttribute 1 false) sample_tuple
           sample_key "email" "users").
  - reflexivity.
  - discriminate.
  - reflexivity.
  - reflexivity.
  - reflexivity.
  - reflexivity.
  - reflexivity.
  - discriminate.
Defined.

Lemma triggers_keep_positive_answers_witness :
  registry_of sample_backend_added = registry_of (sample_backend []) /\
  grants sample_backend_added = grants (sample_backend []) /\
  (@octo_bloom_might_contain sample_postgres 999 "email" (Some sample_key) (sample_backend [])
   = (Returns true, sample_backend []) ->
   @octo_bloom_might_contain sample_postgres 999 "email" (Some sample_key) sample_backend_added
   = (Returns true, sample_backend_added)).
Proof.
  apply (@triggers_keep_positive_answers sample_postgres sample_trigger_event
           (mkTriggerData 4 sample_relation None (Some sample_tuple))).
  left. exists (DatumPointer (Some sample_tuple)). reflexivity.
Defined.

Lemma insert_trigger_null_newtuple_witness :
  (Forall (skipped (sample_backend []) 16384) (rd_att sample_relation) ->
   @octo_bloom_insert_trigger sample_postgres sample_trigger_event
     (mkTriggerData 4 sample_relation (Some sample_tuple) None) (sample_backend [])
   = (Returns (DatumPointer None), sample_backend [])) /\
  (~ Forall (skipped (sample_backend []) 16384) (rd_att sample_relation) ->
   @octo_bloom_insert_trigger sample_postgres sample_trigger_event
     (mkTriggerData 4 sample_relation (Some sample_tuple) None) (sample_backend [])
   = (Undefined, sample_backend [])).
Proof.
  apply (@insert_trigger_null_newtuple sample_postgres sample_trigger_event
           (mkTriggerData 4 sample_relation (Some sample_tuple) None) (sample_backend []));
    reflexivity.
Defined.

Lemma update_trigger_acts_as_insert_witness :
  @octo_bloom_insert_trigger sample_postgres sample_trigger_event
    (mkTriggerData 4 sample_relation (Some (fun _ => Some [98])) (Some sample_tuple))
    (sample_backend [])
  = (Returns (DatumPointer (Some sample_tuple)),
     sample_backend_added) /\
  Forall (fun w => w = "Remove operation not supported for regular Bloom filter"%string)
    ["Remove operation not supported for regular Bloom filter"%string].
Proof.
  apply (@update_trigger_acts_as_insert sample_postgres sample_trigger_event
           (mkTriggerData 6 sample_relation (Some (fun _ => Some [98])) (Some sample_tuple))
           (fun _ => Some [98]) 4 (sample_backend [])).
  - reflexivity.
  - discriminate.
  - reflexivity.
  - reflexivity.
  - reflexivity.
  - reflexivity.
Defined.

(** ** The registry invariant *)

Section WellFormed.
Context `{Postgres} `{Libm double} `{TriggerEvent}.

Lemma well_formed_filter_of s table_oid attnum :
  well_formed s ->
  filter_of s table_oid attnum = Null \/
  exists l f, filter_of s table_oid attnum = Loc l /\ heap s !! l = Some (Some f) /\
              valid_filter f.
Proof.
  intros [Hown _]. unfold filter_of.
  destruct (registry_of s !! (table_oid, attnum)) as [e|] eqn:He; [|now left].
  destruct (Hown _ _ He) as (-> & l & f & Hf & Hl & Hv). right. eauto.
Qed.

Lemma well_formed_store s l f f' :
  well_formed s -> heap s !! l = Some (Some f) -> valid_filter f' ->
  well_formed (mkBackend (bloom_shared_state s) (<[l := Some f']> (heap s)) (grants s)).
Proof.
  intros [Hown Hinj] Hl Hv. split.
  - intros key e He. change (registry_of s !! key = Some e) in He.
    destruct (Hown _ _ He) as (Hvalid & l2 & f2 & Hf & Hl2 & Hv2).
    split; [exact Hvalid|]. cbn [heap].
    destruct (decide (l2 = l)) as [->|Hne].
    + exists l, f'. now rewrite lookup_insert_eq.
    + exists l2, f2. now rewrite lookup_insert_ne by auto.
  - intros k1 k2 e1 e2 He1 He2. apply (Hinj k1 k2 e1 e2 He1 He2).
Qed.

Lemma insert_loop_well_formed table_oid t attrs : forall i s,
  well_formed s ->
  exists s', insert_loop table_oid (Some t) i attrs s = (Returns tt, s') /\ well_formed s'.
Proof.
  induction attrs as [|attr rest IH]; intros i s Hwf; cbn [insert_loop].
  - exists s. split; [reflexivity | exact Hwf].
  - unfold mbind, M_bind, bind. rewrite get_bloom_filter_run.
    destruct (well_formed_filter_of s table_oid (Tuple.attnum attr) Hwf)
      as [->|(l & f & -> & Hl & Hv)].
    + unfold ret at 1. now apply IH.
    + destruct (Tuple.attisdropped attr); [unfold ret at 1; now apply IH|].
      unfold heap_getattr, ret at 1. destruct (t (i + 1)) as [bytes|].
      * unfold filter_add, mbind, M_bind, bind, get_state, put_state. rewrite Hl.
        destruct (add_is_Some f (Some bytes) Hv) as [f' Ha]. rewrite Ha.
        apply IH. eapply well_formed_store; eauto using add_valid.
      * unfold ret at 1. now apply IH.
Qed.

Lemma update_loop_well_formed table_oid old t attrs : forall i s,
  well_formed s ->
  exists ws s',
    update_loop table_oid (Some old) (Some t) i attrs s = (Returns ws, s') /\ well_formed s'.
Proof.
  induction attrs as [|attr rest IH]; intros i s Hwf; cbn [update_loop].
  - exists [], s. split; [reflexivity | exact Hwf].
  - unfold mbind, M_bind, bind. rewrite get_bloom_filter_run.
    assert (forall ws0 s0, well_formed s0 ->
              exists ws s',
                (let (o, s1) := update_loop table_oid (Some old) (Some t) (i + 1) rest s0 in
                 match o with
                 | Returns later => (Returns (ws0 ++ later), s1)
                 | Raises e => (Raises e, s1)
                 | Undefined => (Undefined, s1)
                 end) = (Returns ws, s') /\ well_formed s') as Hrest.
    { intros ws0 s0 Hwf0. destruct (IH (i + 1) s0 Hwf0) as (later & s1 & -> & Hwf1). eauto. }
    unfold ret.
    destruct (well_formed_filter_of s table_oid (Tuple.attnum attr) Hwf)
      as [->|(l & f & -> & Hl & Hv)].
    + now apply Hrest.
    + destruct (Tuple.attisdropped attr); [now apply Hrest|].
      unfold heap_getattr, ret. cbn beta iota.
      assert (mkBackend (bloom_shared_state s) (<[l := Some f]> (heap s)) (grants s) = s)
        as Hsame.
      { destruct s as [ss hp gs]. cbn [heap bloom_shared_state grants] in *.
        f_equal. now apply insert_id. }
      destruct (old (i + 1)) as [old_bytes|], (t (i + 1)) as [bytes|].
      all: unfold filter_remove, filter_add, remove, mbind, M_bind, bind, get_state, put_state,
             ret;
           cbn beta iota; rewrite ?Hl; cbn beta iota; rewrite ?Hsame, ?Hl; cbn beta iota.
      all: try (destruct (add_is_Some f (Some bytes) Hv) as [f' Ha]; rewrite Ha; cbn beta iota).
      all: apply Hrest; eauto using well_formed_store, add_valid.
Qed.

(** X22.  A registration that returns [true] keeps the registry
    invariant: from a backend where every entry is valid and owns a live,
    valid filter object of its own, with a 64-bit count and rate pattern,
    the backend [register_bloom_filter] leaves is again such a backend. *)
Theorem register_keeps_well_formed (tbl col n : Z) (p : double) (s s' : backend) :
  well_formed s -> 0 <= n < 2 ^ 64 -> 0 <= p < 2 ^ 64 ->
  register_bloom_filter tbl col n p s = (Returns true, s') ->
  well_formed s'.
Proof.
  intros [Hown Hinj] Hn Hp Hrun.
  destruct (register_true_inv _ _ _ _ _ _ Hrun)
    as (l & f & e' & Hnew & He' & Hf & _ & _ & _ & Hvalid & Hl & Hothers & Hheap & Hfresh).
  pose proof (OctoBloomFilter_new_valid n p f Hn Hp Hnew) as Hv.
  assert (forall key e l2 f2,
             key <> (tbl, col) -> registry_of s !! key = Some e -> filter e = Loc l2 ->
             heap s !! l2 = Some (Some f2) ->
             l2 <> l /\ heap s' !! l2 = Some (Some f2)) as Hkeep.
  { intros key e l2 f2 Hne He Hf2 Hl2.
    assert (l2 <> l) as Hneq.
    { intros ->. destruct Hfresh as [Hnone|(e0 & He0 & Hf0)]; [congruence|].
      apply Hne. apply (Hinj key (tbl, col) e e0 He He0). congruence. }
    split; [exact Hneq|]. rewrite Hheap; [exact Hl2 | exact Hneq |].
    intros e0 He0 Hf0. apply Hne. apply (Hinj key (tbl, col) e e0 He He0). congruence. }
  split.
  - intros key e He. destruct (decide (key = (tbl, col))) as [->|Hne].
    + rewrite He' in He. injection He as <-. split; [exact Hvalid|]. eauto.
    + rewrite Hothers in He by exact Hne.
      destruct (Hown _ _ He) as (Hval & l2 & f2 & Hf2 & Hl2 & Hv2).
      split; [exact Hval|]. exists l2, f2.
      destruct (Hkeep _ _ _ _ Hne He Hf2 Hl2) as [_ Hl2']. auto.
  - intros k1 k2 e1 e2 He1 He2 Hsame.
    destruct (decide (k1 = (tbl, col))) as [->|Hne1], (decide (k2 = (tbl, col))) as [->|Hne2].
    + reflexivity.
    + exfalso. rewrite He' in He1. injection He1 as <-.
      rewrite Hothers in He2 by exact Hne2.
      destruct (Hown _ _ He2) as (_ & l2 & f2 & Hf2 & Hl2 & _).
      destruct (Hkeep _ _ _ _ Hne2 He2 Hf2 Hl2) as [Hneq _]. congruence.
    + exfalso. rewrite He' in He2. injection He2 as <-.
      rewrite Hothers in He1 by exact Hne1.
      destruct (Hown _ _ He1) as (_ & l1 & f1 & Hf1 & Hl1 & _).
      destruct (Hkeep _ _ _ _ Hne1 He1 Hf1 Hl1) as [Hneq _]. congruence.
    + rewrite Hothers in He1, He2 by assumption. eapply Hinj; eauto.
Qed.

(** X23.  Under the registry invariant [unregister_bloom_filter] always
    returns, never on a dangling or unassigned pointer, and keeps the
    invariant: the key has no entry afterwards and the entries left still
    own their objects. *)
Theorem unregister_keeps_well_formed (tbl col : Z) (s : backend) :
  well_formed s ->
  exists s',
    unregister_bloom_filter tbl col s = (Returns tt, s') /\
    registry_of s' = delete (tbl, col) (registry_of s) /\
    well_formed s'.
Proof.
  intros Hwf. destruct (registry_of s !! (tbl, col)) as [e|] eqn:He.
  - destruct Hwf as [Hown Hinj].
    destruct (Hown _ _ He) as (_ & l & f & Hf & Hl & _).
    unfold registry_of in He.
    destruct (bloom_shared_state s) as [sh|] eqn:Hs; [|now rewrite lookup_empty in He].
    assert (registry_of s = bloom_registry sh) as Hreg by (unfold registry_of; now rewrite Hs).
    eexists. split.
    { apply (unregister_present_run s sh tbl col e Hs He). rewrite Hf. simpl. eauto. }
    rewrite Hf. unfold registry_of at 1. cbn [bloom_shared_state bloom_registry released].
    split; [now rewrite Hreg|]. split.
    + intros key e2. unfold registry_of. cbn [bloom_shared_state bloom_registry heap].
      intros He2. apply lookup_delete_Some in He2 as [Hne He2]. rewrite <- Hreg in He2.
      destruct (Hown _ _ He2) as (Hval & l2 & f2 & Hf2 & Hl2 & Hv2).
      split; [exact Hval|]. exists l2, f2. split; [exact Hf2|]. split; [|exact Hv2].
      rewrite lookup_delete_ne; [exact Hl2|]. intros <-.
      apply Hne. rewrite <- Hreg in He. apply (Hinj _ _ _ _ He He2). congruence.
    + intros k1 k2 e1 e2. unfold registry_of. cbn [bloom_shared_state bloom_registry].
      intros He1 He2. apply lookup_delete_Some in He1 as [_ He1].
      apply lookup_delete_Some in He2 as [_ He2]. rewrite <- Hreg in He1, He2.
      eapply Hinj; eauto.
  - exists s. split; [now apply unregister_absent_run|].
    split; [|exact Hwf]. symmetry. now apply delete_id.
Qed.

(** X24.  Under the registry invariant the row triggers are safe on
    non-null tuples: [octo_bloom_insert_trigger] and
    [octo_bloom_update_trigger] return, with no access out of a bit buffer
    and no division by zero, and keep the invariant. *)
Theorem triggers_keep_well_formed (trigdata : TriggerData) (old t : HeapTuple) (s : backend) :
  well_formed s ->
  tg_trigtuple trigdata = Some old -> tg_newtuple trigdata = Some t ->
  (exists d s', octo_bloom_insert_trigger trigdata s = (Returns d, s') /\ well_formed s') /\
  (exists r s', octo_bloom_update_trigger trigdata s = (Returns r, s') /\ well_formed s').
Proof.
  intros Hwf Hold Hnew. split.
  - unfold octo_bloom_insert_trigger. destruct (_ || _); [unfold ret; eauto|].
    rewrite Hnew. unfold mbind, M_bind, bind.
    destruct (insert_loop_well_formed (rd_id (tg_relation trigdata)) t
                (rd_att (tg_relation trigdata)) 0 s Hwf) as (s' & -> & Hwf').
    unfold ret. eauto.
  - unfold octo_bloom_update_trigger. destruct (_ || _); [unfold ret; eauto|].
    rewrite Hold, Hnew. unfold mbind, M_bind, bind.
    destruct (update_loop_well_formed (rd_id (tg_relation trigdata)) old t
                (rd_att (tg_relation trigdata)) 0 s Hwf) as (ws & s' & -> & Hwf').
    unfold ret. eauto.
Qed.

(** X25.  Under the registry invariant [octo_bloom_might_contain] is
    defined for every column the catalog resolves and every value: it
    returns an answer and leaves the backend as it was. *)
Theorem might_contain_is_defined (tbl : Z) (column_name : string) (value : option (list Z))
    (s : backend) :
  well_formed s -> get_attnum tbl column_name <> InvalidAttrNumber ->
  exists answer, octo_bloom_might_contain tbl column_name value s = (Returns answer, s).
Proof.
  intros Hwf Hcol. rewrite octo_bloom_might_contain_run by exact Hcol.
  destruct (well_formed_filter_of s tbl (get_attnum tbl column_name) Hwf)
    as [Hf|(l & f & Hf & Hl & Hv)]; unfold filter_of in Hf; rewrite Hf; [eauto|].
  rewrite Hl. destruct (bit_array_size_ f =? 0); [eauto|].
  destruct value as [bytes|]; [|eauto].
  destruct (valid_filter_room f Hv) as [Hm Hlen].
  destruct (mightContain_loop_is_Some (seqZ 0 (num_hashes_ f)) (bits_ f) (bit_array_size_ f)
              (hash1 (Some bytes)) (hash2 (Some bytes)) Hm Hlen) as [answer Ha].
  unfold mightContain, doubleHash. rewrite Ha. eauto.
Qed.

End WellFormed.

Lemma sample_backend_well_formed gs : well_formed (sample_backend gs).
Proof.
  split.
  - intros key e He. unfold registry_of in He. cbn in He.
    apply lookup_singleton_Some in He as [_ <-]. split; [reflexivity|].
    exists 2%positive, sample_filter. split; [reflexivity|].
    split; [reflexivity | exact sample_filter_valid].
  - intros k1 k2 e1 e2 He1 He2 _. unfold registry_of in He1, He2. cbn in He1, He2.
    apply lookup_singleton_Some in He1 as [<- _].
    apply lookup_singleton_Some in He2 as [<- _]. reflexivity.
Qed.

Lemma register_keeps_well_formed_witness :
  well_formed sample_backend_registered.
Proof.
  apply (@register_keeps_well_formed sample_libm 16384 1 4 d_0_1 (sample_backend [])).
  - apply sample_backend_well_formed.
  - lia.
  - unfold d_0_1. lia.
  - reflexivity.
Defined.

Lemma unregister_keeps_well_formed_witness :
  exists s',
    unregister_bloom_filter 16384 1 (sample_backend []) = (Returns tt, s') /\
    registry_of s' = delete (16384, 1) (registry_of (sample_backend [])) /\
    well_formed s'.
Proof.
  apply (unregister_keeps_well_formed 16384 1 (sample_backend [])).
  apply sample_backend_well_formed.
Defined.

Lemma triggers_keep_well_formed_witness :
  (exists d s',
      @octo_bloom_insert_trigger sample_postgres sample_trigger_event
        (mkTriggerData 4 sample_relation (Some sample_tuple) (Some sample_tuple))
        (sample_backend []) = (Returns d, s') /\ well_formed s') /\
  (exists r s',
      @octo_bloom_update_trigger sample_postgres sample_trigger_event
        (mkTriggerData 4 sample_relation (Some sample_tuple) (Some sample_tuple))
        (sample_backend []) = (Returns r, s') /\ well_formed s').
Proof.
  apply (@triggers_keep_well_formed sample_postgres sample_trigger_event
           (mkTriggerData 4 sample_relation (Some sample_tuple) (Some sample_tuple))
           sample_tuple sample_tuple (sample_backend [])).
  - apply sample_backend_well_formed.
  - reflexivity.
  - reflexivity.
Defined.

Lemma might_contain_is_defined_witness :
  exists answer,
    @octo_bloom_might_contain sample_postgres 16384 "email" (Some sample_key) (sample_backend [])
    = (Returns answer, sample_backend []).
Proof.
  apply (@might_contain_is_defined sample_postgres 16384 "email" (Some sample_key)
           (sample_backend [])).
  - apply sample_backend_well_formed.
  - discriminate.
Defined.
